(** * Mixly / Blockly core: keyboard, clipboard, block registry, touch
      binding, number test and the [controls_if] mutator

    A shallow embedding of [blockly/core/blockly.js] and of the
    [controls_if] block of the loops block table, with the properties of
    the clipboard layer, the key handler, the event binder, the JSON block
    registry, [Blockly.isNumber] and the mutation round trips.

    Conventions of the embedding.
    - The [Blockly] namespace globals are the fields of one record that is
      threaded through every function.
    - A call of a collaborator that lives outside these two files (the SVG
      block, the workspace, the event grouping, the tooltip and widget
      layers, the console) is recorded, in program order, in a call log.
      What the collaborator returns to the caller is either a field of the
      receiving object ([isDeletable], [getRelativeToSurfaceXY]) or an
      operation of an interface class ([blockToDom], [deleteNext]).
    - Numbers are doubles, as in the language. The counters of the
      [controls_if] block only take integral values, NaN or an infinity:
      they are integers that every operation rounds to the nearest
      double. Surface coordinates are arbitrary doubles; their conversion
      to a string belongs to the interface class. Key codes, indices of
      arrays and pixel sizes are small integers. *)

From Stdlib Require Import ZArith Ascii String DecimalString DecimalZ DecimalN.
From Stdlib Require Import Floats.
From stdpp Require Import base gmap strings list.

Local Open Scope string_scope.
Local Open Scope list_scope.

(** ** JavaScript values used by the two files *)
Module Js.

(** A number as the block code sees it: a count or the result of
    [parseInt], that is NaN, an infinity, or a double with an integral
    value, given by that value. *)
Inductive number : Type :=
| NaN
| Int (z : Z)
| Infinity (negative : bool).

(** ToBoolean on a number: [0] and [NaN] are falsy. *)
Definition truthy (n : number) : bool :=
  match n with
  | NaN => false
  | Int z => negb (z =? 0)%Z
  | Infinity _ => true
  end.

(** The decimal numeral of an integer: ["0"], ["17"], ["-4"]. It is
    what ToString gives for an integer below 2^53 in magnitude. *)
Definition toString (z : Z) : string :=
  NilZero.string_of_int (Z.to_int z).

(** Every integer below [safe] = 2^53 in magnitude is a double. *)
Definition safe : Z := 9007199254740992.

(** The Number value for an integer: the nearest double, a tie going
    to the even mantissa, and an infinity from 2^1024 on. A double of
    [b] bits keeps the upper 53. *)
Definition nearest (z : Z) : number :=
  let a := Z.abs z in
  if (a <? safe)%Z then Int z
  else
    let shift := (Z.log2 a - 52)%Z in
    let q := Z.shiftr a shift in
    let r := (a - Z.shiftl q shift)%Z in
    let half := Z.shiftl 1 (shift - 1) in
    let q := if (half <? r)%Z || ((r =? half)%Z && Z.odd q)
             then (q + 1)%Z else q in
    let m := Z.shiftl q shift in
    if (2 ^ 1024 <=? m)%Z then Infinity (z <? 0)%Z
    else Int (Z.sgn z * m).

(** Whether the integer [v] rounds to the double [a]. *)
Definition roundsTo (v a : Z) : bool :=
  match nearest v with
  | Int z => (z =? a)%Z
  | _ => false
  end.

(** The integer with the fewest significant digits that rounds to the
    double [a > 0], the one closest to [a] if there are several and the
    one with the even last digit on a tie. [p] is the power of ten that
    the candidates are multiples of; it starts at the leading digit of
    [a] and loses one zero each round. *)
Fixpoint shortestFrom (rounds : nat) (p a : Z) : Z :=
  match rounds with
  | S rounds' =>
      let lo := (a / p * p)%Z in
      let hi := (lo + p)%Z in
      if roundsTo lo a && roundsTo hi a then
        if (a - lo <? hi - a)%Z then lo
        else if (hi - a <? a - lo)%Z then hi
        else if Z.even (lo / p) then lo else hi
      else if roundsTo lo a then lo
      else if roundsTo hi a then hi
      else shortestFrom rounds' (p / 10) a
  | O => a
  end.

#[global] Arguments nearest : simpl never.

Definition shortest (a : Z) : Z :=
  let n := String.length (toString a) in
  shortestFrom n (10 ^ Z.of_nat (n - 1)) a.

(** A numeral without its trailing zeros. *)
Fixpoint stripZeros (s : string) : string :=
  match s with
  | String c s' =>
      match stripZeros s' with
      | EmptyString => if Ascii.eqb c "0" then EmptyString
                       else String c EmptyString
      | rest => String c rest
      end
  | EmptyString => EmptyString
  end.

(** ToString on a double [a >= 2^53]: with [n] the number of digits of
    the shortest integer that rounds to [a], that integer up to
    [n = 21], and from there on its significant digits in exponent
    form, as in ["1e+21"] and ["1.1805916207174113e+21"]. *)
Definition bigToString (a : Z) : string :=
  let digits := toString (shortest a) in
  let n := String.length digits in
  if (n <=? 21)%nat then digits
  else
    match stripZeros digits with
    | String d EmptyString =>
        String d ("e+" +:+ toString (Z.of_nat (n - 1)))
    | String d rest =>
        String d ("." +:+ rest +:+ "e+" +:+ toString (Z.of_nat (n - 1)))
    | EmptyString => EmptyString
    end.

(** ToString on a number. *)
Definition numberToString (n : number) : string :=
  match n with
  | NaN => "NaN"
  | Int z =>
      if (Z.abs z <? safe)%Z then toString z
      else if (z <? 0)%Z then "-" +:+ bigToString (Z.abs z)
      else bigToString z
  | Infinity negative => if negative then "-Infinity" else "Infinity"
  end.

(** [Number.isSafeInteger]: an integer below 2^53 in magnitude. *)
Definition isSafeInteger (n : number) : bool :=
  match n with
  | Int z => (Z.abs z <? safe)%Z
  | _ => false
  end.

(** [n + 1] and [n - 1] as [n++] and [n--] compute them. *)
Definition increment (n : number) : number :=
  match n with
  | Int z => nearest (z + 1)
  | other => other
  end.

Definition decrement (n : number) : number :=
  match n with
  | Int z => nearest (z - 1)
  | other => other
  end.

(** [n > 0]. *)
Definition positive (n : number) : bool :=
  match n with
  | NaN => false
  | Int z => (0 <? z)%Z
  | Infinity negative => negb negative
  end.

(** [\s] restricted to the code units a [string] of this model can
    hold: TAB, LF, VT, FF, CR, SPACE and NBSP. *)
Definition isWhiteSpace (c : ascii) : bool :=
  let n := nat_of_ascii c in
  (n =? 9)%nat || (n =? 10)%nat || (n =? 11)%nat || (n =? 12)%nat
  || (n =? 13)%nat || (n =? 32)%nat || (n =? 160)%nat.

Fixpoint trimLeft (s : string) : string :=
  match s with
  | String c s' => if isWhiteSpace c then trimLeft s' else s
  | EmptyString => EmptyString
  end.

(** The longest prefix of decimal digits, as a decimal numeral. *)
Fixpoint digitsPrefix (s : string) : Decimal.uint :=
  match s with
  | String c s' =>
      match DecimalString.uint_of_char c (Some (digitsPrefix s')) with
      | Some d => d
      | None => Decimal.Nil
      end
  | EmptyString => Decimal.Nil
  end.

(** The integer a run of digits stands for; [None] without a digit. *)
Definition readDigits (s : string) : option Z :=
  match digitsPrefix s with
  | Decimal.Nil => None
  | d => Some (Z.of_N (N.of_uint d))
  end.

(** The integer [parseInt(s, 10)] reads: leading white space is
    skipped, one sign is accepted, the longest run of digits is read,
    the rest is ignored. *)
Definition mathInt (s : string) : option Z :=
  match trimLeft s with
  | String "-"%char s' => option_map Z.opp (readDigits s')
  | String "+"%char s' => readDigits s'
  | s' => readDigits s'
  end.

(** [parseInt(s, 10)] on a string: the Number value for the integer
    read, [NaN] when there is no digit. (Rounding is symmetric, so the
    sign may be applied before it. The language lets an implementation
    round a numeral of more than 20 digits less precisely; browsers
    round it to the nearest double.) *)
Definition parseIntString (s : string) : number :=
  match mathInt s with
  | Some z => nearest z
  | None => NaN
  end.

(** [parseInt(v, 10)] where [v] is what [getAttribute] returned: a
    string or [null] ([None]); [null] is first converted to the string
    ["null"]. *)
Definition parseInt (v : option string) : number :=
  match v with
  | Some s => parseIntString s
  | None => parseIntString "null"
  end.

(** Whether [for (i = 1; i <= n; i++)] never ends: from 2^53 on,
    [i++] leaves [i] as it is. *)
Definition endless (n : number) : bool :=
  match n with
  | NaN => false
  | Int z => (safe <=? z)%Z
  | Infinity negative => negb negative
  end.

(** Number of times the body of [for (i = 1; i <= n; i++)] runs when
    the loop ends. *)
Definition upTo (n : number) : nat :=
  match n with
  | Int z => Z.to_nat z
  | _ => 0
  end.

End Js.

(** ** The fragment of the DOM the clipboard and the mutation use *)
Module Dom.

(** An element of the page, which is an HTML document: its local name
    (the node name is its upper-case form), its attributes and its
    children. *)
#[local] Unset Elimination Schemes.
Inductive Element : Type :=
  mkElement {
    localName : string;
    attributes : gmap string string;
    childNodes : list Element
  }.
#[local] Set Elimination Schemes.

(** ASCII lower case. *)
Definition lowerChar (c : ascii) : ascii :=
  let n := nat_of_ascii c in
  if (65 <=? n)%nat && (n <=? 90)%nat then ascii_of_nat (n + 32) else c.

Fixpoint lowerCase (s : string) : string :=
  match s with
  | String c s' => String (lowerChar c) (lowerCase s')
  | EmptyString => EmptyString
  end.

(** [document.createElement(name)]: in an HTML document the local name
    is [name] in lower case. *)
Definition createElement (name : string) : Element :=
  mkElement (lowerCase name) ∅ [].

(** [setAttribute(name, value)] with a string as value; a number given
    as value is first converted by ToString. *)
Definition setAttribute (name value : string) (e : Element) : Element :=
  mkElement (localName e) (<[name := value]> (attributes e)) (childNodes e).

(** [null] is [None]. *)
Definition getAttribute (name : string) (e : Element) : option string :=
  attributes e !! name.

End Dom.

(** ** [blockly/core/blockly.js]: globals, clipboard and key handler *)
Module Blockly.
Import Dom.

(** [Blockly.DRAG_NONE], [Blockly.DRAG_STICKY], [Blockly.DRAG_FREE]. *)
Inductive DragMode : Type := DRAG_NONE | DRAG_STICKY | DRAG_FREE.

Definition isDragFree (m : DragMode) : bool :=
  match m with DRAG_FREE => true | _ => false end.

Definition WorkspaceId := nat.
Definition Connection := nat.

(** Surface coordinates are numbers, any doubles. *)
Record Coordinate : Type := { x : float; y : float }.

(** A block as the clipboard layer uses it. The block class is not in
    these files: what its methods [isDeletable], [isMovable] and
    [getRelativeToSurfaceXY] return to the key handler and to [copy_] are
    fields. *)
Record Block : Type := {
  id : nat;
  workspace : WorkspaceId;
  RTL : bool;
  getRelativeToSurfaceXY : Coordinate;
  isDeletable : bool;
  isMovable : bool
}.

Record Flyout : Type := { autoClose : bool }.
Record Toolbox : Type := { flyout_ : option Flyout }.

(** The main workspace: [options.readOnly] and [toolbox_]. *)
Record Workspace : Type := {
  wsId : WorkspaceId;
  readOnly : bool;
  toolbox_ : option Toolbox
}.

(** [Blockly.Xml.blockToDom] and [Blockly.Xml.deleteNext] are defined
    in the XML module, and [ToString], the conversion that
    [setAttribute] applies to a number given as value, is the
    language's; the clipboard code is generic in them. *)
Class XmlApi : Type := {
  blockToDom : Block -> Element;
  deleteNext : Element -> Element;
  ToString : float -> string
}.

(** Calls into collaborators, in program order. *)
Inductive Call : Type :=
| Tooltip_hide
| WidgetDiv_hide
| clearSelection (ws : WorkspaceId)
| preventDefault
| Events_setGroup (state : bool)
| paste (ws : WorkspaceId) (xmlBlock : option Element)
| undo (ws : WorkspaceId) (redo : bool)
| dispose (b : Block) (heal animate : bool)
| unhighlight (c : Connection)
| saveToClipCache (xmlBlock : Element)
| domToBlockFromClipCache (ws : WorkspaceId).

(** The [Blockly] globals the file declares, and the call log. *)
Record World : Type := mkWorld {
  mainWorkspace : Workspace;
  selected : option Block;
  highlightedConnection_ : option Connection;
  clipboardXml_ : option Element;
  clipboardSource_ : option WorkspaceId;
  dragMode_ : DragMode;
  calls : list Call
}.

(** Statements either complete with a value or throw (a [TypeError] on
    a [null] receiver); the world is threaded through both. *)
Inductive Completion (A : Type) : Type :=
| Normal (a : A)
| Throw.
Arguments Normal {A} a.
Arguments Throw {A}.

Definition M (A : Type) : Type := World -> Completion A * World.

Definition ret {A} (a : A) : M A := fun w => (Normal a, w).
Definition bind {A B} (m : M A) (k : A -> M B) : M B :=
  fun w => match m w with
           | (Normal a, w') => k a w'
           | (Throw, w') => (Throw, w')
           end.
Definition throw {A} : M A := fun w => (Throw, w).
Definition gets {A} (f : World -> A) : M A := fun w => (Normal (f w), w).
Definition modify (f : World -> World) : M unit := fun w => (Normal tt, f w).

Notation "x <- m ;; k" := (bind m (fun x => k))
  (at level 100, m at next level, right associativity).
Notation "m ;; k" := (bind m (fun _ => k))
  (at level 100, right associativity).

Definition call (c : Call) : M unit :=
  modify (fun w => mkWorld (mainWorkspace w) (selected w)
                     (highlightedConnection_ w) (clipboardXml_ w)
                     (clipboardSource_ w) (dragMode_ w) (calls w ++ [c])).

Definition set_clipboardXml_ (v : option Element) : M unit :=
  modify (fun w => mkWorld (mainWorkspace w) (selected w)
                     (highlightedConnection_ w) v
                     (clipboardSource_ w) (dragMode_ w) (calls w)).

Definition set_clipboardSource_ (v : option WorkspaceId) : M unit :=
  modify (fun w => mkWorld (mainWorkspace w) (selected w)
                     (highlightedConnection_ w) (clipboardXml_ w)
                     v (dragMode_ w) (calls w)).

Definition set_highlightedConnection_ (v : option Connection) : M unit :=
  modify (fun w => mkWorld (mainWorkspace w) (selected w)
                     v (clipboardXml_ w)
                     (clipboardSource_ w) (dragMode_ w) (calls w)).

(** The final world of a run. *)
Definition exec {A} (m : M A) (w : World) : World := snd (m w).
(** Whether a run completed without throwing. *)
Definition completes {A} (m : M A) (w : World) : bool :=
  match fst (m w) with Normal _ => true | Throw => false end.

Section Clipboard.
Context `{XmlApi}.

(** [Blockly.copy_]. [blockToDom] builds a new element, so the element
    that was on the clipboard before is not touched. *)
Definition copy_ (block : Block) : M unit :=
  let xmlBlock := blockToDom block in
  mode <- gets dragMode_ ;;
  let xmlBlock :=
    if negb (isDragFree mode) then deleteNext xmlBlock else xmlBlock in
  let xy := getRelativeToSurfaceXY block in
  let xmlBlock :=
    setAttribute "x"
      (ToString (if RTL block then (- x xy)%float else x xy)) xmlBlock in
  let xmlBlock := setAttribute "y" (ToString (y xy)) xmlBlock in
  set_clipboardXml_ (Some xmlBlock) ;;
  set_clipboardSource_ (Some (workspace block)).

(** [workspace.paste(Blockly.clipboardXml_)]: the argument is read
    from the global at the call. *)
Definition paste_clipboard_into (ws : WorkspaceId) : M unit :=
  xml <- gets clipboardXml_ ;;
  call (paste ws xml).

(** [Blockly.duplicate_]. *)
Definition duplicate_ (block : Block) : M unit :=
  clipboardXml <- gets clipboardXml_ ;;
  clipboardSource <- gets clipboardSource_ ;;
  copy_ block ;;
  paste_clipboard_into (workspace block) ;;
  set_clipboardXml_ clipboardXml ;;
  set_clipboardSource_ clipboardSource.

(** [Blockly.hideChaff]; an omitted argument is [false]. *)
Definition hideChaff (opt_allowToolbox : bool) : M unit :=
  call Tooltip_hide ;;
  call WidgetDiv_hide ;;
  if negb opt_allowToolbox then
    ws <- gets mainWorkspace ;;
    match toolbox_ ws with
    | Some tb =>
        match flyout_ tb with
        | Some fl =>
            if autoClose fl then call (clearSelection (wsId ws))
            else ret tt
        | None => ret tt
        end
    | None => ret tt
    end
  else ret tt.

(** A key-down event: the fields the handler reads, and the verdict of
    [Blockly.utils.isTargetInput] on it. *)
Record KeyEvent : Type := {
  keyCode : Z;
  altKey : bool;
  ctrlKey : bool;
  metaKey : bool;
  shiftKey : bool;
  isTargetInput : bool
}.

(** The branch of [onKeyDown_] for a modifier without shift; the
    result is the new value of [deleteBlock]. *)
Definition modifierKeys (e : KeyEvent) : M bool :=
  sel <- gets selected ;;
  deleteBlock <-
    match sel with
    | Some b =>
        if isDeletable b && isMovable b then
          if (keyCode e =? 67)%Z then
            hideChaff false ;; copy_ b ;; ret false
          else if (keyCode e =? 88)%Z then
            copy_ b ;; ret true
          else ret false
        else ret false
    | None => ret false
    end ;;
  (if (keyCode e =? 86)%Z then
     xml <- gets clipboardXml_ ;;
     match xml with
     | Some _ =>
         call (Events_setGroup true) ;;
         src <- gets clipboardSource_ ;;
         match src with
         | Some ws => paste_clipboard_into ws
         | None => throw
         end ;;
         call (Events_setGroup false)
     | None => ret tt
     end
   else if (keyCode e =? 90)%Z then
     hideChaff false ;;
     ws <- gets mainWorkspace ;;
     call (undo (wsId ws) (shiftKey e))
   else if (keyCode e =? 89)%Z then
     hideChaff false ;;
     ws <- gets mainWorkspace ;;
     call (undo (wsId ws) true)
   else ret tt) ;;
  ret deleteBlock.

(** The branch for shift and ctrl together: the cross-page clip cache.
    Both bodies sit in [try ... catch] blocks that swallow errors. *)
Definition shiftCtrlKeys (e : KeyEvent) : M unit :=
  sel <- gets selected ;;
  match sel with
  | Some b =>
      if isDeletable b && isMovable b then
        if (keyCode e =? 67)%Z then call (saveToClipCache (blockToDom b))
        else ret tt
      else ret tt
  | None => ret tt
  end ;;
  if (keyCode e =? 86)%Z then
    ws <- gets mainWorkspace ;;
    call (domToBlockFromClipCache (wsId ws))
  else ret tt.

(** Common code for delete and cut. *)
Definition deleteSelected : M unit :=
  call (Events_setGroup true) ;;
  hideChaff false ;;
  mode <- gets dragMode_ ;;
  let heal := negb (isDragFree mode) in
  sel <- gets selected ;;
  match sel with
  | Some b => call (dispose b heal true)
  | None => throw
  end ;;
  hc <- gets highlightedConnection_ ;;
  match hc with
  | Some c => call (unhighlight c) ;; set_highlightedConnection_ None
  | None => ret tt
  end ;;
  call (Events_setGroup false).

(** [Blockly.onKeyDown_]. *)
Definition onKeyDown_ (e : KeyEvent) : M unit :=
  ws <- gets mainWorkspace ;;
  if readOnly ws || isTargetInput e then ret tt
  else
    deleteBlock <-
      (if (keyCode e =? 27)%Z then
         hideChaff false ;; ret false
       else if (keyCode e =? 8)%Z || (keyCode e =? 46)%Z then
         call preventDefault ;;
         sel <- gets selected ;;
         ret (match sel with
              | Some b => isDeletable b
              | None => false
              end)
       else if (altKey e || ctrlKey e || metaKey e) && negb (shiftKey e)
       then modifierKeys e
       else if shiftKey e && ctrlKey e then
         shiftCtrlKeys e ;; ret false
       else ret false) ;;
    if deleteBlock : bool then deleteSelected else ret tt.

End Clipboard.

(** The calls [hideChaff()] makes for a given main workspace. *)
Definition chaff (ws : Workspace) : list Call :=
  [Tooltip_hide; WidgetDiv_hide] ++
  match toolbox_ ws with
  | Some tb =>
      match flyout_ tb with
      | Some fl => if autoClose fl then [clearSelection (wsId ws)] else []
      | None => []
      end
  | None => []
  end.

(** The handler's guard: a read-only main workspace or a key typed into
    an HTML input is ignored. *)
Definition ignored (e : KeyEvent) (w : World) : bool :=
  readOnly (mainWorkspace w) || isTargetInput e.

(** Alt, Ctrl or Cmd held without Shift. *)
Definition modifierOnly (e : KeyEvent) : bool :=
  (altKey e || ctrlKey e || metaKey e) && negb (shiftKey e).

Definition isCutKey (e : KeyEvent) : bool :=
  modifierOnly e && (keyCode e =? 88)%Z.
Definition isPasteKey (e : KeyEvent) : bool :=
  modifierOnly e && (keyCode e =? 86)%Z.
Definition isDeleteKey (e : KeyEvent) : bool :=
  (keyCode e =? 8)%Z || (keyCode e =? 46)%Z.

(** The calls appended by a run. *)
Definition appended (before after : World) (l : list Call) : Prop :=
  calls after = calls before ++ l.

(** The clipboard globals are set together: a clipboard element always
    comes with its source workspace. *)
Definition clipboardPaired (w : World) : Prop :=
  is_Some (clipboardXml_ w) -> is_Some (clipboardSource_ w).

(** The cut sentence as it is worded, without the handler's guard: a
    cut key on a selected, deletable and movable block copies and then
    disposes it; otherwise nothing moves. *)
Definition cutAsWorded `{XmlApi} : Prop :=
  forall e w,
    isCutKey e = true ->
    (forall b,
        selected w = Some b -> isDeletable b = true -> isMovable b = true ->
        exec (onKeyDown_ e) w = exec deleteSelected (exec (copy_ b) w))
    /\ (match selected w with
        | Some b => isDeletable b && isMovable b
        | None => false
        end = false -> exec (onKeyDown_ e) w = w).

(** The paste sentence as it is worded, without the handler's guard. *)
Definition pasteAsWorded `{XmlApi} : Prop :=
  forall e w,
    isPasteKey e = true ->
    (forall xmlBlock source,
        clipboardXml_ w = Some xmlBlock ->
        clipboardSource_ w = Some source ->
        appended w (exec (onKeyDown_ e) w)
          [Events_setGroup true; paste source (Some xmlBlock);
           Events_setGroup false])
    /\ (clipboardXml_ w = None -> exec (onKeyDown_ e) w = w).

(** A concrete XML layer for closed examples: a block serialises to a
    [block] element carrying its id, with a [next] child for the blocks
    stacked below it; [deleteNext] drops the first [next] child. The
    conversion of numbers is given on the numbers of the examples. *)
Module Sample.
Fixpoint dropNext (l : list Element) : list Element :=
  match l with
  | c :: rest =>
      if String.eqb (localName c) "next" then rest else c :: dropNext rest
  | [] => []
  end.

Definition numerals : list (float * string) :=
  [(12.5%float, "12.5"); ((-12.5)%float, "-12.5"); (30%float, "30");
   ((-30)%float, "-30"); (12%float, "12"); (0%float, "0");
   ((-0)%float, "0")].

Fixpoint numeral (table : list (float * string)) (v : float) : string :=
  match table with
  | (v', s) :: rest =>
      if PrimFloat.eqb v v' then s else numeral rest v
  | [] => "NaN"
  end.

Definition xml : XmlApi := {|
  blockToDom b :=
    mkElement "block" {[ "id" := Js.toString (Z.of_nat (id b)) ]}
              [createElement "next"];
  deleteNext e :=
    mkElement (localName e) (attributes e) (dropNext (childNodes e));
  ToString := numeral numerals
|}.

Definition block : Block := {|
  id := 7; workspace := 1; RTL := true;
  getRelativeToSurfaceXY := {| x := 12.5; y := 12 |};
  isDeletable := true; isMovable := true
|}.

Definition editable : Workspace :=
  {| wsId := 1; readOnly := false; toolbox_ := None |}.
Definition locked : Workspace :=
  {| wsId := 2; readOnly := true; toolbox_ := None |}.

(** A block is selected; nothing was copied yet. *)
Definition world : World :=
  mkWorld editable (Some block) (Some 5) None None DRAG_NONE [].

(** The clipboard holds a copy made in workspace 1; the read-only
    workspace 2 has the focus. *)
Definition lockedWorld : World :=
  mkWorld locked None None (Some (createElement "block")) (Some 1)
          DRAG_NONE [].

Definition key (code : Z) (ctrl shift input : bool) : KeyEvent :=
  {| keyCode := code; altKey := false; ctrlKey := ctrl;
     metaKey := false; shiftKey := shift; isTargetInput := input |}.

(** Ctrl+X typed into an HTML input. *)
Definition cutInTextField : KeyEvent := key 88 true false true.
(** Ctrl+X, Ctrl+V and Delete on the drawing surface. *)
Definition cutOnSurface : KeyEvent := key 88 true false false.
Definition pasteOnSurface : KeyEvent := key 86 true false false.
Definition deleteOnSurface : KeyEvent := key 46 false false false.

(** A clipboard filled from workspace 1, which has the focus. *)
Definition filledWorld : World :=
  mkWorld editable None None (Some (createElement "block")) (Some 1)
          DRAG_NONE [].
End Sample.

End Blockly.

(** ** [Blockly.defineBlocksWithJsonArray] *)
Module Registry.

(** A JSON block definition: its [type] attribute ([None] when the
    attribute is missing or [null]) and the rest of the object. *)
Record JsonDef : Type := { type : option string; body : nat }.

(** An entry of [Blockly.Blocks]: a hand-written definition object, or
    the object [{init: Blockly.jsonInitFactory_(elem)}], whose [init]
    calls [this.jsonInit(elem)]. *)
Inductive BlockDefinition : Type :=
| handWritten (tag : nat)
| jsonInit (jsonDef : JsonDef).

(** [Blockly.jsonInitFactory_]. *)
Definition jsonInitFactory_ (jsonDef : JsonDef) : BlockDefinition :=
  jsonInit jsonDef.

Inductive Warning : Type :=
| missingType (i : nat)
| overwrites (i : nat) (typename : string).

(** [Blockly.Blocks] is an ordinary object: its own properties, and
    its prototype, which is [Object.prototype] ([None]) until an
    assignment to [__proto__] makes the object
    [{init: Blockly.jsonInitFactory_(elem)}] of some element the
    prototype. With them, the console. *)
Record State : Type := mkState {
  Blocks : gmap string BlockDefinition;
  prototype : option JsonDef;
  console : list Warning
}.

Definition warn (w : Warning) (st : State) : State :=
  mkState (Blocks st) (prototype st) (console st ++ [w]).

Section Lookup.
(** The names under which [Object.prototype], as the page has it, holds
    a truthy value: [toString], [constructor], [hasOwnProperty] and the
    like. *)
Variable objectPrototype : string -> bool.

(** Whether [Blockly.Blocks[typename]] is truthy. An own property is a
    definition object. Without one, the name is looked up along the
    prototype chain: [__proto__] gives the prototype itself, a
    definition object that became the prototype has the one property
    [init], and the chain ends in [Object.prototype]. *)
Definition defined (st : State) (typename : string) : bool :=
  match Blocks st !! typename with
  | Some _ => true
  | None =>
      String.eqb typename "__proto__"
      || match prototype st with
         | Some _ => String.eqb typename "init"
         | None => false
         end
      || objectPrototype typename
  end.

(** [Blockly.Blocks[typename] = {init: Blockly.jsonInitFactory_(elem)}]:
    a new or updated own property, except that [__proto__], unless it
    is an own property, is the accessor of [Object.prototype], whose
    setter makes the object the prototype. *)
Definition assign (typename : string) (elem : JsonDef) (st : State)
    : State :=
  if String.eqb typename "__proto__"
     && negb (bool_decide (is_Some (Blocks st !! typename)))
  then mkState (Blocks st) (Some elem) (console st)
  else mkState (<[typename := jsonInitFactory_ elem]> (Blocks st))
               (prototype st) (console st).

(** The body of the loop for element [elem] at index [i]. *)
Definition defineOne (i : nat) (elem : JsonDef) (st : State) : State :=
  match type elem with
  | None => warn (missingType i) st
  | Some typename =>
      if String.eqb typename "" then warn (missingType i) st
      else
        let st :=
          if defined st typename then warn (overwrites i typename) st
          else st in
        assign typename elem st
  end.

(** [for (var i = 0, elem; elem = jsonArray[i]; i++)] from index [i]
    on; an entry [None] is a [null] or [undefined] element. *)
Fixpoint defineFrom (i : nat) (jsonArray : list (option JsonDef))
    (st : State) : State :=
  match jsonArray with
  | Some elem :: rest => defineFrom (S i) rest (defineOne i elem st)
  | None :: _ => st
  | [] => st
  end.

Definition defineBlocksWithJsonArray (jsonArray : list (option JsonDef))
    (st : State) : State :=
  defineFrom 0 jsonArray st.

(** Processing a list of definitions one after the other. *)
Fixpoint defineAll (i : nat) (elems : list JsonDef) (st : State) : State :=
  match elems with
  | elem :: rest => defineAll (S i) rest (defineOne i elem st)
  | [] => st
  end.

End Lookup.

(** The elements the loop reaches: the longest prefix without a falsy
    entry. *)
Fixpoint processed (jsonArray : list (option JsonDef)) : list JsonDef :=
  match jsonArray with
  | Some elem :: rest => elem :: processed rest
  | _ => []
  end.

(** The names [Object.prototype] defines in a browser. *)
Definition standardNames : string -> bool :=
  fun name =>
    bool_decide
      (name ∈ ["constructor"; "hasOwnProperty"; "isPrototypeOf";
               "propertyIsEnumerable"; "toLocaleString"; "toString";
               "valueOf"; "__defineGetter__"; "__defineSetter__";
               "__lookupGetter__"; "__lookupSetter__"]).

End Registry.

(** ** [Blockly.bindEventWithChecks_] *)
Module Binding.

Record TouchPoint : Type := { identifier : Z; touchX : Z; touchY : Z }.

(** A DOM event as the binder sees it; [changedTouches] is [None] on a
    mouse event. *)
Record Event : Type := mkEvent {
  evType : string;
  changedTouches : option (list TouchPoint);
  clientX : Z;
  clientY : Z
}.

(** Modelled from the spec: [Blockly.Touch.splitEventByTouches] is
    defined in the touch module, not in these files. The binder's
    comments give its contract: each touch point is handled separately,
    and a mouse event hands back an array with one element. *)
Definition splitEventByTouches (e : Event) : list Event :=
  match changedTouches e with
  | Some touches =>
      map (fun t => mkEvent (evType e) (Some [t]) (clientX e) (clientY e))
          touches
  | None => [e]
  end.

Definition Node := nat.
Definition Receiver := nat.

Inductive Step : Type :=
| checked (event : Event) (verdict : bool)
| invoked (this : option Receiver) (event : Event)
| prevented (e : Event).

Inductive Wrapper : Type := wrapFuncRef | touchWrapFuncRef.

Section Bind.
(** The state of the touch module, its capture check
    [Blockly.Touch.shouldHandleEvent], which may claim the touch
    stream, and [Blockly.Touch.setClientFromTouch], which rewrites
    the client coordinates of the event. *)
Context {T : Type}.
Variable shouldHandleEvent : Event -> T -> bool * T.
Variable setClientFromTouch : Event -> Event.
Variable TOUCH_MAP : gmap string (list string).

(** The arguments of [bindEventWithChecks_]. *)
Variable thisObject : option Receiver.
Variable func : option Receiver -> Event -> T -> T.
Variable opt_noCaptureIdentifier : bool.

(** The touch state, the closure variable [handled], and the trace
    of checks, handler calls and [preventDefault] calls. *)
Record Env : Type := mkEnv {
  touch : T;
  handled : bool;
  trace : list Step
}.

(** The body of [wrapFunc]'s loop for one event. *)
Definition wrapOne (event : Event) (s : Env) : Env :=
  let captureIdentifier := negb opt_noCaptureIdentifier in
  let '(skip, s) :=
    if captureIdentifier then
      let '(ok, t) := shouldHandleEvent event (touch s) in
      (negb ok, mkEnv t (handled s) (trace s ++ [checked event ok]))
    else (false, s) in
  if skip : bool then s
  else
    let event := setClientFromTouch event in
    mkEnv (func thisObject event (touch s)) true
          (trace s ++ [invoked thisObject event]).

Fixpoint wrapLoop (events : list Event) (s : Env) : Env :=
  match events with
  | event :: rest => wrapLoop rest (wrapOne event s)
  | [] => s
  end.

Definition wrapFunc (e : Event) (s : Env) : Env :=
  wrapLoop (splitEventByTouches e) s.

Definition touchWrapFunc (e : Event) (s : Env) : Env :=
  let s := wrapFunc e s in
  if handled s then mkEnv (touch s) (handled s) (trace s ++ [prevented e])
  else s.

(** [for (i = 0, eventName; eventName = names[i]; i++)]: the loop
    ends at the first empty name. *)
Fixpoint untilFalsy (names : list string) : list string :=
  match names with
  | n :: rest => if String.eqb n "" then [] else n :: untilFalsy rest
  | [] => []
  end.

(** [bindData]: the listeners registered on [node]. *)
Definition bindEventWithChecks_ (node : Node) (name : string)
    : list (Node * string * Wrapper) :=
  (node, name, wrapFuncRef) ::
  match TOUCH_MAP !! name with
  | Some names =>
      map (fun eventName => (node, eventName, touchWrapFuncRef))
          (untilFalsy names)
  | None => []
  end.

(** The events handed to the handler, in call order. *)
Fixpoint invocations (tr : list Step) : list Event :=
  match tr with
  | invoked _ event :: tr => event :: invocations tr
  | _ :: tr => invocations tr
  | [] => []
  end.

(** The events submitted to the capture check, in call order. *)
Fixpoint checks (tr : list Step) : list (Event * bool) :=
  match tr with
  | checked event ok :: tr => (event, ok) :: checks tr
  | _ :: tr => checks tr
  | [] => []
  end.

(** The events that passed the capture check, per the recorded
    verdicts. *)
Definition passed (tr : list Step) : list Event :=
  map fst (filter (fun c => snd c = true) (checks tr)).

(** A recorded verdict is what [shouldHandleEvent] answered on that
    event in some touch state. *)
Definition answered (c : Event * bool) : Prop :=
  exists t, snd c = fst (shouldHandleEvent (fst c) t).

End Bind.

End Binding.

(** ** [Blockly.isNumber] *)
Module RegExp.

(** A string is a sequence of UTF-16 code units. *)
Definition CodeUnit := N.

Inductive re : Type :=
| Fail
| Eps
| Class (p : CodeUnit -> bool)
| Seq (r1 r2 : re)
| Alt (r1 r2 : re)
| Star (r : re).

Fixpoint nullable (r : re) : bool :=
  match r with
  | Fail => false
  | Eps => true
  | Class _ => false
  | Seq r1 r2 => nullable r1 && nullable r2
  | Alt r1 r2 => nullable r1 || nullable r2
  | Star _ => true
  end.

Fixpoint deriv (c : CodeUnit) (r : re) : re :=
  match r with
  | Fail => Fail
  | Eps => Fail
  | Class p => if p c then Eps else Fail
  | Seq r1 r2 =>
      if nullable r1 then Alt (Seq (deriv c r1) r2) (deriv c r2)
      else Seq (deriv c r1) r2
  | Alt r1 r2 => Alt (deriv c r1) (deriv c r2)
  | Star r1 => Seq (deriv c r1) (Star r1)
  end.

(** [/^r$/.test(str)]: the whole string is in the language of [r]. *)
Fixpoint test (r : re) (str : list CodeUnit) : bool :=
  match str with
  | c :: rest => test (deriv c r) rest
  | [] => nullable r
  end.

(** The pattern syntax the source uses. *)
Definition chr (a : CodeUnit) : re := Class (N.eqb a).
Definition opt (r : re) : re := Alt r Eps.
Definition plus (r : re) : re := Seq r (Star r).

(** [\d]. *)
Definition isDigit (c : CodeUnit) : bool := (48 <=? c)%N && (c <=? 57)%N.

(** [\s]: the WhiteSpace and LineTerminator code points. *)
Definition isSpace (c : CodeUnit) : bool :=
  (9 <=? c)%N && (c <=? 13)%N
  || (c =? 32)%N || (c =? 160)%N || (c =? 5760)%N
  || (8192 <=? c)%N && (c <=? 8202)%N
  || (c =? 8232)%N || (c =? 8233)%N || (c =? 8239)%N || (c =? 8287)%N
  || (c =? 12288)%N || (c =? 65279)%N.

Definition minus : CodeUnit := 45%N.
Definition dot : CodeUnit := 46%N.

(** [/^\s*-?\d+(\.\d+)?\s*$/]. *)
Definition numberPattern : re :=
  Seq (Star (Class isSpace))
    (Seq (opt (chr minus))
       (Seq (plus (Class isDigit))
          (Seq (opt (Seq (chr dot) (plus (Class isDigit))))
             (Star (Class isSpace))))).

(** [Blockly.isNumber]: [!!str.match(...)]. *)
Definition isNumber (str : list CodeUnit) : bool := test numberPattern str.

(** The code units of an ASCII literal. *)
Definition codes (s : string) : list CodeUnit :=
  map N_of_ascii (list_ascii_of_string s).

(** The language of a pattern. *)
Inductive Matches : re -> list CodeUnit -> Prop :=
| MEps : Matches Eps []
| MClass p c : p c = true -> Matches (Class p) [c]
| MSeq r1 r2 s1 s2 :
    Matches r1 s1 -> Matches r2 s2 -> Matches (Seq r1 r2) (s1 ++ s2)
| MAltL r1 r2 s : Matches r1 s -> Matches (Alt r1 r2) s
| MAltR r1 r2 s : Matches r2 s -> Matches (Alt r1 r2) s
| MStarNil r : Matches (Star r) []
| MStarCons r s1 s2 :
    Matches r s1 -> Matches (Star r) s2 -> Matches (Star r) (s1 ++ s2).

(** The shape of a number, in the words of the description: white
    space, an optional minus sign, digits, an optional fraction, white
    space. *)
Definition Digits (ds : list CodeUnit) : Prop :=
  ds <> [] /\ Forall (fun c => isDigit c = true) ds.

Definition NumberShape (str : list CodeUnit) : Prop :=
  exists lead sign int frac trail,
    str = lead ++ sign ++ int ++ frac ++ trail
    /\ Forall (fun c => isSpace c = true) lead
    /\ (sign = [] \/ sign = [minus])
    /\ Digits int
    /\ (frac = [] \/ exists fs, frac = dot :: fs /\ Digits fs)
    /\ Forall (fun c => isSpace c = true) trail.

(** The code units a number is made of. *)
Definition numeric (c : CodeUnit) : Prop :=
  isSpace c = true \/ c = minus \/ isDigit c = true \/ c = dot.

End RegExp.

(** ** The [controls_if] block and its mutator *)
Module ControlsIf.
Import Dom.

Inductive InputType : Type := INPUT_VALUE | NEXT_STATEMENT.

(** [Blockly.Msg] labels the block puts on its inputs. *)
Inductive Msg : Type :=
| CONTROLS_IF_MSG_IF
| CONTROLS_IF_MSG_THEN
| CONTROLS_IF_MSG_ELSEIF
| CONTROLS_IF_MSG_ELSE.

Definition Connection := nat.

(** Modelled from the spec: the input methods of a block
    ([appendValueInput], [appendStatementInput], [removeInput], [setCheck],
    [appendField], [connect]) belong to the block and input classes, which
    are not in these files. A block keeps its inputs in a list, in append
    order. An input has its name, its kind, the type check set with
    [setCheck], the fields appended to it and the connection plugged into
    it. *)
Record Input : Type := mkInput {
  name : string;
  kind : InputType;
  check : list string;
  fieldRow : list Msg;
  targetConnection : option Connection
}.

(** The block: [inputList] in append order and the two counters. *)
Record Block : Type := mkBlock {
  inputList : list Input;
  elseifCount_ : Js.number;
  elseCount_ : Js.number
}.

(** [appendValueInput(name).setCheck([Boolean,Number]).appendField(msg)]
    and [appendStatementInput(name).appendField(msg)], then
    [input.connection.connect(c)] when [c] is set, for a connection [c]
    that is plugged in nowhere on the block at that point: [connect]
    takes a connection that is plugged in out of its place first, which
    the list of inputs does not show. *)
Definition valueInput (n : string) (msg : Msg) (c : option Connection)
    : Input :=
  mkInput n INPUT_VALUE ["Boolean"; "Number"] [msg] c.

Definition statementInput (n : string) (msg : Msg) (c : option Connection)
    : Input :=
  mkInput n NEXT_STATEMENT [] [msg] c.

Definition appendInput (i : Input) (b : Block) : Block :=
  mkBlock (inputList b ++ [i]) (elseifCount_ b) (elseCount_ b).

(** Modelled from the spec: [removeInput] of the block class, not in
    these files. The first input of that name is spliced out; a missing
    name is an assertion failure ([None]). *)
Fixpoint removeNamed (n : string) (l : list Input) : option (list Input) :=
  match l with
  | i :: rest =>
      if String.eqb (name i) n then Some rest
      else option_map (cons i) (removeNamed n rest)
  | [] => None
  end.

Definition removeInput (n : string) (b : Block) : option Block :=
  option_map (fun l => mkBlock l (elseifCount_ b) (elseCount_ b))
             (removeNamed n (inputList b)).

(** ['IF' + i], ['DO' + i] for a loop index [i], an integer below 2^53. *)
Definition IF (i : Z) : string := "IF" +:+ Js.toString i.
Definition DO (i : Z) : string := "DO" +:+ Js.toString i.

(** [init]. *)
Definition init : Block :=
  mkBlock [valueInput (IF 0) CONTROLS_IF_MSG_IF None;
           statementInput (DO 0) CONTROLS_IF_MSG_THEN None]
          (Js.Int 0) (Js.Int 0).

(** [mutationToDom]; [null] is [None]. [setAttribute] converts the
    counter with ToString. *)
Definition mutationToDom (b : Block) : option Element :=
  if negb (Js.truthy (elseifCount_ b)) && negb (Js.truthy (elseCount_ b))
  then None
  else
    let container := createElement "mutation" in
    let container :=
      if Js.truthy (elseifCount_ b)
      then setAttribute "elseif" (Js.numberToString (elseifCount_ b))
                        container
      else container in
    let container :=
      if Js.truthy (elseCount_ b)
      then setAttribute "else" (Js.toString 1) container
      else container in
    Some container.

(** [for (var i = 1; i <= this.elseifCount_; i++)] of [domToMutation]:
    [k] rounds are left, the next index is [i]. *)
Fixpoint appendClauses (k : nat) (i : Z) (b : Block) : Block :=
  match k with
  | S k' =>
      appendClauses k' (i + 1)
        (appendInput (statementInput (DO i) CONTROLS_IF_MSG_THEN None)
           (appendInput (valueInput (IF i) CONTROLS_IF_MSG_ELSEIF None) b))
  | O => b
  end.

(** [domToMutation]; [None] when its loop never ends. *)
Definition domToMutation (xmlElement : Element) (b : Block)
    : option Block :=
  let b := mkBlock (inputList b)
             (Js.parseInt (getAttribute "elseif" xmlElement))
             (elseCount_ b) in
  let b := mkBlock (inputList b) (elseifCount_ b)
             (Js.parseInt (getAttribute "else" xmlElement)) in
  if Js.endless (elseifCount_ b) then None
  else
    let b := appendClauses (Js.upTo (elseifCount_ b)) 1 b in
    Some (if Js.truthy (elseCount_ b)
          then appendInput (statementInput "ELSE" CONTROLS_IF_MSG_ELSE None)
                 b
          else b).

(** Modelled from the spec: the mutator is a secondary mini-workspace
    used to reconfigure a block's shape; its workspace and connection
    classes are not in these files. A block of the mutator workspace has
    its type, the two connections [saveConnections] stores on it (unset on
    a new block) and its next connection: [None] on a block without one,
    [Some None] on an open one, [Some (Some b)] when [b] is plugged in. *)
#[local] Unset Elimination Schemes.
Inductive MutatorBlock : Type :=
  mkMutatorBlock {
    type : string;
    valueConnection_ : option Connection;
    statementConnection_ : option Connection;
    nextConnection : option (option MutatorBlock)
  }.
#[local] Set Elimination Schemes.

(** [workspace.newBlock(type)] for the two clause block types:
    [controls_if_elseif] has a next connection, [controls_if_else] has
    none. *)
Definition newElseif : MutatorBlock :=
  mkMutatorBlock "controls_if_elseif" None None (Some None).
Definition newElse : MutatorBlock :=
  mkMutatorBlock "controls_if_else" None None None.

(** The container block [controls_if_if]: the target of its [STACK]
    input. *)
Record Container : Type := { STACK : option MutatorBlock }.

(** [connection.connect(block.previousConnection)] where [connection]
    is the open connection at the end of the stack under [top]. *)
Fixpoint connectLast (top : MutatorBlock) (block : MutatorBlock)
    : MutatorBlock :=
  match nextConnection top with
  | Some (Some next) =>
      mkMutatorBlock (type top) (valueConnection_ top)
        (statementConnection_ top) (Some (Some (connectLast next block)))
  | Some None =>
      mkMutatorBlock (type top) (valueConnection_ top)
        (statementConnection_ top) (Some (Some block))
  | None => top
  end.

Definition connect (stack : option MutatorBlock) (block : MutatorBlock)
    : option MutatorBlock :=
  match stack with
  | Some top => Some (connectLast top block)
  | None => Some block
  end.

(** The loop of [decompose]: [k] rounds are left. *)
Fixpoint connectElseifs (k : nat) (stack : option MutatorBlock)
    : option MutatorBlock :=
  match k with
  | S k' => connectElseifs k' (connect stack newElseif)
  | O => stack
  end.

(** [decompose]; [None] when its loop never ends. *)
Definition decompose (b : Block) : option Container :=
  if Js.endless (elseifCount_ b) then None
  else
    let stack := connectElseifs (Js.upTo (elseifCount_ b)) None in
    let stack :=
      if Js.truthy (elseCount_ b) then connect stack newElse else stack in
    Some {| STACK := stack |}.

(** [for (var i = this.elseifCount_; i > 0; i--)] of [compose], with
    [i] as it stands. A round removes two inputs or throws, so the loop
    makes no more rounds than the block has inputs: [rounds] starts at
    that number, and when none is left no input is left to remove. *)
Fixpoint removeClauses (rounds : nat) (i : Js.number) (b : Block)
    : option Block :=
  if Js.positive i then
    match rounds with
    | S rounds' =>
        match removeInput ("IF" +:+ Js.numberToString i) b with
        | Some b =>
            match removeInput ("DO" +:+ Js.numberToString i) b with
            | Some b => removeClauses rounds' (Js.decrement i) b
            | None => None
            end
        | None => None
        end
    | O => None
    end
  else Some b.

(** The [while (clauseBlock)] loop of [compose]; an unknown block type
    throws ([None]). *)
Fixpoint composeClauses (clauseBlock : MutatorBlock) (b : Block)
    : option Block :=
  let next (b : Block) :=
    match nextConnection clauseBlock with
    | Some (Some nextBlock) => composeClauses nextBlock b
    | _ => Some b
    end in
  if String.eqb (type clauseBlock) "controls_if_elseif" then
    let b := mkBlock (inputList b) (Js.increment (elseifCount_ b))
               (elseCount_ b) in
    let b := appendInput
               (valueInput ("IF" +:+ Js.numberToString (elseifCount_ b))
                  CONTROLS_IF_MSG_ELSEIF (valueConnection_ clauseBlock)) b in
    let b := appendInput
               (statementInput ("DO" +:+ Js.numberToString (elseifCount_ b))
                  CONTROLS_IF_MSG_THEN (statementConnection_ clauseBlock))
               b in
    next b
  else if String.eqb (type clauseBlock) "controls_if_else" then
    let b := mkBlock (inputList b) (elseifCount_ b)
               (Js.increment (elseCount_ b)) in
    let b := appendInput
               (statementInput "ELSE" CONTROLS_IF_MSG_ELSE
                  (statementConnection_ clauseBlock)) b in
    next b
  else None.

(** [compose]. *)
Definition compose (containerBlock : Container) (b : Block)
    : option Block :=
  match (if Js.truthy (elseCount_ b) then removeInput "ELSE" b
         else Some b) with
  | None => None
  | Some b =>
      let b := mkBlock (inputList b) (elseifCount_ b) (Js.Int 0) in
      match removeClauses (length (inputList b)) (elseifCount_ b) b with
      | None => None
      | Some b =>
          let b := mkBlock (inputList b) (Js.Int 0) (elseCount_ b) in
          match STACK containerBlock with
          | Some clauseBlock => composeClauses clauseBlock b
          | None => Some b
          end
      end
  end.

(** The types of the blocks stacked under [clauseBlock], itself
    included, following the next connections. *)
Fixpoint stackTypes (clauseBlock : MutatorBlock) : list string :=
  type clauseBlock ::
  match nextConnection clauseBlock with
  | Some (Some nextBlock) => stackTypes nextBlock
  | _ => []
  end.

Definition clauseTypes (c : Container) : list string :=
  match STACK c with
  | Some clauseBlock => stackTypes clauseBlock
  | None => []
  end.

(** The names and kinds of the inputs, in order. *)
Definition shapeOf (i : Input) : string * InputType := (name i, kind i).

Definition shape (b : Block) : list (string * InputType) :=
  map shapeOf (inputList b).

(** The optional inputs for clauses [i], [i+1], ... ([k] of them). *)
Fixpoint clauseShape (k : nat) (i : Z) : list (string * InputType) :=
  match k with
  | S k' => (IF i, INPUT_VALUE) :: (DO i, NEXT_STATEMENT)
            :: clauseShape k' (i + 1)
  | O => []
  end.

Definition elseShape (e : Js.number) : list (string * InputType) :=
  if Js.truthy e then [("ELSE", NEXT_STATEMENT)] else [].

(** The inputs a block with the given counters carries. *)
Definition shapeFor (n e : Js.number) : list (string * InputType) :=
  [(IF 0, INPUT_VALUE); (DO 0, NEXT_STATEMENT)]
  ++ clauseShape (Js.upTo n) 1 ++ elseShape e.

(** The inputs of the block agree with its counters: they are the
    inputs that [init] and the loop of [domToMutation] make for them,
    so the loop ends. *)
Definition consistent (b : Block) : Prop :=
  Js.endless (elseifCount_ b) = false
  /\ shape b = shapeFor (elseifCount_ b) (elseCount_ b).

(** No input of [l] is named like clause [j]. *)
Definition clear (j : Z) (l : list Input) : Prop :=
  Forall (fun i => name i <> IF j /\ name i <> DO j) l.

(** The inputs of clauses [i], [i+1], ... ([k] of them) with the given
    labels and nothing plugged in. *)
Fixpoint clauseInputs (k : nat) (i : Z) : list Input :=
  match k with
  | S k' => valueInput (IF i) CONTROLS_IF_MSG_ELSEIF None
            :: statementInput (DO i) CONTROLS_IF_MSG_THEN None
            :: clauseInputs k' (i + 1)
  | O => []
  end.

Definition elseInputs (e : Js.number) : list Input :=
  if Js.truthy e then [statementInput "ELSE" CONTROLS_IF_MSG_ELSE None]
  else [].

(** A stack of [k] new [controls_if_elseif] blocks on top of [tail]. *)
Fixpoint elseifStack (k : nat) (tail : option MutatorBlock)
    : option MutatorBlock :=
  match k with
  | S k' => Some (mkMutatorBlock "controls_if_elseif" None None
                    (Some (elseifStack k' tail)))
  | O => tail
  end.

(** Sample blocks. An if/else block and an if/else-if/else block as
    [compose] leaves them; the mutation elements of saved files; the
    blocks [domToMutation] makes of them. *)
Definition ifElse : Block :=
  mkBlock [valueInput (IF 0) CONTROLS_IF_MSG_IF None;
           statementInput (DO 0) CONTROLS_IF_MSG_THEN None;
           statementInput "ELSE" CONTROLS_IF_MSG_ELSE None]
          (Js.Int 0) (Js.Int 1).

Definition ifElseifElse : Block :=
  mkBlock [valueInput (IF 0) CONTROLS_IF_MSG_IF None;
           statementInput (DO 0) CONTROLS_IF_MSG_THEN None;
           valueInput (IF 1) CONTROLS_IF_MSG_ELSEIF None;
           statementInput (DO 1) CONTROLS_IF_MSG_THEN None;
           statementInput "ELSE" CONTROLS_IF_MSG_ELSE None]
          (Js.Int 1) (Js.Int 1).

Definition elseMutation : Element :=
  setAttribute "else" "1" (createElement "mutation").

Definition elseifElseMutation (elseif else_ : string) : Element :=
  setAttribute "else" else_
    (setAttribute "elseif" elseif (createElement "mutation")).

Definition loadedIfElse : Block :=
  mkBlock [valueInput (IF 0) CONTROLS_IF_MSG_IF None;
           statementInput (DO 0) CONTROLS_IF_MSG_THEN None;
           statementInput "ELSE" CONTROLS_IF_MSG_ELSE None]
          Js.NaN (Js.Int 1).

Definition loadedTwoElse : Block :=
  mkBlock [valueInput (IF 0) CONTROLS_IF_MSG_IF None;
           statementInput (DO 0) CONTROLS_IF_MSG_THEN None;
           valueInput (IF 1) CONTROLS_IF_MSG_ELSEIF None;
           statementInput (DO 1) CONTROLS_IF_MSG_THEN None;
           statementInput "ELSE" CONTROLS_IF_MSG_ELSE None]
          (Js.Int 1) (Js.Int 2).

(** A saved file with an else-if count of minus 10^21, and the block
    made of it. *)
Definition hugeMutation : Element :=
  setAttribute "elseif" "-1000000000000000000000" (createElement "mutation").

Definition loadedHuge : Block :=
  mkBlock [valueInput (IF 0) CONTROLS_IF_MSG_IF None;
           statementInput (DO 0) CONTROLS_IF_MSG_THEN None]
          (Js.Int (- 10 ^ 21)) Js.NaN.

(** The two round trips as they are worded: both counters come back
    exactly. *)
Definition recountAsWorded : Prop :=
  forall b,
    consistent b ->
    exists c b',
      decompose b = Some c
      /\ compose c b = Some b'
      /\ elseifCount_ b' = elseifCount_ b
      /\ elseCount_ b' = elseCount_ b.

Definition roundTripAsWorded : Prop :=
  forall b,
    (mutationToDom b = None <->
     elseifCount_ b = Js.Int 0 /\ elseCount_ b = Js.Int 0)
    /\ forall xml,
         mutationToDom b = Some xml ->
         exists b',
           domToMutation xml init = Some b'
           /\ elseifCount_ b' = elseifCount_ b
           /\ elseCount_ b' = elseCount_ b.

(** [while (clauseBlock)] entered with a possibly empty stack. *)
Definition composeStack (stack : option MutatorBlock) (b : Block)
    : option Block :=
  match stack with
  | Some clauseBlock => composeClauses clauseBlock b
  | None => Some b
  end.


(** *** The rest of the block: tooltip and [saveConnections] *)

(** The tooltips [init] chooses from; [noTooltip] is the final
    [return ''] of the tooltip function. *)
Inductive Tooltip : Type :=
| CONTROLS_IF_TOOLTIP_1
| CONTROLS_IF_TOOLTIP_2
| CONTROLS_IF_TOOLTIP_3
| CONTROLS_IF_TOOLTIP_4
| noTooltip.

(** The tooltip function [init] installs. *)
Definition tooltip (thisBlock : Block) : Tooltip :=
  let elseif := Js.truthy (elseifCount_ thisBlock) in
  let else_ := Js.truthy (elseCount_ thisBlock) in
  if negb elseif && negb else_ then CONTROLS_IF_TOOLTIP_1
  else if negb elseif && else_ then CONTROLS_IF_TOOLTIP_2
  else if elseif && negb else_ then CONTROLS_IF_TOOLTIP_3
  else if elseif && else_ then CONTROLS_IF_TOOLTIP_4
  else noTooltip.

(** Modelled from the spec: [getInput] of the block class, not in these
    files. The first input of that name, or [null]. *)
Definition getInput (n : string) (b : Block) : option Input :=
  List.find (fun i => String.eqb (name i) n) (inputList b).

(** [input && input.connection.targetConnection]. *)
Definition targetOf (input : option Input) : option Connection :=
  match input with
  | Some i => targetConnection i
  | None => None
  end.

(** The [while (clauseBlock)] loop of [saveConnections], with [i] the
    running clause index; the result is the stack with the connections
    stored on its blocks, [None] when an unknown block type throws. *)
Fixpoint saveClauses (clauseBlock : MutatorBlock) (i : Z) (b : Block)
    : option MutatorBlock :=
  let next (i : Z) : option (option (option MutatorBlock)) :=
    match nextConnection clauseBlock with
    | Some (Some nextBlock) =>
        match saveClauses nextBlock i b with
        | Some saved => Some (Some (Some saved))
        | None => None
        end
    | other => Some other
    end in
  if String.eqb (type clauseBlock) "controls_if_elseif" then
    let inputIf := getInput (IF i) b in
    let inputDo := getInput (DO i) b in
    match next (i + 1)%Z with
    | Some nc =>
        Some (mkMutatorBlock (type clauseBlock) (targetOf inputIf)
                (targetOf inputDo) nc)
    | None => None
    end
  else if String.eqb (type clauseBlock) "controls_if_else" then
    let inputDo := getInput "ELSE" b in
    match next i with
    | Some nc =>
        Some (mkMutatorBlock (type clauseBlock)
                (valueConnection_ clauseBlock) (targetOf inputDo) nc)
    | None => None
    end
  else None.

(** [saveConnections]. *)
Definition saveConnections (containerBlock : Container) (b : Block)
    : option Container :=
  match STACK containerBlock with
  | Some clauseBlock =>
      match saveClauses clauseBlock 1 b with
      | Some saved => Some {| STACK := Some saved |}
      | None => None
      end
  | None => Some containerBlock
  end.

(** What a user sees of an input: its name, its kind and the child
    plugged into it. *)
Definition view (i : Input) : string * InputType * option Connection :=
  (name i, kind i, targetConnection i).

(** A stack of [controls_if_elseif] blocks carrying the given saved
    connections, on top of [tail]. *)
Fixpoint clauseStack (saved : list (option Connection * option Connection))
    (tail : option MutatorBlock) : option MutatorBlock :=
  match saved with
  | (v, s) :: rest =>
      Some (mkMutatorBlock "controls_if_elseif" v s
              (Some (clauseStack rest tail)))
  | [] => tail
  end.

(** A [controls_if_else] block carrying a saved connection. *)
Definition elseBlock (s : option Connection) : MutatorBlock :=
  mkMutatorBlock "controls_if_else" None s None.

(** The inputs [compose] appends for a stack of clauses. *)
Fixpoint connectedClauses
    (saved : list (option Connection * option Connection)) (i : Z)
    : list Input :=
  match saved with
  | (v, s) :: rest =>
      valueInput (IF i) CONTROLS_IF_MSG_ELSEIF v
      :: statementInput (DO i) CONTROLS_IF_MSG_THEN s
      :: connectedClauses rest (i + 1)
  | [] => []
  end.

(** The connections plugged into a list of clause inputs, pairwise. *)
Fixpoint pluggedInto (l : list Input)
    : list (option Connection * option Connection) :=
  match l with
  | a :: d :: rest => (targetConnection a, targetConnection d)
                      :: pluggedInto rest
  | _ => []
  end.

(** Whether a block type is one of the two clause types. *)
Definition knownType (t : string) : bool :=
  String.eqb t "controls_if_elseif" || String.eqb t "controls_if_else".

(** The connections the blocks of a mutator stack carry, in order, and
    the connections plugged into a list of inputs. *)
Definition carried
    (saved : list (option Connection * option Connection))
    (els : option (option Connection)) : list Connection :=
  flat_map (fun p => option_list (fst p) ++ option_list (snd p)) saved
  ++ match els with
     | Some s => option_list s
     | None => []
     end.

Definition plugged (l : list Input) : list Connection :=
  omap targetConnection l.

(** [saveConnections]'s loop entered with a possibly empty stack. *)
Definition saveStack (stack : option MutatorBlock) (i : Z) (b : Block)
    : option (option MutatorBlock) :=
  match stack with
  | Some clauseBlock => option_map Some (saveClauses clauseBlock i b)
  | None => Some None
  end.

(** The [ELSE] input [compose] appends for a [controls_if_else] block
    carrying the saved connection [s], if there is such a block. *)
Definition connectedElse (els : option (option Connection)) : list Input :=
  match els with
  | Some s => [statementInput "ELSE" CONTROLS_IF_MSG_ELSE s]
  | None => []
  end.

End ControlsIf.

(** ** More of the key handler: the remaining keys *)
Module Keys.
Import Dom Blockly.

Definition isCopyKey (e : KeyEvent) : bool :=
  modifierOnly e && (keyCode e =? 67)%Z.

(** A key that reaches the copy or the cut branch. *)
Definition copiesSelection (e : KeyEvent) (w : World) : bool :=
  negb (ignored e w) && modifierOnly e
  && ((keyCode e =? 67)%Z || (keyCode e =? 88)%Z)
  && match selected w with
     | Some b => isDeletable b && isMovable b
     | None => false
     end.

(** The calls a run appended to the log. *)
Definition newCalls (before after : World) : list Call :=
  drop (length (calls before)) (calls after).

(** The selected block when it is deletable and movable. *)
Definition copyable (w : World) : option Block :=
  match selected w with
  | Some b => if isDeletable b && isMovable b then Some b else None
  | None => None
  end.

(** The calls of the common delete path for block [b]. *)
Definition deleteCalls (w : World) (b : Block) : list Call :=
  [Events_setGroup true] ++ chaff (mainWorkspace w)
  ++ [dispose b (negb (isDragFree (dragMode_ w))) true]
  ++ match highlightedConnection_ w with
     | Some c => [unhighlight c]
     | None => []
     end
  ++ [Events_setGroup false].

(** The calls of the paste branch; without a clipboard source the
    handler throws after opening the group. *)
Definition pasteCalls (w : World) : list Call :=
  match clipboardXml_ w with
  | Some xmlBlock =>
      Events_setGroup true ::
      match clipboardSource_ w with
      | Some ws => [paste ws (Some xmlBlock); Events_setGroup false]
      | None => []
      end
  | None => []
  end.

(** The calls the handler makes, by key: a summary used to reason about
    every key at once. *)
Definition keyCalls `{XmlApi} (e : KeyEvent) (w : World) : list Call :=
  let mw := mainWorkspace w in
  if ignored e w then []
  else if (keyCode e =? 27)%Z then chaff mw
  else if isDeleteKey e then
    preventDefault ::
    match selected w with
    | Some b => if isDeletable b then deleteCalls w b else []
    | None => []
    end
  else if modifierOnly e then
    match copyable w with
    | Some b => if (keyCode e =? 67)%Z then chaff mw else []
    | None => []
    end
    ++ (if (keyCode e =? 86)%Z then pasteCalls w
        else if (keyCode e =? 90)%Z then
          chaff mw ++ [undo (wsId mw) (shiftKey e)]
        else if (keyCode e =? 89)%Z then chaff mw ++ [undo (wsId mw) true]
        else [])
    ++ match copyable w with
       | Some b =>
           if negb (keyCode e =? 67)%Z && (keyCode e =? 88)%Z
           then deleteCalls w b else []
       | None => []
       end
  else if shiftKey e && ctrlKey e then
    match copyable w with
    | Some b =>
        if (keyCode e =? 67)%Z then [saveToClipCache (blockToDom b)] else []
    | None => []
    end
    ++ (if (keyCode e =? 86)%Z then [domToBlockFromClipCache (wsId mw)]
        else [])
  else [].

(** Whether the handler reaches the common delete path. *)
Definition disposes (e : KeyEvent) (w : World) : bool :=
  negb (ignored e w)
  && (isDeleteKey e
      && match selected w with
         | Some b => isDeletable b
         | None => false
         end
      || isCutKey e
         && match copyable w with Some _ => true | None => false end).

(** The world the handler leaves, by key. *)
Definition keyWorld `{XmlApi} (e : KeyEvent) (w : World) : World :=
  let copied :=
    match selected w with
    | Some b =>
        if copiesSelection e w
        then Some (clipboardXml_ (exec (copy_ b) w), Some (workspace b))
        else None
    | None => None
    end in
  mkWorld (mainWorkspace w) (selected w)
    (if disposes e w then None else highlightedConnection_ w)
    (match copied with Some c => fst c | None => clipboardXml_ w end)
    (match copied with Some c => snd c | None => clipboardSource_ w end)
    (dragMode_ w) (calls w ++ keyCalls e w).

(** Event groups in a call sequence: [dispose] and [paste] only inside a
    group, no nested group, and (at the end) no group left open.
    [inGroup] tells whether a group is open at the start. *)
Fixpoint grouped (inGroup : bool) (l : list Call) : bool :=
  match l with
  | Events_setGroup true :: rest => negb inGroup && grouped true rest
  | Events_setGroup false :: rest => inGroup && grouped false rest
  | dispose _ _ _ :: rest => inGroup && grouped inGroup rest
  | paste _ _ :: rest => inGroup && grouped inGroup rest
  | _ :: rest => grouped inGroup rest
  | [] => negb inGroup
  end.

End Keys.

(** ** More of the block registry: what a run leaves behind *)
Module Definitions.
Import Registry.

(** The type name an element is registered under, if any. *)
Definition typename (elem : JsonDef) : option string :=
  match type elem with
  | Some t => if String.eqb t "" then None else Some t
  | None => None
  end.

(** The last element of [elems] registered under [t]. *)
Fixpoint lastTyped (t : string) (elems : list JsonDef) : option JsonDef :=
  match elems with
  | elem :: rest =>
      match lastTyped t rest with
      | Some later => Some later
      | None =>
          match typename elem with
          | Some t' => if String.eqb t' t then Some elem else None
          | None => None
          end
      end
  | [] => None
  end.

(** An assignment to the name makes an own property: every name but
    [__proto__], and [__proto__] too when it is an own property. *)
Definition settable (st : State) (t : string) : bool :=
  negb (String.eqb t "__proto__")
  || bool_decide (is_Some (Blocks st !! t)).

(** The warnings of a run in which every type name is already taken. *)
Fixpoint rerunWarnings (i : nat) (elems : list JsonDef) : list Warning :=
  match elems with
  | elem :: rest =>
      match typename elem with
      | Some t => overwrites i t
      | None => missingType i
      end :: rerunWarnings (S i) rest
  | [] => []
  end.

End Definitions.

(** ** Touch events through a checked binding *)
Module Touches.
Import Binding.

(** The events whose default action was stopped, in call order. *)
Fixpoint preventions (tr : list Step) : list Event :=
  match tr with
  | prevented e :: tr => e :: preventions tr
  | _ :: tr => preventions tr
  | [] => []
  end.

(** Whether the handler was called. *)
Definition invokes (steps : list Step) : bool :=
  match invocations steps with
  | [] => false
  | _ :: _ => true
  end.

Section Run.
Context {T : Type}.
Variable shouldHandleEvent : Event -> T -> bool * T.
Variable setClientFromTouch : Event -> Event.
Variable thisObject : option Receiver.
Variable func : option Receiver -> Event -> T -> T.
Variable opt_noCaptureIdentifier : bool.

(** The browser delivers the touch events [es], one after the other, to
    the [touchWrapFunc] of one binding. *)
Definition touchEvents (es : list Event) (s : Env) : Env :=
  fold_left
    (fun s e =>
       touchWrapFunc shouldHandleEvent setClientFromTouch thisObject func
         opt_noCaptureIdentifier e s)
    es s.

End Run.

End Touches.

(** ** Registering and removing listeners: [bindEvent_], [unbindEvent_] *)
Module Listeners.
Import Binding.

(** A function object. The two closures a binder call creates are told
    apart from those of every other call by the number of the call. *)
Record Closure : Type := mkClosure { madeBy : nat; wrapper : Wrapper }.

(** An entry of a node's event listener list, and of [bindData]:
    [[node, name, func]]. The capture flag is always [false]. *)
Definition Listener : Type := Node * string * Closure.

Definition callback (l : Listener) : Closure := snd l.

#[global] Instance Wrapper_eq_dec : EqDecision Wrapper.
Proof. solve_decision. Defined.

#[global] Instance Closure_eq_dec : EqDecision Closure.
Proof. solve_decision. Defined.

(** The event listener lists of the page, in registration order, and
    the number of binder calls made so far. *)
Record Page : Type := mkPage {
  listeners : list Listener;
  binds : nat
}.

(** [node.addEventListener(name, func, false)] as the DOM standard has
    it: a listener already in the list is not added again. *)
Definition addEventListener (l : Listener) (p : Page) : Page :=
  if decide (l ∈ listeners p) then p
  else mkPage (listeners p ++ [l]) (binds p).

(** [node.removeEventListener(name, func, false)] as the DOM standard
    has it: the first matching listener is removed, if there is one. *)
Fixpoint removeFirst (l : Listener) (ls : list Listener) : list Listener :=
  match ls with
  | l' :: rest => if decide (l' = l) then rest else l' :: removeFirst l rest
  | [] => []
  end.

Definition removeEventListener (l : Listener) (p : Page) : Page :=
  mkPage (removeFirst l (listeners p)) (binds p).

Section Bind.
Variable TOUCH_MAP : gmap string (list string).

(** [for (var i = 0, eventName; eventName = TOUCH_MAP[name][i]; i++)]
    of [bindEvent_]: the loop ends at the first empty name. *)
Fixpoint addTouchListeners (node : Node) (touchWrapFunc : Closure)
    (names : list string) (bindData : list Listener) (p : Page)
    : list Listener * Page :=
  match names with
  | eventName :: rest =>
      if String.eqb eventName "" then (bindData, p)
      else
        let p := addEventListener (node, eventName, touchWrapFunc) p in
        addTouchListeners node touchWrapFunc rest
          (bindData ++ [(node, eventName, touchWrapFunc)]) p
  | [] => (bindData, p)
  end.

(** [bindEvent_]: the listeners it registers and the [bindData] it
    returns. *)
Definition bindEvent_ (node : Node) (name : string) (p : Page)
    : list Listener * Page :=
  let wrapFunc := mkClosure (binds p) wrapFuncRef in
  let p := mkPage (listeners p) (S (binds p)) in
  let p := addEventListener (node, name, wrapFunc) p in
  let bindData := [(node, name, wrapFunc)] in
  match TOUCH_MAP !! name with
  | Some names =>
      let touchWrapFunc := mkClosure (madeBy wrapFunc) touchWrapFuncRef in
      addTouchListeners node touchWrapFunc names bindData p
  | None => (bindData, p)
  end.

End Bind.

(** [while (bindData.length)] of [unbindEvent_]: [stack] is [bindData]
    from its last entry to its first, the order [pop] takes them in;
    [func] is the hoisted variable, [None] while it is undefined. *)
Fixpoint popAll (stack : list Listener) (func : option Closure) (p : Page)
    : option Closure * Page :=
  match stack with
  | bindDatum :: rest =>
      popAll rest (Some (callback bindDatum))
             (removeEventListener bindDatum p)
  | [] => (func, p)
  end.

(** [unbindEvent_]: the function returned, [bindData] as the loop
    leaves it, and the page. *)
Definition unbindEvent_ (bindData : list Listener) (p : Page)
    : option Closure * list Listener * Page :=
  let '(func, p) := popAll (reverse bindData) None p in
  (func, [], p).

(** Every listener on the page was made by an earlier binder call. *)
Definition settled (p : Page) : Prop :=
  Forall (fun l => madeBy (callback l) < binds p) (listeners p).

End Listeners.

(** ** Sizing the SVG image: [svgSize], [svgResize] *)
Module Svg.

(** The container of the SVG image: [div.offsetWidth] and
    [div.offsetHeight]. *)
Record Div : Type := { offsetWidth : Z; offsetHeight : Z }.

(** The SVG image: its parent node ([None] once it is off the page),
    the two cached sizes ([None] while undefined) and its attributes. *)
Record SvgElement : Type := mkSvg {
  parentNode : option Div;
  cachedWidth_ : option Z;
  cachedHeight_ : option Z;
  attributes : gmap string string
}.

(** A workspace with its [options.parentWorkspace]. *)
#[local] Unset Elimination Schemes.
Inductive WorkspaceSvg : Type :=
  mkWorkspace { id : nat; parentWorkspace : option WorkspaceSvg }.
#[local] Set Elimination Schemes.

Inductive Call : Type :=
| setAttribute (name value : string)
| resize (workspace : nat).

(** [svgSize]. *)
Definition svgSize (svg : SvgElement) : option Z * option Z :=
  (cachedWidth_ svg, cachedHeight_ svg).

(** [while (mainWorkspace.options.parentWorkspace)]. *)
Fixpoint root (workspace : WorkspaceSvg) : WorkspaceSvg :=
  match parentWorkspace workspace with
  | Some parent => root parent
  | None => workspace
  end.

(** [cached != size], where [cached] may be undefined. *)
Definition differs (cached : option Z) (size : Z) : bool :=
  match cached with
  | Some c => negb (c =? size)%Z
  | None => true
  end.

(** [size + 'px']. *)
Definition px (size : Z) : string := Js.toString size +:+ "px".

(** [svgResize]. [svg] is the object [mainWorkspace.getParentSvg()]
    returns; the result is that object after the call, with the calls
    made on it and on the workspace. *)
Definition svgResize (workspace : WorkspaceSvg) (svg : SvgElement)
    : SvgElement * list Call :=
  let mainWorkspace := root workspace in
  match parentNode svg with
  | None => (svg, [])
  | Some div =>
      let width := offsetWidth div in
      let height := offsetHeight div in
      let '(svg, calls) :=
        if differs (cachedWidth_ svg) width
        then (mkSvg (parentNode svg) (Some width) (cachedHeight_ svg)
                (<["width" := px width]> (attributes svg)),
              [setAttribute "width" (px width)])
        else (svg, []) in
      let '(svg, calls) :=
        if differs (cachedHeight_ svg) height
        then (mkSvg (parentNode svg) (cachedWidth_ svg) (Some height)
                (<["height" := px height]> (attributes svg)),
              calls ++ [setAttribute "height" (px height)])
        else (svg, calls) in
      (svg, calls ++ [resize (id mainWorkspace)])
  end.

(** The cached sizes are those written to the attributes. *)
Definition cacheAgrees (svg : SvgElement) : Prop :=
  (forall w, cachedWidth_ svg = Some w ->
             attributes svg !! "width" = Some (px w))
  /\ (forall h, cachedHeight_ svg = Some h ->
                attributes svg !! "height" = Some (px h)).

(** [top] is [workspace] or one of its parent workspaces. *)
Inductive above (top : WorkspaceSvg) : WorkspaceSvg -> Prop :=
| above_self : above top top
| above_parent workspace parent :
    parentWorkspace workspace = Some parent ->
    above top parent -> above top workspace.

End Svg.

(** ** [controls_flow_statements]: the warning outside loops *)
Module FlowStatements.

(** Modelled from the spec: [getSurroundParent] belongs to the block
    class, which is not in these files. A block has its type, its
    workspace ([None] once it is deleted) and the block that surrounds
    it, if any. *)
#[local] Unset Elimination Schemes.
Inductive Block : Type :=
  mkBlock {
    type : string;
    workspace : option nat;
    getSurroundParent : option Block
  }.
#[local] Set Elimination Schemes.

(** The argument of [setWarningText]: [null] or the warning. *)
Inductive WarningText : Type :=
| null
| LANG_CONTROLS_FLOW_STATEMENTS_WARNING.

(** The test on [block.type] in the loop of [onchange]. *)
Definition isLoop (t : string) : bool :=
  String.eqb t "controls_repeat"
  || String.eqb t "controls_for"
  || String.eqb t "controls_forEach"
  || String.eqb t "controls_repeat_ext"
  || String.eqb t "controls_whileUntil".

(** The [do ... while (block)] loop of [onchange]: the value of
    [legal] when it ends. *)
Fixpoint legal (block : Block) : bool :=
  if isLoop (type block) then true
  else
    match getSurroundParent block with
    | Some block => legal block
    | None => false
    end.

(** [onchange]: the text passed to [setWarningText], [None] when it is
    not called. *)
Definition onchange (this : Block) : option WarningText :=
  match workspace this with
  | None => None
  | Some _ =>
      if legal this then Some null
      else Some LANG_CONTROLS_FLOW_STATEMENTS_WARNING
  end.

(** [outer] is [block] or surrounds it, directly or not. *)
Inductive within (outer : Block) : Block -> Prop :=
| within_self : within outer outer
| within_parent block parent :
    getSurroundParent block = Some parent ->
    within outer parent -> within outer block.

End FlowStatements.

(** * Properties of the JavaScript number conversions *)
Section JsFacts.
Import Js.

Lemma digitsPrefix_string_of_uint d :
  digitsPrefix (NilEmpty.string_of_uint d) = d.
Proof. induction d; simpl; rewrite ?IHd; reflexivity. Qed.

Lemma to_uint_digits p :
  NilZero.string_of_uint (Pos.to_uint p)
  = NilEmpty.string_of_uint (Pos.to_uint p)
  /\ Pos.to_uint p <> Decimal.Nil.
Proof.
  assert (Hne : Pos.to_uint p <> Decimal.Nil).
  { intros Hnil. pose proof (DecimalPos.Unsigned.of_to p) as Hp.
    rewrite Hnil in Hp. discriminate. }
  split; [|exact Hne].
  destruct (Pos.to_uint p); [contradiction|..]; reflexivity.
Qed.

Lemma readDigits_pos p :
  readDigits (NilEmpty.string_of_uint (Pos.to_uint p)) = Some (Z.pos p).
Proof.
  unfold readDigits. rewrite digitsPrefix_string_of_uint.
  destruct (to_uint_digits p) as [_ Hne].
  pose proof (DecimalPos.Unsigned.of_to p) as Hp.
  unfold N.of_uint.
  destruct (Pos.to_uint p) eqn:Hd; [contradiction|..];
    rewrite Hp; reflexivity.
Qed.

(** The first character of a positive numeral is a digit: it is
    neither white space nor a sign. *)
Lemma string_of_uint_head d :
  d <> Decimal.Nil ->
  exists c s, NilEmpty.string_of_uint d = String c s
              /\ isWhiteSpace c = false
              /\ c <> "-"%char /\ c <> "+"%char.
Proof.
  destruct d; [contradiction|..]; intros _; simpl;
    eexists _, _; (split; [reflexivity|]);
    (split; [reflexivity|]); split; discriminate.
Qed.

Lemma mathInt_unsigned c s :
  isWhiteSpace c = false -> c <> "-"%char -> c <> "+"%char ->
  mathInt (String c s) = readDigits (String c s).
Proof.
  intros Hw Hm Hp. unfold mathInt. simpl. rewrite Hw.
  destruct (Ascii.eqb_spec c "-"); [contradiction|].
  destruct (Ascii.eqb_spec c "+"); [contradiction|].
  destruct c as [[|] [|] [|] [|] [|] [|] [|] [|]];
    try reflexivity; congruence.
Qed.

(** Reading back a decimal numeral. *)
Lemma mathInt_toString z : mathInt (toString z) = Some z.
Proof.
  unfold toString. destruct z as [|p|p]; simpl.
  - reflexivity.
  - destruct (to_uint_digits p) as [-> Hne].
    destruct (string_of_uint_head _ Hne) as (c & s & Hs & Hw & Hm & Hp).
    rewrite <- (readDigits_pos p), Hs.
    apply mathInt_unsigned; assumption.
  - destruct (to_uint_digits p) as [-> Hne].
    unfold mathInt. simpl.
    rewrite readDigits_pos. reflexivity.
Qed.

(** Below 2^53 every integer is a double. *)
Lemma nearest_safe z : (Z.abs z < safe)%Z -> nearest z = Int z.
Proof.
  intros Hz. unfold nearest.
  destruct (Z.ltb_spec (Z.abs z) safe); [reflexivity | lia].
Qed.

Lemma numberToString_safe z :
  (Z.abs z < safe)%Z -> numberToString (Int z) = toString z.
Proof.
  intros Hz. unfold numberToString.
  destruct (Z.ltb_spec (Z.abs z) safe); [reflexivity | lia].
Qed.

(** Reading back a printed integer below 2^53. *)
Lemma parseInt_toString z :
  (Z.abs z < safe)%Z -> parseInt (Some (toString z)) = Int z.
Proof.
  intros Hz. unfold parseInt, parseIntString.
  rewrite mathInt_toString. apply nearest_safe, Hz.
Qed.

Lemma parseInt_null : parseInt None = NaN.
Proof. reflexivity. Qed.

Lemma toString_inj a b : toString a = toString b -> a = b.
Proof.
  intros Heq.
  assert (Hp : mathInt (toString a) = mathInt (toString b))
    by (rewrite Heq; reflexivity).
  rewrite !mathInt_toString in Hp. congruence.
Qed.

Lemma increment_safe z :
  (Z.abs (z + 1) < safe)%Z -> increment (Int z) = Int (z + 1).
Proof. apply nearest_safe. Qed.

Lemma decrement_safe z :
  (Z.abs (z - 1) < safe)%Z -> decrement (Int z) = Int (z - 1).
Proof. apply nearest_safe. Qed.

End JsFacts.

(** * Properties of the clipboard and of the key handler *)
Section ClipboardFacts.
Import Dom Blockly.
Context `{XmlApi}.

Ltac run :=
  unfold exec, completes, onKeyDown_, modifierKeys, shiftCtrlKeys,
    deleteSelected, duplicate_, paste_clipboard_into, hideChaff, copy_,
    set_clipboardXml_, set_clipboardSource_, set_highlightedConnection_,
    call, bind, ret, gets, modify, throw; simpl.

(** What [copy_] leaves behind: only the two clipboard globals move. *)
Lemma copy_frame b w :
  copy_ b w =
  (Normal tt,
   mkWorld (mainWorkspace w) (selected w) (highlightedConnection_ w)
     (clipboardXml_ (exec (copy_ b) w)) (Some (workspace b))
     (dragMode_ w) (calls w)).
Proof. run. reflexivity. Qed.

Lemma copy_sets_xml b w : is_Some (clipboardXml_ (exec (copy_ b) w)).
Proof. run. eauto. Qed.

(** [hideChaff()] only logs its calls. *)
Lemma hideChaff_run w :
  hideChaff false w =
  (Normal tt,
   mkWorld (mainWorkspace w) (selected w) (highlightedConnection_ w)
     (clipboardXml_ w) (clipboardSource_ w) (dragMode_ w)
     (calls w ++ chaff (mainWorkspace w))).
Proof.
  run. unfold chaff.
  destruct (toolbox_ (mainWorkspace w)) as [[[[[|]]|]]|]; simpl;
    rewrite <- ?app_assoc; reflexivity.
Qed.

(** The common delete path on a world with a selected block. *)
Lemma deleteSelected_run w b :
  selected w = Some b ->
  deleteSelected w =
  (Normal tt,
   mkWorld (mainWorkspace w) (selected w) None
     (clipboardXml_ w) (clipboardSource_ w) (dragMode_ w)
     (calls w ++ [Events_setGroup true] ++ chaff (mainWorkspace w)
        ++ [dispose b (negb (isDragFree (dragMode_ w))) true]
        ++ match highlightedConnection_ w with
           | Some c => [unhighlight c]
           | None => []
           end
        ++ [Events_setGroup false])).
Proof.
  intros Hsel. unfold deleteSelected.
  unfold bind at 1. unfold call at 1, modify at 1.
  unfold bind at 1. rewrite hideChaff_run. run. rewrite Hsel. simpl.
  destruct (highlightedConnection_ w); simpl;
    repeat rewrite <- app_assoc; reflexivity.
Qed.

Lemma deleteSelected_exec w b :
  selected w = Some b ->
  completes deleteSelected w = true
  /\ exec deleteSelected w =
     mkWorld (mainWorkspace w) (selected w) None
       (clipboardXml_ w) (clipboardSource_ w) (dragMode_ w)
       (calls w ++ [Events_setGroup true] ++ chaff (mainWorkspace w)
          ++ [dispose b (negb (isDragFree (dragMode_ w))) true]
          ++ match highlightedConnection_ w with
             | Some c => [unhighlight c]
             | None => []
             end
          ++ [Events_setGroup false]).
Proof.
  intros Hsel. unfold completes, exec.
  rewrite (deleteSelected_run w b Hsel). split; reflexivity.
Qed.

(** C4. [copy_] stores on the clipboard the block's DOM serialisation,
    without its [next] chain exactly when the drag mode is not
    [DRAG_FREE], with attribute [x] set to the surface x coordinate
    (negated on an RTL block) and attribute [y] to the y coordinate, and
    it sets the clipboard source to the block's workspace; nothing else
    moves. *)
Theorem copy_fills_clipboard b w :
  exists xmlBlock,
    exec (copy_ b) w =
      mkWorld (mainWorkspace w) (selected w) (highlightedConnection_ w)
        (Some xmlBlock) (Some (workspace b)) (dragMode_ w) (calls w)
    /\ completes (copy_ b) w = true
    /\ let serialised :=
         if isDragFree (dragMode_ w) then blockToDom b
         else deleteNext (blockToDom b) in
       let xy := getRelativeToSurfaceXY b in
       localName xmlBlock = localName serialised
       /\ childNodes xmlBlock = childNodes serialised
       /\ getAttribute "x" xmlBlock
          = Some (ToString (if RTL b then (- x xy)%float else x xy))
       /\ getAttribute "y" xmlBlock = Some (ToString (y xy))
       /\ forall k, k <> "x" -> k <> "y" ->
            getAttribute k xmlBlock = getAttribute k serialised.
Proof.
  eexists. split; [run; reflexivity|]. split; [reflexivity|].
  unfold getAttribute, setAttribute. simpl.
  destruct (isDragFree (dragMode_ w)); simpl;
    (repeat split;
     [ rewrite lookup_insert_ne by discriminate; apply lookup_insert_eq
     | apply lookup_insert_eq
     | intros k Hx Hy; rewrite !lookup_insert_ne by congruence;
       reflexivity ]).
Qed.

(** C3. [duplicate_] pastes the copy of the block into the block's own
    workspace and leaves both clipboard globals, and every other global,
    as they were. *)
Theorem duplicate_restores_clipboard b w :
  completes (duplicate_ b) w = true
  /\ clipboardXml_ (exec (duplicate_ b) w) = clipboardXml_ w
  /\ clipboardSource_ (exec (duplicate_ b) w) = clipboardSource_ w
  /\ exists xmlBlock,
       clipboardXml_ (exec (copy_ b) w) = Some xmlBlock
       /\ exec (duplicate_ b) w =
            mkWorld (mainWorkspace w) (selected w)
              (highlightedConnection_ w) (clipboardXml_ w)
              (clipboardSource_ w) (dragMode_ w)
              (calls w ++ [paste (workspace b) (Some xmlBlock)]).
Proof.
  repeat split; try (run; reflexivity).
  eexists. split; run; reflexivity.
Qed.

(** C1, as amended. On a cut key (Alt, Ctrl or Cmd with X, no Shift):
    when the handler does not ignore the event and the selected block is
    deletable and movable, the handler is [copy_] of that block followed
    by the delete path, which disposes the block inside one event group;
    when no block is selected, or it is not deletable or not movable,
    the world is left as it was. *)
Theorem cut_key_copies_then_disposes e w :
  isCutKey e = true ->
  (forall b,
      ignored e w = false -> selected w = Some b ->
      isDeletable b = true -> isMovable b = true ->
      let w' := exec (onKeyDown_ e) w in
      completes (onKeyDown_ e) w = true
      /\ w' = exec deleteSelected (exec (copy_ b) w)
      /\ clipboardXml_ w' = clipboardXml_ (exec (copy_ b) w)
      /\ is_Some (clipboardXml_ w')
      /\ clipboardSource_ w' = Some (workspace b)
      /\ appended w w'
           ([Events_setGroup true] ++ chaff (mainWorkspace w)
            ++ [dispose b (negb (isDragFree (dragMode_ w))) true]
            ++ match highlightedConnection_ w with
               | Some c => [unhighlight c]
               | None => []
               end
            ++ [Events_setGroup false]))
  /\ (match selected w with
      | Some b => isDeletable b && isMovable b
      | None => false
      end = false ->
      completes (onKeyDown_ e) w = true /\ exec (onKeyDown_ e) w = w).
Proof.
  unfold isCutKey, modifierOnly, ignored. intros Hkey.
  apply andb_true_iff in Hkey as [Hmod Hx].
  apply Z.eqb_eq in Hx.
  split.
  - intros b Hign Hsel Hdel Hmov.
    assert (Hrun : onKeyDown_ e w = deleteSelected (exec (copy_ b) w)).
    { unfold onKeyDown_. unfold bind at 1, gets at 1. rewrite Hign.
      unfold bind at 1. rewrite Hx. simpl. rewrite Hmod.
      unfold modifierKeys. unfold bind at 1, gets at 1. rewrite Hsel.
      rewrite Hdel, Hmov, Hx. simpl.
      reflexivity. }
    assert (Hsel1 : selected (exec (copy_ b) w) = Some b)
      by (unfold exec; rewrite copy_frame; exact Hsel).
    destruct (deleteSelected_exec _ b Hsel1) as [Hc He].
    assert (Hw : exec (onKeyDown_ e) w
                 = exec deleteSelected (exec (copy_ b) w))
      by (unfold exec at 1 2; rewrite Hrun; reflexivity).
    cbv zeta. rewrite Hw.
    split; [unfold completes; rewrite Hrun; exact Hc|].
    split; [reflexivity|].
    rewrite He. unfold appended, exec. rewrite copy_frame. simpl.
    repeat split; try reflexivity. eauto.
  - intros Hno.
    assert (Hrun : onKeyDown_ e w = (Normal tt, w)).
    { unfold onKeyDown_, modifierKeys, bind, gets, ret.
      destruct (readOnly (mainWorkspace w) || isTargetInput e);
        [reflexivity|].
      rewrite Hx. simpl. rewrite Hmod.
      destruct (selected w); [rewrite Hno|]; reflexivity. }
    unfold completes, exec. rewrite Hrun. split; reflexivity.
Qed.

(** C2, as amended. On a paste key (Alt, Ctrl or Cmd with V, no Shift):
    when the handler does not ignore the event and the clipboard holds
    an element, that element is pasted into the clipboard source inside
    one event group and no global moves; when the clipboard is [null],
    the world is left as it was. *)
Theorem paste_key_pastes_into_clipboard_source e w :
  isPasteKey e = true ->
  (forall xmlBlock source,
      ignored e w = false ->
      clipboardXml_ w = Some xmlBlock ->
      clipboardSource_ w = Some source ->
      completes (onKeyDown_ e) w = true
      /\ exec (onKeyDown_ e) w =
           mkWorld (mainWorkspace w) (selected w)
             (highlightedConnection_ w) (clipboardXml_ w)
             (clipboardSource_ w) (dragMode_ w)
             (calls w ++ [Events_setGroup true;
                          paste source (Some xmlBlock);
                          Events_setGroup false]))
  /\ (clipboardXml_ w = None ->
      completes (onKeyDown_ e) w = true /\ exec (onKeyDown_ e) w = w).
Proof.
  unfold isPasteKey, modifierOnly, ignored. intros Hkey.
  apply andb_true_iff in Hkey as [Hmod Hv]. apply Z.eqb_eq in Hv.
  destruct w as [mw sel hc cx cs dm cl]. simpl.
  split.
  - intros xmlBlock source Hign -> ->.
    unfold completes, exec, onKeyDown_, modifierKeys, bind, gets, ret,
      call, modify. simpl.
    rewrite Hign, Hv. simpl. rewrite Hmod.
    destruct sel as [b|]; simpl;
      [destruct (isDeletable b && isMovable b)|];
      simpl; repeat rewrite <- app_assoc; split; reflexivity.
  - intros ->.
    unfold completes, exec, onKeyDown_, modifierKeys, bind, gets, ret.
    simpl.
    destruct (readOnly mw || isTargetInput e); [split; reflexivity|].
    rewrite Hv. simpl. rewrite Hmod.
    destruct sel as [b|]; simpl;
      [destruct (isDeletable b && isMovable b)|];
      simpl; split; reflexivity.
Qed.

(** C5. On Delete or Backspace the selected block is disposed exactly
    when the event is not ignored, a block is selected and it is
    deletable. The disposal then sits between [setGroup(true)] and
    [setGroup(false)], its heal flag is [dragMode_ != DRAG_FREE], a
    highlighted connection is unhighlighted after it and the global is
    reset to [null]. Otherwise no global moves and nothing is disposed. *)
Theorem delete_key_disposes_selected e w :
  isDeleteKey e = true ->
  let w' := exec (onKeyDown_ e) w in
  completes (onKeyDown_ e) w = true
  /\ match selected w with
     | Some b =>
         if negb (ignored e w) && isDeletable b then
           w' = mkWorld (mainWorkspace w) (selected w) None
                  (clipboardXml_ w) (clipboardSource_ w) (dragMode_ w)
                  (calls w ++ [preventDefault; Events_setGroup true]
                     ++ chaff (mainWorkspace w)
                     ++ [dispose b (negb (isDragFree (dragMode_ w))) true]
                     ++ match highlightedConnection_ w with
                        | Some c => [unhighlight c]
                        | None => []
                        end
                     ++ [Events_setGroup false])
         else
           w' = mkWorld (mainWorkspace w) (selected w)
                  (highlightedConnection_ w) (clipboardXml_ w)
                  (clipboardSource_ w) (dragMode_ w)
                  (calls w ++ if ignored e w then [] else [preventDefault])
     | None =>
         w' = mkWorld (mainWorkspace w) (selected w)
                (highlightedConnection_ w) (clipboardXml_ w)
                (clipboardSource_ w) (dragMode_ w)
                (calls w ++ if ignored e w then [] else [preventDefault])
     end.
Proof.
  unfold isDeleteKey, ignored. intros Hkey. cbv zeta.
  assert (Hesc : (keyCode e =? 27)%Z = false).
  { apply orb_true_iff in Hkey as [Hk|Hk]; apply Z.eqb_eq in Hk;
      rewrite Hk; reflexivity. }
  destruct w as [mw sel hc cx cs dm cl]. simpl.
  destruct (readOnly mw || isTargetInput e) eqn:Hign.
  - assert (Hrun : onKeyDown_ e (mkWorld mw sel hc cx cs dm cl)
                   = (Normal tt, mkWorld mw sel hc cx cs dm cl)).
    { unfold onKeyDown_, bind, gets, ret. simpl. rewrite Hign.
      reflexivity. }
    unfold completes, exec. rewrite Hrun. simpl.
    split; [reflexivity|]. rewrite app_nil_r.
    destruct sel as [b|]; reflexivity.
  - pose (w1 := mkWorld mw sel hc cx cs dm (cl ++ [preventDefault])).
    destruct sel as [b|]; [destruct (isDeletable b) eqn:Hdel|]; simpl.
    + assert (Hrun : onKeyDown_ e (mkWorld mw (Some b) hc cx cs dm cl)
                     = deleteSelected w1).
      { unfold onKeyDown_, bind, gets, ret, call, modify. simpl.
        rewrite Hign, Hesc, Hkey. simpl. rewrite Hdel. reflexivity. }
      destruct (deleteSelected_exec w1 b eq_refl) as [Hc He].
      split; [unfold completes; rewrite Hrun; exact Hc|].
      unfold exec at 1. rewrite Hrun. fold (exec deleteSelected w1).
      rewrite He. simpl. repeat rewrite <- app_assoc. reflexivity.
    + unfold completes, exec, onKeyDown_, bind, gets, ret, call, modify.
      simpl. rewrite Hign, Hesc, Hkey. simpl. rewrite Hdel.
      split; reflexivity.
    + unfold completes, exec, onKeyDown_, bind, gets, ret, call, modify.
      simpl. rewrite Hign, Hesc, Hkey. simpl. split; reflexivity.
Qed.

Lemma copy_paired b w : clipboardPaired (exec (copy_ b) w).
Proof. intros _. unfold exec. rewrite copy_frame. simpl. eauto. Qed.

Lemma duplicate_paired b w :
  clipboardPaired w -> clipboardPaired (exec (duplicate_ b) w).
Proof. intros Hp. run. exact Hp. Qed.

(** From a paired clipboard the key handler never throws, and it
    leaves the clipboard paired: the paste branch always finds its
    source workspace. *)
Lemma onKeyDown_total e w :
  clipboardPaired w ->
  completes (onKeyDown_ e) w = true
  /\ clipboardPaired (exec (onKeyDown_ e) w).
Proof.
  unfold clipboardPaired.
  destruct w as [mw sel hc cx cs dm cl].
  destruct e as [kc alt ctrl meta shift input].
  destruct mw as [wid ro tb]. simpl. intros Hp.
  run.
  destruct (ro || input); simpl; [auto|].
  repeat (match goal with
          | |- context [(?a =? ?b)%Z] => destruct (a =? b)%Z eqn:?
          | |- context [if ?c then _ else _] =>
              lazymatch c with
              | context [if _ then _ else _] => fail
              | context [match _ with _ => _ end] => fail
              | _ => destruct c eqn:?
              end
          | |- context [match ?c with Some _ => _ | None => _ end] =>
              lazymatch type of c with
              | option _ => destruct c eqn:?
              end
          end; simpl);
    try (split; [reflexivity | eauto; fail]).
  all: try (exfalso; destruct Hp as [? ?]; [eauto | discriminate]).
Qed.

End ClipboardFacts.

(** C1 as stated fails: with a deletable and movable block selected,
    Ctrl+X typed into an HTML input copies nothing and disposes nothing. *)
Lemma cut_key_ignored_in_text_input :
  let e := Blockly.Sample.cutInTextField in
  let w := Blockly.Sample.world in
  (Blockly.isCutKey e = true
   /\ Blockly.selected w = Some Blockly.Sample.block
   /\ Blockly.isDeletable Blockly.Sample.block = true
   /\ Blockly.isMovable Blockly.Sample.block = true
   /\ Blockly.exec (Blockly.onKeyDown_ (H := Blockly.Sample.xml) e) w = w
   /\ Blockly.clipboardXml_
        (Blockly.exec (Blockly.onKeyDown_ (H := Blockly.Sample.xml) e) w)
      = None
   /\ Blockly.calls
        (Blockly.exec (Blockly.onKeyDown_ (H := Blockly.Sample.xml) e) w)
      = [])
  /\ ~ Blockly.cutAsWorded (H := Blockly.Sample.xml).
Proof.
  cbv zeta. split; [repeat split; reflexivity|].
  intros Hclaim.
  destruct (Hclaim Blockly.Sample.cutInTextField Blockly.Sample.world eq_refl)
    as [Hcut _].
  specialize (Hcut Blockly.Sample.block eq_refl eq_refl eq_refl).
  apply (f_equal Blockly.calls) in Hcut. discriminate Hcut.
Qed.

(** The cut key on the drawing surface, on the sample world. *)
Lemma cut_key_copies_then_disposes_witness :
  let e := Blockly.Sample.cutOnSurface in
  let w := Blockly.Sample.world in
  let w' := Blockly.exec (Blockly.onKeyDown_ (H := Blockly.Sample.xml) e) w in
  Blockly.clipboardSource_ w' = Some 1
  /\ Blockly.appended w w'
       [Blockly.Events_setGroup true; Blockly.Tooltip_hide;
        Blockly.WidgetDiv_hide;
        Blockly.dispose Blockly.Sample.block true true;
        Blockly.unhighlight 5; Blockly.Events_setGroup false].
Proof.
  destruct (cut_key_copies_then_disposes (H := Blockly.Sample.xml)
              Blockly.Sample.cutOnSurface Blockly.Sample.world eq_refl)
    as [Hcut _].
  destruct (Hcut Blockly.Sample.block eq_refl eq_refl eq_refl eq_refl)
    as (_ & _ & _ & _ & Hsrc & Hcalls).
  split; [exact Hsrc | exact Hcalls].
Defined.

(** C2 as stated fails: with a filled clipboard, Ctrl+V while the
    read-only workspace has the focus pastes nothing. *)
Lemma paste_key_ignored_on_read_only_workspace :
  let e := Blockly.Sample.pasteOnSurface in
  let w := Blockly.Sample.lockedWorld in
  (Blockly.isPasteKey e = true
   /\ Blockly.clipboardXml_ w = Some (Dom.createElement "block")
   /\ Blockly.clipboardSource_ w = Some 1
   /\ Blockly.exec (Blockly.onKeyDown_ (H := Blockly.Sample.xml) e) w = w
   /\ Blockly.calls
        (Blockly.exec (Blockly.onKeyDown_ (H := Blockly.Sample.xml) e) w)
      = [])
  /\ ~ Blockly.pasteAsWorded (H := Blockly.Sample.xml).
Proof.
  cbv zeta. split; [repeat split; reflexivity|].
  intros Hclaim.
  destruct (Hclaim Blockly.Sample.pasteOnSurface Blockly.Sample.lockedWorld
              eq_refl) as [Hpaste _].
  specialize (Hpaste (Dom.createElement "block") 1%nat eq_refl eq_refl).
  discriminate Hpaste.
Qed.

(** The paste key on the drawing surface, with a filled clipboard. *)
Lemma paste_key_pastes_into_clipboard_source_witness :
  let e := Blockly.Sample.pasteOnSurface in
  let w := Blockly.Sample.filledWorld in
  Blockly.calls (Blockly.exec (Blockly.onKeyDown_ (H := Blockly.Sample.xml) e) w)
  = [Blockly.Events_setGroup true;
     Blockly.paste 1 (Some (Dom.createElement "block"));
     Blockly.Events_setGroup false].
Proof.
  destruct (paste_key_pastes_into_clipboard_source (H := Blockly.Sample.xml)
              Blockly.Sample.pasteOnSurface Blockly.Sample.filledWorld
              eq_refl) as [Hpaste _].
  destruct (Hpaste (Dom.createElement "block") 1%nat eq_refl eq_refl eq_refl)
    as [_ Hw].
  cbv zeta. rewrite Hw. reflexivity.
Defined.

(** The Delete key on the sample world: the selected block goes, the
    highlighted connection is reset. *)
Lemma delete_key_disposes_selected_witness :
  Blockly.exec (Blockly.onKeyDown_ (H := Blockly.Sample.xml)
                  Blockly.Sample.deleteOnSurface) Blockly.Sample.world
  = Blockly.mkWorld Blockly.Sample.editable (Some Blockly.Sample.block)
      None None None Blockly.DRAG_NONE
      [Blockly.preventDefault; Blockly.Events_setGroup true;
       Blockly.Tooltip_hide; Blockly.WidgetDiv_hide;
       Blockly.dispose Blockly.Sample.block true true;
       Blockly.unhighlight 5; Blockly.Events_setGroup false].
Proof.
  destruct (delete_key_disposes_selected (H := Blockly.Sample.xml)
              Blockly.Sample.deleteOnSurface Blockly.Sample.world eq_refl)
    as [_ Hw].
  exact Hw.
Defined.

(** * Properties of [defineBlocksWithJsonArray] *)
Section RegistryFacts.
Import Registry.
Variable objectPrototype : string -> bool.

Let defined := defined objectPrototype.
Let defineOne := defineOne objectPrototype.
Let defineFrom := defineFrom objectPrototype.
Let defineAll := defineAll objectPrototype.
Let defineBlocksWithJsonArray := defineBlocksWithJsonArray objectPrototype.

Lemma defineFrom_processed jsonArray : forall i st,
  defineFrom i jsonArray st = defineAll i (processed jsonArray) st.
Proof.
  induction jsonArray as [|[elem|] rest IH]; intros i st; simpl;
    [reflexivity | apply IH | reflexivity].
Qed.

Lemma processed_stops (pre : list JsonDef) rest :
  processed (map Some pre ++ None :: rest) = pre.
Proof. induction pre as [|elem pre IH]; simpl; congruence. Qed.

Lemma processed_all (pre : list JsonDef) : processed (map Some pre) = pre.
Proof. induction pre as [|elem pre IH]; simpl; congruence. Qed.

Lemma defineOne_untyped i elem st :
  type elem = None \/ type elem = Some "" ->
  defineOne i elem st
  = mkState (Blocks st) (prototype st) (console st ++ [missingType i]).
Proof.
  intros [Ht|Ht]; unfold defineOne, Registry.defineOne; rewrite Ht;
    reflexivity.
Qed.

Lemma defineOne_typed i elem typename st :
  type elem = Some typename -> typename <> "" ->
  defineOne i elem st =
  assign typename elem
    (mkState (Blocks st) (prototype st)
       (console st ++ if defined st typename
                      then [overwrites i typename] else [])).
Proof.
  intros Ht Hne. unfold defineOne, Registry.defineOne. rewrite Ht.
  destruct (String.eqb_spec typename ""); [contradiction|].
  fold (defined st typename).
  destruct (defined st typename); simpl;
    rewrite ?app_nil_r; destruct st; reflexivity.
Qed.

(** C10. The loop handles the elements in order up to the first [null]
    or [undefined] entry and ignores everything after it without a
    trace; an element without a type, or with the empty type, only adds
    a warning; any other element is registered under its type name,
    replacing an earlier registration of that name, with a warning when
    [Blockly.Blocks] held something under the name. The one name that is
    not registered is [__proto__]: its definition becomes the prototype
    of [Blockly.Blocks]. *)
Theorem defineBlocksWithJsonArray_stops_at_falsy jsonArray st :
  defineBlocksWithJsonArray jsonArray st
    = defineAll 0 (processed jsonArray) st
  /\ (forall pre rest,
        jsonArray = map Some pre ++ None :: rest ->
        defineBlocksWithJsonArray jsonArray st
          = defineBlocksWithJsonArray (map Some pre) st)
  /\ (forall i elem st0,
        type elem = None \/ type elem = Some "" ->
        Blocks (defineOne i elem st0) = Blocks st0
        /\ prototype (defineOne i elem st0) = prototype st0
        /\ console (defineOne i elem st0) = console st0 ++ [missingType i])
  /\ (forall i elem typename st0,
        type elem = Some typename -> typename <> "" ->
        console (defineOne i elem st0)
        = console st0 ++ (if defined st0 typename
                          then [overwrites i typename] else [])
        /\ (is_Some (Blocks st0 !! typename) ->
            defined st0 typename = true)
        /\ (typename <> "__proto__" \/ is_Some (Blocks st0 !! typename) ->
            Blocks (defineOne i elem st0) !! typename = Some (jsonInit elem)
            /\ (forall other, other <> typename ->
                  Blocks (defineOne i elem st0) !! other
                  = Blocks st0 !! other)
            /\ prototype (defineOne i elem st0) = prototype st0)
        /\ (typename = "__proto__" -> Blocks st0 !! typename = None ->
            Blocks (defineOne i elem st0) = Blocks st0
            /\ prototype (defineOne i elem st0) = Some elem)).
Proof.
  unfold defineBlocksWithJsonArray, Registry.defineBlocksWithJsonArray.
  fold defineFrom. split; [apply defineFrom_processed|].
  split.
  { intros pre rest ->.
    rewrite !defineFrom_processed, processed_stops, processed_all.
    reflexivity. }
  split.
  { intros i elem st0 Ht. rewrite defineOne_untyped by assumption.
    repeat split. }
  intros i elem typename st0 Ht Hne.
  rewrite (defineOne_typed _ _ typename) by assumption.
  unfold assign. cbn [Blocks prototype console].
  split; [destruct (_ && _); reflexivity|].
  split.
  { intros [d Hd]. unfold defined, Registry.defined. rewrite Hd.
    reflexivity. }
  split.
  - intros Hreg.
    assert (Hown : String.eqb typename "__proto__"
                   && negb (bool_decide (is_Some (Blocks st0 !! typename)))
                   = false).
    { destruct Hreg as [Hp|Hs].
      - destruct (String.eqb_spec typename "__proto__");
          [contradiction | reflexivity].
      - rewrite (bool_decide_eq_true_2 _ Hs). apply andb_false_r. }
    rewrite Hown. cbn [Blocks prototype]. repeat split.
    + apply lookup_insert_eq.
    + intros other Ho. apply lookup_insert_ne. congruence.
  - intros -> Hnone.
    rewrite Hnone, bool_decide_eq_false_2 by (intros [d Hd]; discriminate).
    repeat split.
Qed.

End RegistryFacts.

(** A JSON array with a hole: the definition after the hole is never
    registered, the untyped one is skipped, and the second [led]
    definition replaces the first. A definition named [toString] finds
    the method that [Blockly.Blocks] inherits and logs a warning. *)
Lemma defineBlocksWithJsonArray_stops_at_falsy_witness :
  let led1 := {| Registry.type := Some "led"; Registry.body := 1 |} in
  let anon := {| Registry.type := None; Registry.body := 2 |} in
  let led2 := {| Registry.type := Some "led"; Registry.body := 3 |} in
  let late := {| Registry.type := Some "late"; Registry.body := 4 |} in
  let text := {| Registry.type := Some "toString"; Registry.body := 5 |} in
  let jsonArray := [Some led1; Some anon; Some led2; None; Some late] in
  let st := Registry.mkState ∅ None [] in
  let define := Registry.defineBlocksWithJsonArray Registry.standardNames in
  define jsonArray st = define [Some led1; Some anon; Some led2] st
  /\ Registry.Blocks (define jsonArray st) !! "led"
     = Some (Registry.jsonInit led2)
  /\ Registry.Blocks (define jsonArray st) !! "late" = None
  /\ Registry.console (define jsonArray st)
     = [Registry.missingType 1; Registry.overwrites 2 "led"]
  /\ Registry.console (define [Some text] st)
     = [Registry.overwrites 0 "toString"].
Proof.
  cbv zeta.
  destruct (defineBlocksWithJsonArray_stops_at_falsy Registry.standardNames
              [Some {| Registry.type := Some "led"; Registry.body := 1 |};
               Some {| Registry.type := None; Registry.body := 2 |};
               Some {| Registry.type := Some "led"; Registry.body := 3 |};
               None;
               Some {| Registry.type := Some "late"; Registry.body := 4 |}]
              (Registry.mkState ∅ None []))
    as (_ & Hstop & _).
  split.
  - apply (Hstop [ {| Registry.type := Some "led"; Registry.body := 1 |};
                   {| Registry.type := None; Registry.body := 2 |};
                   {| Registry.type := Some "led"; Registry.body := 3 |} ]
                 [Some {| Registry.type := Some "late"; Registry.body := 4 |}]).
    reflexivity.
  - repeat split; reflexivity.
Defined.

(** * Properties of [bindEventWithChecks_] *)
Section BindFacts.
Import Binding.
Context {T : Type}.
Variable shouldHandleEvent : Event -> T -> bool * T.
Variable setClientFromTouch : Event -> Event.
Variable thisObject : option Receiver.
Variable func : option Receiver -> Event -> T -> T.
Variable opt_noCaptureIdentifier : bool.

Let wrapOne :=
  wrapOne shouldHandleEvent setClientFromTouch thisObject func
          opt_noCaptureIdentifier.
Let wrapLoop :=
  wrapLoop shouldHandleEvent setClientFromTouch thisObject func
           opt_noCaptureIdentifier.
Let wrapFunc :=
  wrapFunc shouldHandleEvent setClientFromTouch thisObject func
           opt_noCaptureIdentifier.
Let answered := answered shouldHandleEvent.

Lemma invocations_app (a b : list Step) :
  invocations (a ++ b) = invocations a ++ invocations b.
Proof.
  induction a as [|[ev ok|this ev|ev] a IH]; simpl; congruence.
Qed.

Lemma checks_app (a b : list Step) :
  checks (a ++ b) = checks a ++ checks b.
Proof.
  induction a as [|[ev ok|this ev|ev] a IH]; simpl; congruence.
Qed.

Lemma passed_app (a b : list Step) : passed (a ++ b) = passed a ++ passed b.
Proof. unfold passed. rewrite checks_app, filter_app, map_app. reflexivity. Qed.

(** One round of the loop: the steps it appends. *)
Lemma wrapOne_steps event s :
  exists steps,
    trace (wrapOne event s) = trace s ++ steps
    /\ if opt_noCaptureIdentifier then
         steps = [invoked thisObject (setClientFromTouch event)]
       else
         exists ok,
           ok = fst (shouldHandleEvent event (touch s))
           /\ steps = checked event ok ::
                      if ok then [invoked thisObject (setClientFromTouch event)]
                      else [].
Proof.
  unfold wrapOne, Binding.wrapOne.
  destruct opt_noCaptureIdentifier; simpl.
  - eexists. split; reflexivity.
  - destruct (shouldHandleEvent event (touch s)) as [[|] t]; simpl;
      eexists; (split; [|eexists; split; reflexivity]);
      rewrite <- ?app_assoc; reflexivity.
Qed.

Lemma wrapLoop_steps events : forall s,
  exists steps,
    trace (wrapLoop events s) = trace s ++ steps
    /\ Forall answered (checks steps)
    /\ if opt_noCaptureIdentifier then
         checks steps = []
         /\ invocations steps = map setClientFromTouch events
       else
         map fst (checks steps) = events
         /\ invocations steps = map setClientFromTouch (passed steps).
Proof.
  induction events as [|event rest IH]; intros s; simpl.
  - exists []. rewrite app_nil_r. split; [reflexivity|].
    split; [constructor|].
    destruct opt_noCaptureIdentifier; repeat split; reflexivity.
  - destruct (wrapOne_steps event s) as (st1 & Ht1 & H1).
    destruct (IH (wrapOne event s)) as (st2 & Ht2 & Ha2 & H2).
    exists (st1 ++ st2). split.
    + fold wrapOne. rewrite Ht2, Ht1, app_assoc. reflexivity.
    + rewrite checks_app, invocations_app, passed_app.
      destruct opt_noCaptureIdentifier.
      * subst st1. destruct H2 as [-> ->]. simpl.
        split; [constructor|]. split; reflexivity.
      * destruct H1 as (ok & Hok & ->). destruct H2 as [Hc Hi].
        split.
        { apply Forall_app. split; [|exact Ha2].
          destruct ok; simpl; repeat constructor;
            exists (touch s); exact Hok. }
        rewrite map_app, Hi. simpl.
        destruct ok; simpl; unfold passed; simpl;
          rewrite ?decide_True, ?decide_False by congruence;
          (split; [f_equal; exact Hc|]); reflexivity.
Qed.

Lemma passed_pure (p : Event -> bool) (cs : list (Event * bool)) :
  Forall (fun c => snd c = p (fst c)) cs ->
  map fst (filter (fun c => snd c = true) cs)
  = filter (fun ev => p ev = true) (map fst cs).
Proof.
  induction 1 as [|[ev ok] cs Hc _ IH]; [reflexivity|].
  simpl in Hc. subst ok. simpl. rewrite !filter_cons. simpl.
  destruct (p ev) eqn:Hp; repeat case_decide; try congruence;
    simpl; rewrite ?IH; reflexivity.
Qed.

(** [touchWrapFunc] runs [wrapFunc] and stops the browser's default
    action when the [handled] flag is set. *)
Lemma touchWrapFunc_prevents e s :
  let s' := wrapFunc e s in
  trace (touchWrapFunc shouldHandleEvent setClientFromTouch thisObject func
           opt_noCaptureIdentifier e s)
  = trace s' ++ (if handled s' then [prevented e] else []).
Proof.
  cbv zeta. unfold touchWrapFunc. fold wrapFunc.
  destruct (handled (wrapFunc e s)); simpl; rewrite ?app_nil_r; reflexivity.
Qed.

Lemma wrapOne_handled event s :
  handled s = true -> handled (wrapOne event s) = true.
Proof.
  unfold wrapOne, Binding.wrapOne. intros Hs.
  destruct opt_noCaptureIdentifier; simpl; [reflexivity|].
  destruct (shouldHandleEvent event (touch s)) as [[|] t]; simpl;
    [reflexivity | exact Hs].
Qed.

(** The flag is never reset: once a handler ran, it stays set. *)
Lemma wrapLoop_handled_sticky events : forall s,
  handled s = true -> handled (wrapLoop events s) = true.
Proof.
  induction events as [|event rest IH]; intros s Hs; [exact Hs|].
  simpl. apply IH, wrapOne_handled, Hs.
Qed.

(** C8. [wrapFunc] works on the per-touch events of the incoming
    event, one for each changed touch point (the event itself for a
    mouse event). With the capture check on, every per-touch event is
    submitted to [shouldHandleEvent], in order, and the handler is
    called on exactly those the check accepted; with
    [opt_noCaptureIdentifier] the check is never called and the handler
    is called on every per-touch event. *)
Theorem wrapFunc_invokes_checked_touches e s :
  let events := splitEventByTouches e in
  match changedTouches e with
  | Some touches =>
      Forall2 (fun ev t => changedTouches ev = Some [t]
                           /\ evType ev = evType e) events touches
  | None => events = [e]
  end
  /\ exists steps,
       trace (wrapFunc e s) = trace s ++ steps
       /\ Forall answered (checks steps)
       /\ (if opt_noCaptureIdentifier then
             checks steps = []
             /\ invocations steps = map setClientFromTouch events
           else
             map fst (checks steps) = events
             /\ invocations steps = map setClientFromTouch (passed steps))
       /\ forall p : Event -> bool,
            (forall ev t, fst (shouldHandleEvent ev t) = p ev) ->
            opt_noCaptureIdentifier = false ->
            invocations steps
            = map setClientFromTouch
                  (filter (fun ev => p ev = true) events).
Proof.
  cbv zeta. split.
  - unfold splitEventByTouches.
    destruct (changedTouches e) as [touches|]; [|reflexivity].
    induction touches as [|t touches IH]; simpl; constructor;
      [split; reflexivity | exact IH].
  - destruct (wrapLoop_steps (splitEventByTouches e) s)
      as (steps & Ht & Ha & Hmode).
    exists steps. repeat split; try assumption.
    intros p Hp Hcap. rewrite Hcap in Hmode. destruct Hmode as [Hc Hi].
    rewrite Hi. f_equal. unfold passed. rewrite <- Hc.
    apply passed_pure.
    eapply Forall_impl; [exact Ha|].
    intros c [t Ht']. rewrite Ht'. apply Hp.
Qed.

End BindFacts.

(** Three fingers change at once; the touch stream of finger 1 is the
    captured one: only its event reaches the handler. *)
Lemma wrapFunc_invokes_checked_touches_witness :
  let finger i := {| Binding.identifier := i; Binding.touchX := i;
                     Binding.touchY := 0 |} in
  let e := Binding.mkEvent "touchmove"
             (Some [finger 0%Z; finger 1%Z; finger 2%Z]) 0 0 in
  let captured (ev : Binding.Event) :=
    match Binding.changedTouches ev with
    | Some [t] => (Binding.identifier t =? 1)%Z
    | _ => false
    end in
  let s := Binding.mkEnv tt false [] in
  Binding.invocations
    (Binding.trace
       (Binding.wrapFunc (fun ev t => (captured ev, t)) id None
          (fun _ _ t => t) false e s))
  = [Binding.mkEvent "touchmove" (Some [finger 1%Z]) 0 0].
Proof.
  cbv zeta.
  destruct (wrapFunc_invokes_checked_touches
              (fun ev (t : unit) =>
                 (match Binding.changedTouches ev with
                  | Some [t] => (Binding.identifier t =? 1)%Z
                  | _ => false
                  end, t))
              id None (fun _ _ t => t) false
              (Binding.mkEvent "touchmove"
                 (Some [ {| Binding.identifier := 0; Binding.touchX := 0;
                            Binding.touchY := 0 |};
                         {| Binding.identifier := 1; Binding.touchX := 1;
                            Binding.touchY := 0 |};
                         {| Binding.identifier := 2; Binding.touchX := 2;
                            Binding.touchY := 0 |} ]) 0 0)
              (Binding.mkEnv tt false []))
    as (_ & steps & Ht & _ & _ & Hpure).
  rewrite Ht. simpl.
  rewrite (Hpure _ (fun _ _ => eq_refl) eq_refl).
  reflexivity.
Defined.

(** * Properties of [isNumber] *)
Section RegExpFacts.
Import RegExp.

Lemma matches_seq r1 r2 s :
  Matches (Seq r1 r2) s <->
  exists s1 s2, s = s1 ++ s2 /\ Matches r1 s1 /\ Matches r2 s2.
Proof.
  split.
  - inversion 1; subst; eauto.
  - intros (s1 & s2 & -> & H1 & H2). constructor; assumption.
Qed.

Lemma matches_alt r1 r2 s :
  Matches (Alt r1 r2) s <-> Matches r1 s \/ Matches r2 s.
Proof.
  split.
  - inversion 1; subst; auto.
  - intros [Hm|Hm]; [apply MAltL | apply MAltR]; assumption.
Qed.

Lemma matches_eps s : Matches Eps s <-> s = [].
Proof. split; [inversion 1; reflexivity | intros ->; constructor]. Qed.

Lemma matches_class p s :
  Matches (Class p) s <-> exists c, s = [c] /\ p c = true.
Proof.
  split.
  - inversion 1; subst; eauto.
  - intros (c & -> & Hp). constructor; assumption.
Qed.

Lemma matches_fail s : ~ Matches Fail s.
Proof. inversion 1. Qed.

(** A non-empty word of a starred pattern starts with a non-empty word
    of the pattern. *)
Lemma matches_star_cons r c s :
  Matches (Star r) (c :: s) ->
  exists s1 s2, s = s1 ++ s2 /\ Matches r (c :: s1) /\ Matches (Star r) s2.
Proof.
  intros Hm. remember (Star r) as r' eqn:Hr. remember (c :: s) as w eqn:Hw.
  induction Hm as [| | | | | |r0 s1 s2 H1 _ H2 IH2]; try discriminate.
  injection Hr as ->.
  destruct s1 as [|c1 s1]; simpl in Hw.
  - apply IH2; [reflexivity | exact Hw].
  - injection Hw as -> <-. eauto.
Qed.

Lemma nullable_spec r : nullable r = true <-> Matches r [].
Proof.
  induction r as [| |p|r1 IH1 r2 IH2|r1 IH1 r2 IH2|r IH]; simpl.
  - split; [discriminate | intros Hm; destruct (matches_fail _ Hm)].
  - split; [constructor | reflexivity].
  - split; [discriminate | inversion 1].
  - rewrite andb_true_iff, IH1, IH2, matches_seq. split.
    + intros [H1 H2]. exists [], []. auto.
    + intros (s1 & s2 & Hs & H1 & H2).
      symmetry in Hs. apply app_eq_nil in Hs as [-> ->]. auto.
  - rewrite orb_true_iff, IH1, IH2, matches_alt. reflexivity.
  - split; [constructor | reflexivity].
Qed.

Lemma deriv_spec r : forall c s,
  Matches (deriv c r) s <-> Matches r (c :: s).
Proof.
  induction r as [| |p|r1 IH1 r2 IH2|r1 IH1 r2 IH2|r IH]; intros c s; simpl.
  - split; inversion 1.
  - split; inversion 1.
  - destruct (p c) eqn:Hp.
    + rewrite matches_eps, matches_class. split.
      * intros ->. eauto.
      * intros (c' & [= -> ->] & _). reflexivity.
    + split; [inversion 1|].
      rewrite matches_class. intros (c' & [= -> ->] & Hp'). congruence.
  - assert (Hseq : Matches (Seq (deriv c r1) r2) s \/
                   (Matches r1 [] /\ Matches r2 (c :: s))
                   <-> Matches (Seq r1 r2) (c :: s)).
    { rewrite !matches_seq. split.
      - intros [(s1 & s2 & -> & H1 & H2)|[H1 H2]].
        + exists (c :: s1), s2. rewrite <- IH1. auto.
        + exists [], (c :: s). auto.
      - intros (s1 & s2 & Hs & H1 & H2). destruct s1 as [|c1 s1].
        + simpl in Hs. subst s2. auto.
        + injection Hs as <- ->. left. exists s1, s2.
          rewrite IH1. auto. }
    rewrite <- Hseq. destruct (nullable r1) eqn:Hn.
    + rewrite matches_alt, IH2.
      apply nullable_spec in Hn. tauto.
    + split; [auto|]. intros [Hm|[Hm _]]; [exact Hm|].
      apply nullable_spec in Hm. congruence.
  - rewrite !matches_alt, IH1, IH2. reflexivity.
  - rewrite matches_seq. split.
    + intros (s1 & s2 & -> & H1 & H2). apply IH in H1.
      apply (MStarCons r (c :: s1) s2); assumption.
    + intros Hm. apply matches_star_cons in Hm as (s1 & s2 & -> & H1 & H2).
      exists s1, s2. rewrite IH. auto.
Qed.

(** The matcher decides the language of the pattern. *)
Lemma test_spec str : forall r, test r str = true <-> Matches r str.
Proof.
  induction str as [|c str IH]; intros r; simpl.
  - apply nullable_spec.
  - rewrite IH. apply deriv_spec.
Qed.

Lemma matches_chr a s : Matches (chr a) s <-> s = [a].
Proof.
  unfold chr. rewrite matches_class. split.
  - intros (c & -> & Hc). apply N.eqb_eq in Hc. congruence.
  - intros ->. exists a. split; [reflexivity | apply N.eqb_refl].
Qed.

Lemma matches_opt r s : Matches (opt r) s <-> Matches r s \/ s = [].
Proof. unfold opt. rewrite matches_alt, matches_eps. reflexivity. Qed.

Lemma matches_star_class p s :
  Matches (Star (Class p)) s <-> Forall (fun c => p c = true) s.
Proof.
  split.
  - induction s as [|c s IH]; intros Hm; [constructor|].
    apply matches_star_cons in Hm as (s1 & s2 & -> & H1 & H2).
    apply matches_class in H1 as (c' & [= -> ->] & Hp).
    constructor; [exact Hp | apply IH; exact H2].
  - induction 1 as [|c s Hc _ IH]; [constructor|].
    apply (MStarCons (Class p) [c] s); [constructor; exact Hc | exact IH].
Qed.

Lemma matches_plus_class p s :
  Matches (plus (Class p)) s <->
  s <> [] /\ Forall (fun c => p c = true) s.
Proof.
  unfold plus. rewrite matches_seq. split.
  - intros (s1 & s2 & -> & H1 & H2).
    apply matches_class in H1 as (c & -> & Hp).
    apply matches_star_class in H2.
    split; [discriminate | constructor; assumption].
  - intros [Hne Hall]. destruct Hall as [|c s Hc Hs]; [contradiction|].
    exists [c], s. rewrite matches_class, matches_star_class. eauto.
Qed.

(** The pattern of the source and the described shape are the same
    language. *)
Lemma numberPattern_shape str :
  Matches numberPattern str <-> NumberShape str.
Proof.
  unfold numberPattern, NumberShape, Digits. split.
  - intros Hm.
    apply matches_seq in Hm as (lead & s1 & -> & Hlead & Hm).
    apply matches_seq in Hm as (sign & s2 & -> & Hsign & Hm).
    apply matches_seq in Hm as (int & s3 & -> & Hint & Hm).
    apply matches_seq in Hm as (frac & trail & -> & Hfrac & Htrail).
    exists lead, sign, int, frac, trail.
    apply matches_star_class in Hlead, Htrail.
    apply matches_plus_class in Hint.
    apply matches_opt in Hsign. rewrite matches_chr in Hsign.
    apply matches_opt in Hfrac.
    repeat split; try tauto.
    destruct Hfrac as [Hfrac|Hfrac]; [right | left; exact Hfrac].
    apply matches_seq in Hfrac as (d & fs & -> & Hd & Hfs).
    apply matches_chr in Hd as ->. apply matches_plus_class in Hfs.
    exists fs. tauto.
  - intros (lead & sign & int & frac & trail
            & -> & Hlead & Hsign & Hint & Hfrac & Htrail).
    repeat (apply MSeq).
    + apply matches_star_class. exact Hlead.
    + apply matches_opt. rewrite matches_chr. tauto.
    + apply matches_plus_class. exact Hint.
    + apply matches_opt.
      destruct Hfrac as [->|(fs & -> & Hfs)]; [right; reflexivity|left].
      apply (MSeq (chr dot) (plus (Class isDigit)) [dot] fs).
      * apply matches_chr. reflexivity.
      * apply matches_plus_class. exact Hfs.
    + apply matches_star_class. exact Htrail.
Qed.

Lemma isNumber_shape str : isNumber str = true <-> NumberShape str.
Proof. unfold isNumber. rewrite test_spec. apply numberPattern_shape. Qed.

(** Every code unit of a number is white space, a minus sign, a digit
    or a dot. *)
Lemma shape_alphabet str : NumberShape str -> Forall numeric str.
Proof.
  intros (lead & sign & int & frac & trail
          & -> & Hlead & Hsign & [_ Hint] & Hfrac & Htrail).
  unfold numeric. repeat rewrite Forall_app. repeat split.
  - eapply Forall_impl; [exact Hlead|]. simpl. tauto.
  - destruct Hsign as [->| ->]; [constructor|].
    apply Forall_cons. split; [tauto | constructor].
  - eapply Forall_impl; [exact Hint|]. simpl. tauto.
  - destruct Hfrac as [->|(fs & -> & _ & Hfs)]; [constructor|].
    apply Forall_cons. split; [tauto|].
    eapply Forall_impl; [exact Hfs|]. simpl. tauto.
  - eapply Forall_impl; [exact Htrail|]. simpl. tauto.
Qed.

(** A number starts with white space, a minus sign or a digit. *)
Lemma shape_first c str :
  NumberShape (c :: str) ->
  isSpace c = true \/ c = minus \/ isDigit c = true.
Proof.
  intros (lead & sign & int & frac & trail
          & Heq & Hlead & Hsign & [Hne Hint] & _).
  destruct lead as [|l lead]; simpl in Heq.
  - destruct Hsign as [->| ->]; simpl in Heq.
    + destruct int as [|d int]; [contradiction|].
      injection Heq as -> _. apply Forall_cons in Hint as [Hd _]. tauto.
    + injection Heq as -> _. tauto.
  - injection Heq as -> _. apply Forall_cons in Hlead as [Hl _]. tauto.
Qed.

(** A number ends with a digit or white space. *)
Lemma shape_last c str :
  NumberShape (str ++ [c]) -> isSpace c = true \/ isDigit c = true.
Proof.
  intros (lead & sign & int & frac & trail
          & Heq & _ & _ & [Hne Hint] & Hfrac & Htrail).
  assert (Hlast : last (lead ++ sign ++ int ++ frac ++ trail) = Some c)
    by (rewrite <- Heq; apply last_snoc).
  rewrite !app_assoc in Hlast.
  apply last_app_Some in Hlast as [Hl|[Htr Hl]].
  - apply last_Some_elem_of in Hl.
    rewrite Forall_forall in Htrail. left. apply Htrail. exact Hl.
  - right. apply last_app_Some in Hl as [Hl|[Hfr Hl]].
    + destruct Hfrac as [->|(fs & -> & [Hfne Hfs])]; [discriminate|].
      rewrite last_cons in Hl. destruct (last fs) as [d|] eqn:Hd.
      * injection Hl as ->. apply last_Some_elem_of in Hd.
        rewrite Forall_forall in Hfs. apply Hfs. exact Hd.
      * apply last_None in Hd. contradiction.
    + apply last_app_Some in Hl as [Hl|[Hin _]].
      * apply last_Some_elem_of in Hl.
        rewrite Forall_forall in Hint. apply Hint. exact Hl.
      * apply last_None in Hin. contradiction.
Qed.

(** C9. [isNumber] accepts exactly the strings made of optional white
    space, an optional minus sign, one or more digits, an optional dot
    with one or more digits, and optional white space. It rejects a
    leading plus sign, a leading dot, a trailing dot, and any string
    with an exponent letter. *)
Theorem isNumber_number_shape :
  (forall str, isNumber str = true <-> NumberShape str)
  /\ (forall str, isNumber (43%N :: str) = false)
  /\ (forall str, isNumber (dot :: str) = false)
  /\ (forall str, isNumber (str ++ [dot]) = false)
  /\ (forall s1 s2, isNumber (s1 ++ 101%N :: s2) = false
                    /\ isNumber (s1 ++ 69%N :: s2) = false).
Proof.
  split; [exact isNumber_shape|].
  repeat split; intros;
    apply not_true_is_false; rewrite isNumber_shape; intros Hs.
  - apply shape_first in Hs as [Hc|[Hc|Hc]]; discriminate.
  - apply shape_first in Hs as [Hc|[Hc|Hc]]; discriminate.
  - apply shape_last in Hs as [Hc|Hc]; discriminate.
  - apply shape_alphabet in Hs. rewrite Forall_app, Forall_cons in Hs.
    destruct Hs as (_ & [Hc|[Hc|[Hc|Hc]]] & _); discriminate.
  - apply shape_alphabet in Hs. rewrite Forall_app, Forall_cons in Hs.
    destruct Hs as (_ & [Hc|[Hc|[Hc|Hc]]] & _); discriminate.
Qed.

End RegExpFacts.

(** [" -12.50 "] has the shape of a number, so [isNumber] accepts it;
    the matcher agrees on the strings the description singles out. *)
Lemma isNumber_number_shape_witness :
  RegExp.isNumber (RegExp.codes " -12.50 ") = true
  /\ RegExp.isNumber (RegExp.codes "+5") = false
  /\ RegExp.isNumber (RegExp.codes ".5") = false
  /\ RegExp.isNumber (RegExp.codes "5.") = false
  /\ RegExp.isNumber (RegExp.codes "1e5") = false.
Proof.
  destruct isNumber_number_shape as (Hshape & Hplus & Hdot & Htrail & Hexp).
  split.
  - apply Hshape.
    exists (RegExp.codes " "), (RegExp.codes "-"), (RegExp.codes "12"),
           (RegExp.codes ".50"), (RegExp.codes " ").
    split; [reflexivity|].
    split; [repeat constructor|].
    split; [right; reflexivity|].
    split; [split; [discriminate | repeat constructor]|].
    split; [|repeat constructor].
    right. exists (RegExp.codes "50").
    split; [reflexivity|]. split; [discriminate | repeat constructor].
  - split; [apply (Hplus (RegExp.codes "5"))|].
    split; [apply (Hdot (RegExp.codes "5"))|].
    split; [apply (Htrail (RegExp.codes "5"))|].
    apply (Hexp (RegExp.codes "1") (RegExp.codes "5")).
Defined.

(** * Properties of the [controls_if] mutation *)
Section ControlsIfFacts.
Import Dom ControlsIf.

(** ** Input names *)

Lemma IF_inj i j : IF i = IF j -> i = j.
Proof. unfold IF. simpl. intros [= Heq]. apply toString_inj, Heq. Qed.

Lemma DO_inj i j : DO i = DO j -> i = j.
Proof. unfold DO. simpl. intros [= Heq]. apply toString_inj, Heq. Qed.

Lemma IF_not_DO i j : IF i <> DO j.
Proof. unfold IF, DO. simpl. discriminate. Qed.

Lemma IF_not_ELSE i : IF i <> "ELSE".
Proof. unfold IF. simpl. discriminate. Qed.

Lemma DO_not_ELSE i : DO i <> "ELSE".
Proof. unfold DO. simpl. discriminate. Qed.

(** ** Removing an input by name *)

Lemma removeNamed_app n l i r :
  Forall (fun j => name j <> n) l -> name i = n ->
  removeNamed n (l ++ i :: r) = Some (l ++ r).
Proof.
  intros Hl Hi. induction Hl as [|j l Hj _ IH]; simpl.
  - rewrite Hi, String.eqb_refl. reflexivity.
  - destruct (String.eqb_spec (name j) n); [contradiction|].
    rewrite IH. reflexivity.
Qed.

(** ** The shape of a block under appends *)

Lemma shape_appendInput i b :
  shape (appendInput i b) = shape b ++ [shapeOf i].
Proof. unfold shape, appendInput. simpl. apply map_app. Qed.

Lemma appendClauses_counts k : forall i b,
  elseifCount_ (appendClauses k i b) = elseifCount_ b
  /\ elseCount_ (appendClauses k i b) = elseCount_ b.
Proof.
  induction k as [|k IH]; intros i b; simpl; [split; reflexivity|].
  destruct (IH (i + 1)%Z
              (appendInput (statementInput (DO i) CONTROLS_IF_MSG_THEN None)
                 (appendInput (valueInput (IF i) CONTROLS_IF_MSG_ELSEIF None)
                    b))) as [-> ->].
  split; reflexivity.
Qed.

Lemma shape_appendClauses k : forall i b,
  shape (appendClauses k i b) = shape b ++ clauseShape k i.
Proof.
  induction k as [|k IH]; intros i b; simpl.
  - rewrite app_nil_r. reflexivity.
  - rewrite IH, !shape_appendInput, <- !app_assoc. reflexivity.
Qed.

Lemma clauseShape_snoc k : forall i,
  clauseShape (S k) i
  = clauseShape k i ++ [(IF (i + Z.of_nat k), INPUT_VALUE);
                        (DO (i + Z.of_nat k), NEXT_STATEMENT)].
Proof.
  induction k as [|k IH]; intros i.
  - simpl. rewrite Z.add_0_r. reflexivity.
  - change (clauseShape (S (S k)) i)
      with ((IF i, INPUT_VALUE) :: (DO i, NEXT_STATEMENT)
            :: clauseShape (S k) (i + 1)).
    rewrite IH. simpl.
    replace (i + 1 + Z.of_nat k)%Z with (i + Z.pos (Pos.of_succ_nat k))%Z
      by lia.
    reflexivity.
Qed.

(** The names of clauses [i .. i+k-1] differ from those of a later
    clause. *)
Lemma clauseShape_names k : forall i j,
  (i + Z.of_nat k <= j)%Z ->
  Forall (fun p => fst p <> IF j /\ fst p <> DO j) (clauseShape k i).
Proof.
  induction k as [|k IH]; intros i j Hj; simpl; [constructor|].
  repeat constructor; simpl.
  - intros Heq. apply IF_inj in Heq. lia.
  - apply IF_not_DO.
  - intros Heq. symmetry in Heq. exact (IF_not_DO _ _ Heq).
  - intros Heq. apply DO_inj in Heq. lia.
  - apply IH. lia.
Qed.

(** ** The removal loops of [compose] *)

Lemma clear_of_shape j l k i :
  map shapeOf l = clauseShape k i -> (i + Z.of_nat k <= j)%Z -> clear j l.
Proof.
  intros Hs Hj. pose proof (clauseShape_names k i j Hj) as Hn.
  rewrite <- Hs in Hn. apply Forall_map in Hn. exact Hn.
Qed.

Lemma clauseShape_length k : forall i,
  length (clauseShape k i) = (2 * k)%nat.
Proof.
  induction k as [|k IH]; intros i; simpl; [reflexivity|].
  rewrite IH. lia.
Qed.

Lemma removeClauses_spec k : forall rounds b l0 lc,
  (k <= rounds)%nat ->
  (Z.of_nat k < Js.safe)%Z ->
  inputList b = l0 ++ lc ->
  (forall j, (1 <= j)%Z -> clear j l0) ->
  map shapeOf lc = clauseShape k 1 ->
  removeClauses rounds (Js.Int (Z.of_nat k)) b
  = Some (mkBlock l0 (elseifCount_ b) (elseCount_ b)).
Proof.
  induction k as [|k IH]; intros rounds b l0 lc Hr Hk Hb Hl0 Hlc.
  - destruct lc; [|discriminate]. rewrite app_nil_r in Hb.
    destruct rounds; simpl; destruct b; simpl in *; congruence.
  - destruct rounds as [|rounds]; [lia|].
    rewrite clauseShape_snoc in Hlc.
    apply map_eq_app in Hlc as (lc' & tl & -> & Hlc' & Htl).
    destruct tl as [|a [|d [|]]]; try discriminate.
    injection Htl as Ha Hka Hd Hkd.
    assert (Hclear : clear (1 + Z.of_nat k) (l0 ++ lc')).
    { apply Forall_app. split; [apply Hl0; lia|].
      apply (clear_of_shape _ _ k 1 Hlc'). lia. }
    replace (Z.of_nat (S k)) with (1 + Z.of_nat k)%Z in * by lia.
    cbn [removeClauses Js.positive].
    destruct (Z.ltb_spec 0 (1 + Z.of_nat k)); [|lia].
    rewrite numberToString_safe by lia.
    fold (IF (1 + Z.of_nat k)). fold (DO (1 + Z.of_nat k)).
    unfold removeInput at 1. rewrite Hb.
    rewrite app_assoc.
    rewrite (removeNamed_app (IF (1 + Z.of_nat k)) (l0 ++ lc') a [d]);
      [|eapply Forall_impl; [exact Hclear|]; simpl; tauto | exact Ha].
    cbn [option_map]. unfold removeInput at 1. cbn [inputList].
    rewrite (removeNamed_app (DO (1 + Z.of_nat k)) (l0 ++ lc') d []);
      [|eapply Forall_impl; [exact Hclear|]; simpl; tauto | exact Hd].
    cbn [option_map elseifCount_ elseCount_].
    rewrite decrement_safe by lia.
    replace (1 + Z.of_nat k - 1)%Z with (Z.of_nat k) by lia.
    rewrite (IH rounds _ l0 lc'); [reflexivity | lia | lia | | exact Hl0
                                  | exact Hlc'].
    simpl. rewrite app_nil_r. reflexivity.
Qed.

(** The two inputs [init] creates carry no clause name. *)
Lemma base_clear l0 :
  map shapeOf l0 = [(IF 0, INPUT_VALUE); (DO 0, NEXT_STATEMENT)] ->
  forall j, (1 <= j)%Z -> clear j l0.
Proof.
  intros Hl0 j Hj.
  pose proof (clauseShape_names 1 0 j ltac:(lia)) as Hn.
  simpl in Hn. rewrite <- Hl0 in Hn. apply Forall_map in Hn. exact Hn.
Qed.

Lemma no_else_in_clauses k : forall i l,
  map shapeOf l = clauseShape k i ->
  Forall (fun i => name i <> "ELSE") l.
Proof.
  induction k as [|k IH]; intros i l Hl.
  - destruct l; [constructor | discriminate].
  - destruct l as [|a [|d l]]; try discriminate.
    simpl in Hl. injection Hl as Ha _ Hd _ Hl.
    repeat constructor.
    + rewrite Ha. apply IF_not_ELSE.
    + rewrite Hd. apply DO_not_ELSE.
    + apply (IH (i + 1)%Z). exact Hl.
Qed.

(** A counter whose loop ends makes fewer than 2^53 rounds. *)
Lemma upTo_safe n :
  Js.endless n = false -> (Z.of_nat (Js.upTo n) < Js.safe)%Z.
Proof.
  destruct n as [|z|neg]; simpl; try (intros _; reflexivity).
  intros Hz. apply Z.leb_gt in Hz. unfold Js.safe in *. lia.
Qed.

(** The removal loop of [compose] on the clause inputs of a block. *)
Lemma removeClauses_counted n l0 lc e :
  Js.endless n = false ->
  (forall j, (1 <= j)%Z -> clear j l0) ->
  map shapeOf lc = clauseShape (Js.upTo n) 1 ->
  removeClauses (length (l0 ++ lc)) n (mkBlock (l0 ++ lc) n e)
  = Some (mkBlock l0 n e).
Proof.
  intros Hend Hl0 Hlc.
  pose proof (upTo_safe n Hend) as Hsafe.
  assert (Hlen : (Js.upTo n <= length (l0 ++ lc))%nat).
  { rewrite length_app, <- (length_map shapeOf lc), Hlc, clauseShape_length.
    lia. }
  assert (Hnone : Js.positive n = false -> lc = [] /\
            removeClauses (length (l0 ++ lc)) n (mkBlock (l0 ++ lc) n e)
            = Some (mkBlock (l0 ++ lc) n e)).
  { intros Hp. split.
    - destruct n as [|z|[|]]; simpl in Hlc, Hp; try discriminate;
        try (destruct lc; [reflexivity | discriminate]).
      apply Z.ltb_ge in Hp. replace (Z.to_nat z) with 0%nat in Hlc by lia.
      destruct lc; [reflexivity | discriminate].
    - destruct (length (l0 ++ lc)); simpl; rewrite Hp; reflexivity. }
  destruct (Js.positive n) eqn:Hp.
  - destruct n as [|z|[|]]; simpl in Hp, Hend; try discriminate.
    apply Z.ltb_lt in Hp. simpl in Hlc, Hlen, Hsafe.
    replace z with (Z.of_nat (Z.to_nat z)) at 1 by lia.
    rewrite (removeClauses_spec (Z.to_nat z) _ _ l0 lc);
      [reflexivity | exact Hlen | exact Hsafe | reflexivity | exact Hl0
      | exact Hlc].
  - destruct (Hnone eq_refl) as [-> Hrun]. rewrite Hrun, app_nil_r.
    reflexivity.
Qed.

(** On a consistent block the two removal steps of [compose] succeed
    and leave the inputs of [init]. *)
Lemma compose_removals_split b :
  consistent b ->
  exists l0 lc le,
    inputList b = l0 ++ lc ++ le
    /\ map shapeOf l0 = [(IF 0, INPUT_VALUE); (DO 0, NEXT_STATEMENT)]
    /\ map shapeOf lc = clauseShape (Js.upTo (elseifCount_ b)) 1
    /\ map shapeOf le = elseShape (elseCount_ b)
    /\ forall c,
         compose c b
         = composeStack (STACK c) (mkBlock l0 (Js.Int 0) (Js.Int 0)).
Proof.
  unfold consistent, shape, shapeFor. intros [Hend Hc].
  apply map_eq_app in Hc as (l0 & l1 & Hb & Hl0 & Hl1).
  apply map_eq_app in Hl1 as (lc & le & -> & Hlc & Hle).
  exists l0, lc, le. repeat split; try assumption. intros c.
  unfold compose.
  assert (Hafter :
    (if Js.truthy (elseCount_ b) then removeInput "ELSE" b else Some b)
    = Some (mkBlock (l0 ++ lc) (elseifCount_ b) (elseCount_ b))).
  { unfold elseShape in Hle. destruct (Js.truthy (elseCount_ b)).
    - destruct le as [|e [|]]; try discriminate.
      injection Hle as He _. unfold removeInput.
      rewrite Hb, app_assoc.
      rewrite (removeNamed_app "ELSE" (l0 ++ lc) e []);
        [simpl; rewrite app_nil_r; reflexivity | | exact He].
      apply Forall_app. split.
      + apply (no_else_in_clauses 1 0). exact Hl0.
      + apply (no_else_in_clauses _ _ _ Hlc).
    - destruct le; [|discriminate]. rewrite app_nil_r in Hb.
      destruct b; simpl in *. congruence. }
  rewrite Hafter. cbn [inputList elseifCount_ elseCount_].
  rewrite (removeClauses_counted _ l0 lc _ Hend (base_clear l0 Hl0) Hlc).
  reflexivity.
Qed.

Lemma compose_removals b :
  consistent b ->
  exists l0,
    map shapeOf l0 = [(IF 0, INPUT_VALUE); (DO 0, NEXT_STATEMENT)]
    /\ forall c,
         compose c b =
         match STACK c with
         | Some clauseBlock =>
             composeClauses clauseBlock (mkBlock l0 (Js.Int 0) (Js.Int 0))
         | None => Some (mkBlock l0 (Js.Int 0) (Js.Int 0))
         end.
Proof.
  intros Hc.
  destruct (compose_removals_split b Hc) as (l0 & _ & _ & _ & Hl0 & _ & _ & H).
  exists l0. split; [exact Hl0 | exact H].
Qed.

(** ** The stack [decompose] builds *)

Lemma elseifStack_snoc k : forall tail,
  elseifStack k (Some (mkMutatorBlock "controls_if_elseif" None None
                         (Some tail)))
  = elseifStack (S k) tail.
Proof.
  induction k as [|k IH]; intros tail; [reflexivity|].
  change (elseifStack (S k) ?t)
    with (Some (mkMutatorBlock "controls_if_elseif" None None
                  (Some (elseifStack k t)))).
  rewrite IH. reflexivity.
Qed.

Lemma connect_elseifStack k block :
  connect (elseifStack k None) block = elseifStack k (Some block).
Proof.
  induction k as [|k IH]; [reflexivity|].
  simpl. unfold connect in IH.
  destruct (elseifStack k None) as [next|]; simpl; rewrite <- IH;
    reflexivity.
Qed.

Lemma connectElseifs_stack k : forall j,
  connectElseifs k (elseifStack j None) = elseifStack (j + k) None.
Proof.
  induction k as [|k IH]; intros j; simpl.
  - rewrite Nat.add_0_r. reflexivity.
  - rewrite connect_elseifStack. unfold newElseif.
    rewrite elseifStack_snoc, IH. f_equal. lia.
Qed.

(** [decompose], when its loop ends, stacks one [controls_if_elseif]
    block per round and closes the stack with a [controls_if_else] block
    when [elseCount_] is truthy. *)
Lemma decompose_stack b :
  decompose b
  = if Js.endless (elseifCount_ b) then None
    else Some {| STACK :=
                   elseifStack (Js.upTo (elseifCount_ b))
                     (if Js.truthy (elseCount_ b) then Some newElse
                      else None) |}.
Proof.
  unfold decompose. destruct (Js.endless (elseifCount_ b)); [reflexivity|].
  rewrite (connectElseifs_stack _ 0). simpl.
  destruct (Js.truthy (elseCount_ b)); [|reflexivity].
  rewrite connect_elseifStack. reflexivity.
Qed.

Lemma stackTypes_elseifStack k : forall tail,
  match elseifStack k tail with
  | Some clauseBlock => stackTypes clauseBlock
  | None => []
  end
  = replicate k "controls_if_elseif"
    ++ match tail with
       | Some clauseBlock => stackTypes clauseBlock
       | None => []
       end.
Proof.
  induction k as [|k IH]; intros tail; [reflexivity|].
  simpl. f_equal. rewrite <- IH.
  destruct (elseifStack k tail); reflexivity.
Qed.

(** ** The rebuilding loop of [compose] *)

Lemma inputList_appendClauses k : forall i b,
  inputList (appendClauses k i b) = inputList b ++ clauseInputs k i.
Proof.
  induction k as [|k IH]; intros i b; simpl.
  - rewrite app_nil_r. reflexivity.
  - rewrite IH. simpl. rewrite <- !app_assoc. reflexivity.
Qed.

Lemma shape_clauseInputs k : forall i,
  map shapeOf (clauseInputs k i) = clauseShape k i.
Proof.
  induction k as [|k IH]; intros i; simpl; [|rewrite IH]; reflexivity.
Qed.

(** One [controls_if_elseif] block and one [controls_if_else] block in
    the loop of [compose], while the counter is below 2^53. *)
Lemma composeClauses_elseif v s next l z e :
  (Z.abs (z + 1) < Js.safe)%Z ->
  composeClauses (mkMutatorBlock "controls_if_elseif" v s (Some next))
    (mkBlock l (Js.Int z) e)
  = composeStack next
      (mkBlock (l ++ [valueInput (IF (z + 1)) CONTROLS_IF_MSG_ELSEIF v;
                      statementInput (DO (z + 1)) CONTROLS_IF_MSG_THEN s])
         (Js.Int (z + 1)) e).
Proof.
  intros Hz.
  cbn -[Js.increment Js.numberToString Z.add].
  unfold appendInput. cbn -[Js.increment Js.numberToString Z.add].
  rewrite (increment_safe z Hz), (numberToString_safe _ Hz).
  rewrite <- !app_assoc. destruct next; reflexivity.
Qed.

Lemma composeClauses_else v s l n z :
  (Z.abs (z + 1) < Js.safe)%Z ->
  composeClauses (mkMutatorBlock "controls_if_else" v s None)
    (mkBlock l n (Js.Int z))
  = Some (mkBlock (l ++ [statementInput "ELSE" CONTROLS_IF_MSG_ELSE s]) n
            (Js.Int (z + 1))).
Proof.
  intros Hz. cbn -[Js.increment Z.add]. unfold appendInput.
  cbn -[Js.increment Z.add]. rewrite (increment_safe z Hz). reflexivity.
Qed.

Lemma composeStack_elseifStack k : forall tail z l e,
  (0 <= z)%Z -> (z + Z.of_nat k < Js.safe)%Z ->
  composeStack (elseifStack k tail) (mkBlock l (Js.Int z) e)
  = composeStack tail
      (mkBlock (l ++ clauseInputs k (z + 1))
         (Js.Int (z + Z.of_nat k)) e).
Proof.
  induction k as [|k IH]; intros tail z l e Hz Hk.
  - simpl. rewrite app_nil_r, Z.add_0_r. reflexivity.
  - change (composeStack (elseifStack (S k) tail) ?b)
      with (composeClauses
              (mkMutatorBlock "controls_if_elseif" None None
                 (Some (elseifStack k tail))) b).
    rewrite composeClauses_elseif by lia.
    rewrite IH by lia.
    cbn [clauseInputs]. rewrite <- !app_assoc.
    replace (z + 1 + Z.of_nat k)%Z with (z + Z.of_nat (S k))%Z by lia.
    reflexivity.
Qed.

(** ** Round trips *)

Lemma init_consistent : consistent init.
Proof. split; reflexivity. Qed.

Lemma upTo_count n : Js.upTo (Js.Int (Z.of_nat n)) = n.
Proof. simpl. apply Nat2Z.id. Qed.

(** C6, as amended. On a block whose inputs agree with its counters,
    [decompose] stacks one [controls_if_elseif] block per else-if clause
    and one [controls_if_else] block iff [elseCount_] is nonzero, and
    [compose] on that container counts them back, rebuilding the inputs
    [IF1..IFn], [DO1..DOn] and [ELSE] accordingly: [elseifCount_] becomes
    the number of else-if clauses and [elseCount_] becomes 1 or 0. The
    counters are restored exactly when [elseifCount_] was a non-negative
    integer and [elseCount_] was 0 or 1. *)
Theorem compose_decompose_recounts b :
  consistent b ->
  let n := Js.upTo (elseifCount_ b) in
  exists c,
    decompose b = Some c
    /\ clauseTypes c
       = replicate n "controls_if_elseif"
         ++ (if Js.truthy (elseCount_ b) then ["controls_if_else"] else [])
    /\ exists b',
         compose c b = Some b'
         /\ elseifCount_ b' = Js.Int (Z.of_nat n)
         /\ elseCount_ b'
            = Js.Int (if Js.truthy (elseCount_ b) then 1 else 0)
         /\ shape b' = shape b
         /\ consistent b'
         /\ (forall z, elseifCount_ b = Js.Int z -> (0 <= z)%Z ->
               elseifCount_ b' = elseifCount_ b)
         /\ (elseCount_ b = Js.Int 0 \/ elseCount_ b = Js.Int 1 ->
               elseCount_ b' = elseCount_ b).
Proof.
  intros Hc. cbv zeta. pose proof Hc as [Hend Hshape0].
  pose proof (upTo_safe _ Hend) as Hsafe.
  rewrite decompose_stack, Hend. eexists. split; [reflexivity|]. split.
  - unfold clauseTypes. cbn [STACK].
    rewrite stackTypes_elseifStack.
    destruct (Js.truthy (elseCount_ b)); reflexivity.
  - destruct (compose_removals b Hc) as (l0 & Hl0 & Hcompose).
    pose (n := Js.upTo (elseifCount_ b)).
    pose (e := Js.truthy (elseCount_ b)).
    assert (Hrun : compose
              {| STACK :=
                   elseifStack (Js.upTo (elseifCount_ b))
                     (if Js.truthy (elseCount_ b) then Some newElse
                      else None) |} b
      = Some (mkBlock (l0 ++ clauseInputs n 1 ++ elseInputs (elseCount_ b))
                (Js.Int (Z.of_nat n)) (Js.Int (if e then 1 else 0)))).
    { rewrite Hcompose. cbn [STACK].
      fold (composeStack
              (elseifStack (Js.upTo (elseifCount_ b))
                 (if Js.truthy (elseCount_ b) then Some newElse else None))
              (mkBlock l0 (Js.Int 0) (Js.Int 0))).
      rewrite composeStack_elseifStack by (fold n; lia).
      fold n. unfold elseInputs. fold e.
      destruct e; cbn [composeStack].
      - unfold newElse. rewrite composeClauses_else by (unfold Js.safe; lia).
        rewrite <- !app_assoc. reflexivity.
      - rewrite app_nil_r. reflexivity. }
    eexists. split; [exact Hrun|].
    assert (Hshape :
      shape (mkBlock (l0 ++ clauseInputs n 1 ++ elseInputs (elseCount_ b))
               (Js.Int (Z.of_nat n)) (Js.Int (if e then 1 else 0)))
      = shape b).
    { rewrite Hshape0. unfold shape, shapeFor. simpl.
      rewrite !map_app, Hl0, shape_clauseInputs. fold n.
      unfold elseInputs, elseShape. fold e. destruct e; reflexivity. }
    cbn [elseifCount_ elseCount_]. repeat split.
    + exact Hshape.
    + cbn [elseifCount_]. simpl. apply Z.leb_gt. fold n. lia.
    + rewrite Hshape, Hshape0. cbn [elseifCount_ elseCount_].
      unfold shapeFor. rewrite upTo_count. fold n.
      unfold elseShape. fold e. destruct e; reflexivity.
    + intros z Hz Hpos. rewrite Hz. subst n. rewrite Hz. simpl.
      f_equal. lia.
    + subst e. intros [He|He]; rewrite He; reflexivity.
Qed.

(** What [mutationToDom] writes. *)
Lemma mutationToDom_attributes b xml :
  mutationToDom b = Some xml ->
  localName xml = "mutation"
  /\ getAttribute "elseif" xml
     = (if Js.truthy (elseifCount_ b)
        then Some (Js.numberToString (elseifCount_ b)) else None)
  /\ getAttribute "else" xml
     = (if Js.truthy (elseCount_ b) then Some (Js.toString 1) else None).
Proof.
  unfold mutationToDom, getAttribute, setAttribute, createElement.
  destruct (Js.truthy (elseifCount_ b)), (Js.truthy (elseCount_ b));
    cbn -[Js.numberToString]; intros [= <-]; cbn -[Js.numberToString];
    repeat split;
    rewrite ?lookup_insert_eq, ?lookup_insert_ne, ?lookup_empty
      by discriminate;
    reflexivity.
Qed.

Lemma parseInt_numberToString n :
  Js.isSafeInteger n = true -> Js.parseInt (Some (Js.numberToString n)) = n.
Proof.
  destruct n as [|z|neg]; try discriminate. intros Hz.
  apply Z.ltb_lt in Hz.
  rewrite numberToString_safe by exact Hz. apply parseInt_toString, Hz.
Qed.

(** [domToMutation] in one equation. *)
Lemma domToMutation_inputs xml b0 :
  let n := Js.parseInt (getAttribute "elseif" xml) in
  let e := Js.parseInt (getAttribute "else" xml) in
  domToMutation xml b0
  = if Js.endless n then None
    else Some (mkBlock (inputList b0 ++ clauseInputs (Js.upTo n) 1
                        ++ elseInputs e) n e).
Proof.
  cbv zeta. unfold domToMutation. cbn [inputList elseifCount_ elseCount_].
  set (n := Js.parseInt (getAttribute "elseif" xml)).
  set (e := Js.parseInt (getAttribute "else" xml)).
  destruct (Js.endless n); [reflexivity|].
  destruct (appendClauses_counts (Js.upTo n) 1 (mkBlock (inputList b0) n e))
    as [Hn He].
  pose proof (inputList_appendClauses (Js.upTo n) 1
                (mkBlock (inputList b0) n e)) as Hl.
  simpl in Hn, He, Hl. rewrite He. unfold elseInputs.
  destruct (appendClauses (Js.upTo n) 1 (mkBlock (inputList b0) n e))
    as [l n' e'].
  simpl in Hn, He, Hl. subst l n' e'.
  destruct (Js.truthy e); unfold appendInput; simpl;
    rewrite ?app_nil_r, <- ?app_assoc; reflexivity.
Qed.

Lemma falsy_upTo n : Js.truthy n = false -> Js.upTo n = 0.
Proof.
  destruct n as [|z|neg]; simpl; intros Hz; [reflexivity | | reflexivity].
  apply negb_false_iff, Z.eqb_eq in Hz. subst z. reflexivity.
Qed.

Lemma falsy_endless n : Js.truthy n = false -> Js.endless n = false.
Proof.
  destruct n as [|z|neg]; simpl; intros Hz;
    [reflexivity | | discriminate].
  apply negb_false_iff, Z.eqb_eq in Hz. subst z. reflexivity.
Qed.

Lemma safe_endless n : Js.isSafeInteger n = true -> Js.endless n = false.
Proof.
  destruct n as [|z|neg]; try discriminate. simpl. intros Hz.
  apply Z.ltb_lt in Hz. apply Z.leb_gt. lia.
Qed.

(** What [domToMutation] reads back from the element written for a
    block whose else-if counter, if nonzero, is a safe integer. *)
Lemma domToMutation_written b xml b0 :
  mutationToDom b = Some xml ->
  (Js.truthy (elseifCount_ b) = true ->
   Js.isSafeInteger (elseifCount_ b) = true) ->
  let n' := if Js.truthy (elseifCount_ b) then elseifCount_ b else Js.NaN in
  let e' := if Js.truthy (elseCount_ b) then Js.Int 1 else Js.NaN in
  domToMutation xml b0
  = Some (mkBlock (inputList b0
                   ++ clauseInputs (Js.upTo (elseifCount_ b)) 1
                   ++ elseInputs (elseCount_ b)) n' e')
  /\ Js.endless (elseifCount_ b) = false.
Proof.
  intros Hxml Hsafe. cbv zeta.
  destruct (mutationToDom_attributes b xml Hxml) as (_ & Hif & Hel).
  rewrite domToMutation_inputs, Hif, Hel.
  destruct (Js.truthy (elseifCount_ b)) eqn:Htn.
  - rewrite (parseInt_numberToString _ (Hsafe eq_refl)).
    rewrite (safe_endless _ (Hsafe eq_refl)). split; [|reflexivity].
    destruct (Js.truthy (elseCount_ b)) eqn:Hte; unfold elseInputs;
      rewrite Hte; reflexivity.
  - rewrite (falsy_upTo _ Htn), (falsy_endless _ Htn).
    split; [|reflexivity].
    destruct (Js.truthy (elseCount_ b)) eqn:Hte; unfold elseInputs;
      rewrite Hte; reflexivity.
Qed.

(** C7, as amended. [mutationToDom] returns [null] exactly when both
    counters are falsy (zero or NaN). Otherwise it returns a [mutation]
    element whose [elseif] attribute is the else-if counter when that is
    nonzero and whose [else] attribute is 1 when the else counter is
    nonzero. When the else-if counter, if nonzero, is a safe integer
    (below 2^53 in magnitude), [domToMutation] on that element restores
    a nonzero else-if counter, sets the else counter to 1 when it was
    nonzero, keeps a falsy counter falsy, and appends the inputs [IF i],
    [DO i] for [i = 1..elseifCount_] and the [ELSE] input iff the else
    counter was nonzero; on a new block the result has the inputs of the
    original. *)
Theorem mutation_dom_round_trip b :
  (mutationToDom b = None <->
   Js.truthy (elseifCount_ b) = false /\ Js.truthy (elseCount_ b) = false)
  /\ forall xml,
       mutationToDom b = Some xml ->
       localName xml = "mutation"
       /\ getAttribute "elseif" xml
          = (if Js.truthy (elseifCount_ b)
             then Some (Js.numberToString (elseifCount_ b)) else None)
       /\ getAttribute "else" xml
          = (if Js.truthy (elseCount_ b) then Some "1" else None)
       /\ forall b0,
            (Js.truthy (elseifCount_ b) = true ->
             Js.isSafeInteger (elseifCount_ b) = true) ->
            exists b',
              domToMutation xml b0 = Some b'
              /\ (Js.truthy (elseifCount_ b) = true ->
                    elseifCount_ b' = elseifCount_ b)
              /\ (Js.truthy (elseCount_ b) = true ->
                    elseCount_ b' = Js.Int 1)
              /\ Js.truthy (elseifCount_ b') = Js.truthy (elseifCount_ b)
              /\ Js.truthy (elseCount_ b') = Js.truthy (elseCount_ b)
              /\ inputList b'
                 = inputList b0
                   ++ clauseInputs (Js.upTo (elseifCount_ b)) 1
                   ++ elseInputs (elseCount_ b)
              /\ (consistent b -> b0 = init ->
                    shape b' = shape b /\ consistent b').
Proof.
  split.
  - unfold mutationToDom.
    destruct (Js.truthy (elseifCount_ b)), (Js.truthy (elseCount_ b));
      simpl; split; try discriminate; try (intros [? ?]; discriminate);
      auto.
  - intros xml Hxml.
    destruct (mutationToDom_attributes b xml Hxml) as (Hname & Hif & Hel).
    repeat (split; [assumption|]). intros b0 Hsafe.
    destruct (domToMutation_written b xml b0 Hxml Hsafe) as [Hrun Hend].
    eexists. split; [exact Hrun|].
    cbn [elseifCount_ elseCount_ inputList].
    split; [intros ->; reflexivity|].
    split; [intros ->; reflexivity|].
    split; [destruct (Js.truthy (elseifCount_ b)) eqn:Ht;
              [exact Ht | reflexivity]|].
    split; [destruct (Js.truthy (elseCount_ b)); reflexivity|].
    split; [reflexivity|].
    intros [_ Hc] ->.
    assert (Hs : shape (mkBlock
                   (inputList init
                    ++ clauseInputs (Js.upTo (elseifCount_ b)) 1
                    ++ elseInputs (elseCount_ b))
                   (if Js.truthy (elseifCount_ b) then elseifCount_ b
                    else Js.NaN)
                   (if Js.truthy (elseCount_ b) then Js.Int 1 else Js.NaN))
                 = shape b).
    { rewrite Hc. unfold shape. cbn [inputList].
      rewrite !map_app, shape_clauseInputs.
      unfold shapeFor, elseInputs, elseShape.
      destruct (Js.truthy (elseCount_ b)); reflexivity. }
    split; [exact Hs|]. split.
    + cbn [elseifCount_].
      destruct (Js.truthy (elseifCount_ b)); [exact Hend | reflexivity].
    + rewrite Hs, Hc. cbn [elseifCount_ elseCount_].
      unfold shapeFor, elseShape.
      destruct (Js.truthy (elseifCount_ b)) eqn:Htn,
               (Js.truthy (elseCount_ b)) eqn:Hte;
        rewrite ?(falsy_upTo _ Htn); reflexivity.
Qed.

End ControlsIfFacts.

(** C6 as stated fails. The block that [domToMutation] makes of the
    mutation element of an if/else block has [elseifCount_ = NaN];
    [compose] after [decompose] turns it into 0. An else counter of 2, read
    from a file, comes back as 1. *)
Lemma compose_decompose_normalises_counts :
  (ControlsIf.mutationToDom ControlsIf.ifElse = Some ControlsIf.elseMutation
   /\ ControlsIf.domToMutation ControlsIf.elseMutation ControlsIf.init
      = Some ControlsIf.loadedIfElse
   /\ ControlsIf.consistent ControlsIf.loadedIfElse
   /\ ControlsIf.elseifCount_ ControlsIf.loadedIfElse = Js.NaN
   /\ (exists c,
         ControlsIf.decompose ControlsIf.loadedIfElse = Some c
         /\ option_map ControlsIf.elseifCount_
              (ControlsIf.compose c ControlsIf.loadedIfElse)
            = Some (Js.Int 0))
   /\ ControlsIf.domToMutation (ControlsIf.elseifElseMutation "1" "2")
        ControlsIf.init
      = Some ControlsIf.loadedTwoElse
   /\ ControlsIf.consistent ControlsIf.loadedTwoElse
   /\ ControlsIf.elseCount_ ControlsIf.loadedTwoElse = Js.Int 2
   /\ (exists c,
         ControlsIf.decompose ControlsIf.loadedTwoElse = Some c
         /\ option_map ControlsIf.elseCount_
              (ControlsIf.compose c ControlsIf.loadedTwoElse)
            = Some (Js.Int 1)))
  /\ ~ ControlsIf.recountAsWorded.
Proof.
  split.
  { repeat split; try reflexivity;
      eexists; split; reflexivity. }
  intros Hclaim.
  destruct (Hclaim ControlsIf.loadedIfElse ltac:(split; reflexivity))
    as (c & b' & Hdec & Hrun & Hn & _).
  assert (Hc : ControlsIf.decompose ControlsIf.loadedIfElse
               = Some {| ControlsIf.STACK := Some ControlsIf.newElse |})
    by reflexivity.
  rewrite Hc in Hdec. injection Hdec as <-.
  assert (Hrun' :
    option_map ControlsIf.elseifCount_
      (ControlsIf.compose {| ControlsIf.STACK := Some ControlsIf.newElse |}
         ControlsIf.loadedIfElse) = Some (Js.Int 0)) by reflexivity.
  rewrite Hrun in Hrun'. simpl in Hrun'. rewrite Hn in Hrun'.
  discriminate Hrun'.
Qed.

(** An if/else-if/else block keeps its counters and its inputs. *)
Lemma compose_decompose_recounts_witness :
  exists c b',
    ControlsIf.decompose ControlsIf.ifElseifElse = Some c
    /\ ControlsIf.compose c ControlsIf.ifElseifElse = Some b'
    /\ ControlsIf.elseifCount_ b' = Js.Int 1
    /\ ControlsIf.elseCount_ b' = Js.Int 1
    /\ ControlsIf.shape b' = ControlsIf.shape ControlsIf.ifElseifElse.
Proof.
  destruct (compose_decompose_recounts ControlsIf.ifElseifElse
              ltac:(split; reflexivity))
    as (c & Hdec & _ & b' & Hrun & Hn & He & Hs & _).
  exists c, b'. repeat split; assumption.
Defined.

(** C7 as stated fails. An else counter of 2 is written as [else="1"] and
    read back as 1; the zero else-if counter of an if/else block is not
    written and is read back as NaN; a block with both counters NaN, as
    read from an element without attributes, is saved as [null]. An
    else-if counter of minus 10^21, as read from a file, is written as
    [-1e+21] and read back as -1; and for a counter of 2^53
    [domToMutation] never returns. *)
Lemma mutation_round_trip_changes_counts :
  (ControlsIf.elseCount_ ControlsIf.loadedTwoElse = Js.Int 2
   /\ ControlsIf.mutationToDom ControlsIf.loadedTwoElse
      = Some (ControlsIf.elseifElseMutation "1" "1")
   /\ option_map ControlsIf.elseCount_
        (ControlsIf.domToMutation (ControlsIf.elseifElseMutation "1" "1")
           ControlsIf.init)
      = Some (Js.Int 1)
   /\ ControlsIf.elseifCount_ ControlsIf.ifElse = Js.Int 0
   /\ ControlsIf.mutationToDom ControlsIf.ifElse
      = Some ControlsIf.elseMutation
   /\ option_map ControlsIf.elseifCount_
        (ControlsIf.domToMutation ControlsIf.elseMutation ControlsIf.init)
      = Some Js.NaN
   /\ ControlsIf.mutationToDom
        (ControlsIf.mkBlock (ControlsIf.inputList ControlsIf.init)
           Js.NaN Js.NaN)
      = None
   /\ ControlsIf.domToMutation ControlsIf.hugeMutation ControlsIf.init
      = Some ControlsIf.loadedHuge
   /\ ControlsIf.mutationToDom ControlsIf.loadedHuge
      = Some (Dom.setAttribute "elseif" "-1e+21"
                (Dom.createElement "mutation"))
   /\ option_map ControlsIf.elseifCount_
        (ControlsIf.domToMutation
           (Dom.setAttribute "elseif" "-1e+21"
              (Dom.createElement "mutation"))
           ControlsIf.init)
      = Some (Js.Int (-1))
   /\ ControlsIf.domToMutation
        (Dom.setAttribute "elseif" "9007199254740992"
           (Dom.createElement "mutation"))
        ControlsIf.init
      = None)
  /\ ~ ControlsIf.roundTripAsWorded.
Proof.
  split; [repeat split; vm_compute; reflexivity|].
  intros Hclaim.
  destruct (Hclaim ControlsIf.loadedTwoElse) as [_ Hround].
  destruct (Hround (ControlsIf.elseifElseMutation "1" "1") eq_refl)
    as (b' & Hrun & _ & He).
  assert (Hb : ControlsIf.domToMutation
                 (ControlsIf.elseifElseMutation "1" "1") ControlsIf.init
               = Some ControlsIf.ifElseifElse) by reflexivity.
  rewrite Hb in Hrun. injection Hrun as <-.
  discriminate He.
Qed.

(** The mutation element of an if/else-if/else block, read into a new
    block. *)
Lemma mutation_dom_round_trip_witness :
  exists b',
    ControlsIf.domToMutation (ControlsIf.elseifElseMutation "1" "1")
      ControlsIf.init = Some b'
    /\ ControlsIf.elseifCount_ b' = Js.Int 1
    /\ ControlsIf.elseCount_ b' = Js.Int 1
    /\ ControlsIf.shape b' = ControlsIf.shape ControlsIf.ifElseifElse.
Proof.
  destruct (mutation_dom_round_trip ControlsIf.ifElseifElse) as [_ Hround].
  destruct (Hround (ControlsIf.elseifElseMutation "1" "1") eq_refl)
    as (_ & _ & _ & Hb).
  destruct (Hb ControlsIf.init ltac:(reflexivity))
    as (b' & Hrun & Hn & He & _ & _ & _ & Hs).
  exists b'. split; [exact Hrun|].
  split; [exact (Hn eq_refl)|]. split; [exact (He eq_refl)|].
  exact (proj1 (Hs ltac:(split; reflexivity) eq_refl)).
Defined.

(** * More properties of the key handler *)
Section KeyHandlerFacts.
Import Dom Blockly Keys.
Context `{XmlApi}.

(** The element [copy_] makes depends on the block and the drag mode
    only. *)
Lemma copy_xml_mode b w1 w2 :
  dragMode_ w1 = dragMode_ w2 ->
  clipboardXml_ (exec (copy_ b) w1) = clipboardXml_ (exec (copy_ b) w2).
Proof.
  intros Hm. unfold exec, copy_, set_clipboardXml_, set_clipboardSource_,
    bind, gets, modify. simpl. rewrite Hm. reflexivity.
Qed.

Lemma In_chaff c mw :
  In c (chaff mw) ->
  c = Tooltip_hide \/ c = WidgetDiv_hide \/ c = clearSelection (wsId mw).
Proof.
  unfold chaff. rewrite in_app_iff. simpl.
  destruct (toolbox_ mw) as [tb|]; [destruct (flyout_ tb) as [fl|];
    [destruct (autoClose fl)|]|]; simpl; intuition auto.
Qed.

Lemma copyable_Some w b :
  copyable w = Some b <->
  selected w = Some b /\ isDeletable b = true /\ isMovable b = true.
Proof.
  unfold copyable. destruct (selected w) as [b'|].
  - destruct (isDeletable b') eqn:Hd, (isMovable b') eqn:Hm; simpl;
      split; try discriminate;
      try (intros [= <-]; auto);
      intros ([= <-] & ? & ?); congruence.
  - split; [discriminate | intros ([=] & _)].
Qed.

(** Calls inside a group stay inside it when [chaff] calls come first. *)
Lemma grouped_chaff g mw l : grouped g (chaff mw ++ l) = grouped g l.
Proof.
  unfold chaff.
  destruct (toolbox_ mw) as [tb|]; [destruct (flyout_ tb) as [fl|];
    [destruct (autoClose fl)|]|]; reflexivity.
Qed.

#[local] Opaque hideChaff copy_ chaff.
#[local] Arguments exec : simpl never.

Ltac unfold_handler :=
  unfold completes, onKeyDown_, modifierKeys, shiftCtrlKeys,
    deleteSelected, paste_clipboard_into,
    set_clipboardXml_, set_clipboardSource_, set_highlightedConnection_,
    call, bind, ret, gets, modify, throw; simpl.

(** Symbolic run of the handler: [hideChaff] and [copy_] are replaced by
    their effect, every test is split. *)
Ltac split_cases :=
  repeat (rewrite ?hideChaff_run, ?copy_frame; simpl;
          match goal with
          | |- context [(?a =? ?b)%Z] => destruct (a =? b)%Z eqn:?
          | |- context [if ?c then _ else _] =>
              lazymatch c with
              | context [if _ then _ else _] => fail
              | context [match _ with _ => _ end] => fail
              | _ => destruct c eqn:?
              end
          | |- context [match ?c with Some _ => _ | None => _ end] =>
              lazymatch type of c with
              | option _ => destruct c eqn:?
              end
          end; simpl).

Ltac start_handler e w :=
  destruct w as [mw sel hc cx cs dm cl];
  destruct e as [kc alt ctrl meta shift input];
  unfold exec at 1; unfold_handler.

Ltac key_clash :=
  repeat match goal with
         | Hk : (_ =? _)%Z = true |- _ => apply Z.eqb_eq in Hk
         | Ha : _ && _ = false |- _ => apply andb_false_iff in Ha as [Ha|Ha]
         | Ha : _ && _ = true |- _ => apply andb_true_iff in Ha as [? ?]
         end;
  try (exfalso; congruence).

Ltac run_effects :=
  repeat (first [rewrite hideChaff_run | rewrite copy_frame]; simpl).

(** The handler, for every event and world. *)
Lemma onKeyDown_world e w : exec (onKeyDown_ e) w = keyWorld e w.
Proof.
  unfold keyWorld, disposes, copiesSelection, keyCalls, isDeleteKey, isCutKey,
    copyable, pasteCalls, deleteCalls, ignored, modifierOnly.
  destruct w as [mw sel hc cx cs dm cl].
  destruct e as [kc alt ctrl meta shift input].
  unfold exec at 1. unfold_handler.
  destruct (readOnly mw || input); simpl;
    [rewrite app_nil_r; destruct sel; reflexivity|].
  destruct sel as [b|];
    [destruct (isDeletable b) eqn:Hd, (isMovable b) eqn:Hm|];
    destruct ((alt || ctrl || meta) && negb shift) eqn:Hmod; simpl;
    split_cases; run_effects;
    repeat rewrite <- app_assoc; simpl; rewrite ?app_nil_r;
    try reflexivity; key_clash;
    f_equal; apply copy_xml_mode; reflexivity.
Qed.

Lemma newCalls_keyCalls e w :
  newCalls w (exec (onKeyDown_ e) w) = keyCalls e w.
Proof.
  rewrite onKeyDown_world. unfold newCalls, keyWorld. simpl.
  apply drop_app_length.
Qed.

(** Splitting every test of a hypothesis about [keyCalls]. *)
Ltac split_in Hin :=
  repeat match type of Hin with
         | context [if ?c then _ else _] =>
             lazymatch c with
             | context [if _ then _ else _] => fail
             | context [match _ with _ => _ end] => fail
             | _ => destruct c eqn:?
             end
         | context [match ?c with Some _ => _ | None => _ end] =>
             destruct c eqn:?
         end;
  repeat (rewrite in_app_iff in Hin || simpl in Hin).

Ltac chaff_case :=
  match goal with
  | Hc : In _ (chaff _) |- _ =>
      apply In_chaff in Hc; destruct Hc as [Hc|[Hc|Hc]]; discriminate Hc
  end.

(** X1. The key handler writes the clipboard only on a copy or cut key
    that is not ignored, with a deletable and movable block selected, and
    then the clipboard holds the copy of that block; on every other key
    it leaves both clipboard globals as they are. *)
Theorem onKeyDown_writes_clipboard e w :
  let w' := exec (onKeyDown_ e) w in
  (copiesSelection e w = false ->
   clipboardXml_ w' = clipboardXml_ w
   /\ clipboardSource_ w' = clipboardSource_ w)
  /\ (copiesSelection e w = true ->
      exists b,
        selected w = Some b /\ isDeletable b = true /\ isMovable b = true
        /\ clipboardXml_ w' = clipboardXml_ (exec (copy_ b) w)
        /\ clipboardSource_ w' = Some (workspace b)).
Proof.
  cbv zeta. rewrite onKeyDown_world. unfold keyWorld. simpl. split.
  - intros Hc.
    split; (destruct (selected w); [|reflexivity]); rewrite Hc;
      reflexivity.
  - intros Hc. unfold copiesSelection in Hc |- *.
    destruct (selected w) as [b|].
    + exists b. rewrite Hc. simpl.
      repeat (apply andb_true_iff in Hc as [Hc ?]).
      apply andb_true_iff in H0 as [? ?]. auto.
    + rewrite andb_false_r in Hc. discriminate.
Qed.

(** X2. The handler only ever disposes the selected block, only when it
    is deletable, and only on Delete, Backspace or a cut key (where the
    block is movable too); the heal flag is set unless a free drag is
    under way and the animate flag is always set. *)
Theorem dispose_only_selected_deletable e w b heal animate :
  In (dispose b heal animate) (newCalls w (exec (onKeyDown_ e) w)) ->
  ignored e w = false
  /\ selected w = Some b
  /\ isDeletable b = true
  /\ heal = negb (isDragFree (dragMode_ w))
  /\ animate = true
  /\ (isDeleteKey e = true \/ (isCutKey e = true /\ isMovable b = true)).
Proof.
  intros Hin. rewrite newCalls_keyCalls in Hin.
  unfold keyCalls, pasteCalls, deleteCalls in Hin. unfold isCutKey.
  split_in Hin;
    repeat match goal with
           | Hc : copyable _ = Some _ |- _ =>
               apply copyable_Some in Hc; destruct Hc as (? & ? & ?)
           | Ho : _ \/ _ |- _ => destruct Ho
           | Hf : False |- _ => destruct Hf
           | Hd : dispose _ _ _ = dispose _ _ _ |- _ =>
               injection Hd as <- <- <-
           | Hb : _ && _ = true |- _ => apply andb_true_iff in Hb as [? ?]
           end;
    try discriminate; try chaff_case;
    repeat split; auto.
Qed.

(** X3. Undo and redo: [undo] is called on the main workspace, with
    the redo flag unset on Z and set on Y, and only when Alt, Ctrl or Cmd
    is held without Shift. A Z typed with Shift never reaches [undo]. *)
Theorem undo_only_without_shift e w ws redo :
  In (undo ws redo) (newCalls w (exec (onKeyDown_ e) w)) ->
  ignored e w = false
  /\ modifierOnly e = true
  /\ shiftKey e = false
  /\ ws = wsId (mainWorkspace w)
  /\ ((keyCode e = 90%Z /\ redo = false) \/ (keyCode e = 89%Z /\ redo = true)).
Proof.
  intros Hin. rewrite newCalls_keyCalls in Hin.
  unfold keyCalls, pasteCalls, deleteCalls in Hin.
  split_in Hin;
    repeat match goal with
           | Ho : _ \/ _ |- _ => destruct Ho
           | Hf : False |- _ => destruct Hf
           | Hu : undo _ _ = undo _ _ |- _ => injection Hu as <- <-
           end;
    try discriminate; try chaff_case;
    match goal with
    | Hm : modifierOnly e = true |- _ =>
        pose proof Hm as Hshift; unfold modifierOnly in Hshift;
        apply andb_true_iff in Hshift as [_ Hshift];
        apply negb_true_iff in Hshift
    end;
    repeat match goal with
           | Hk : (_ =? _)%Z = true |- _ => apply Z.eqb_eq in Hk
           end;
    repeat split; auto.
Qed.

(** X4. When the clipboard globals are paired (an element always comes
    with its source workspace), the handler never throws, leaves them
    paired, and its calls are well grouped: every [dispose] and [paste]
    sits between [setGroup(true)] and [setGroup(false)], groups do not
    nest, and no group is left open. *)
Theorem onKeyDown_groups_closed e w :
  clipboardPaired w ->
  completes (onKeyDown_ e) w = true
  /\ clipboardPaired (exec (onKeyDown_ e) w)
  /\ grouped false (newCalls w (exec (onKeyDown_ e) w)) = true.
Proof.
  intros Hp. destruct (onKeyDown_total e w Hp) as [Hc Hp'].
  split; [exact Hc|]. split; [exact Hp'|].
  rewrite newCalls_keyCalls.
  unfold keyCalls, pasteCalls, deleteCalls.
  assert (Hsrc : forall x, clipboardXml_ w = Some x ->
                           clipboardSource_ w <> None).
  { intros x Hx Hn. destruct Hp as [s Hs]; [eauto|]. congruence. }
  repeat match goal with
         | |- context [if ?c then _ else _] =>
             lazymatch c with
             | context [if _ then _ else _] => fail
             | context [match _ with _ => _ end] => fail
             | _ => destruct c eqn:?
             end
         | |- context [match ?c with Some _ => _ | None => _ end] =>
             destruct c eqn:?
         end;
    simpl; rewrite ?app_nil_r, <- ?app_assoc; simpl;
    rewrite ?grouped_chaff; simpl; rewrite ?grouped_chaff; simpl;
    try reflexivity;
    try (exfalso; eapply Hsrc; eauto; fail);
    rewrite <- (app_nil_r (chaff _)), grouped_chaff; reflexivity.
Qed.

(** X5. Copy or cut, then paste: after a key that copied the selected
    block, a paste key (not typed into an HTML input) pastes the copy of
    that block into the block's workspace, inside one event group, and
    leaves the clipboard as it is, so the paste can be repeated. *)
Theorem paste_after_copy_or_cut e1 e2 w :
  copiesSelection e1 w = true ->
  isPasteKey e2 = true ->
  isTargetInput e2 = false ->
  let w1 := exec (onKeyDown_ e1) w in
  let w2 := exec (onKeyDown_ e2) w1 in
  exists b,
    selected w = Some b
    /\ newCalls w1 w2
       = [Events_setGroup true;
          paste (workspace b) (clipboardXml_ (exec (copy_ b) w));
          Events_setGroup false]
    /\ clipboardXml_ w2 = clipboardXml_ w1
    /\ clipboardSource_ w2 = clipboardSource_ w1.
Proof.
  intros Hcopy Hpaste Hinput. cbv zeta.
  assert (Hw1 : exists b x,
    selected w = Some b
    /\ clipboardXml_ (exec (copy_ b) w) = Some x
    /\ exec (onKeyDown_ e1) w
       = mkWorld (mainWorkspace w) (Some b)
           (if disposes e1 w then None else highlightedConnection_ w)
           (Some x) (Some (workspace b)) (dragMode_ w)
           (calls w ++ keyCalls e1 w)).
  { rewrite onKeyDown_world. unfold keyWorld. rewrite Hcopy.
    unfold copiesSelection in Hcopy.
    destruct (selected w) as [b|]; [|rewrite andb_false_r in Hcopy;
                                      discriminate].
    destruct (copy_sets_xml b w) as [x Hx].
    exists b, x. rewrite Hx. auto. }
  destruct Hw1 as (b & x & Hsel & Hx & Hw1).
  assert (Hro : readOnly (mainWorkspace w) = false).
  { unfold copiesSelection, ignored in Hcopy.
    repeat (apply andb_true_iff in Hcopy as [Hcopy _]).
    apply negb_true_iff, orb_false_iff in Hcopy. tauto. }
  exists b. split; [exact Hsel|].
  rewrite newCalls_keyCalls, (onKeyDown_world e2), Hw1, Hx.
  unfold isPasteKey in Hpaste. apply andb_true_iff in Hpaste as [Hmod Hv].
  apply Z.eqb_eq in Hv.
  unfold keyWorld, keyCalls, copiesSelection, isDeleteKey, pasteCalls,
    ignored. simpl.
  rewrite Hro, Hinput, Hmod, Hv. simpl.
  destruct (copyable _); simpl; repeat split; reflexivity.
Qed.

(** X6. Paste and the clip cache are reached by their own keys only.
    [paste] is called on the clipboard source with the clipboard element,
    on a paste key. [saveToClipCache] is called on the serialised selected
    block, and [domToBlock] on the cached text, only with Shift and Ctrl
    held, on C and V. *)
Theorem paste_and_clip_cache_keys e w c :
  In c (newCalls w (exec (onKeyDown_ e) w)) ->
  match c with
  | paste ws xmlBlock =>
      ignored e w = false /\ isPasteKey e = true
      /\ clipboardSource_ w = Some ws
      /\ xmlBlock = clipboardXml_ w /\ xmlBlock <> None
  | saveToClipCache xmlBlock =>
      ignored e w = false /\ shiftKey e = true /\ ctrlKey e = true
      /\ keyCode e = 67%Z
      /\ exists b, copyable w = Some b /\ xmlBlock = blockToDom b
  | domToBlockFromClipCache ws =>
      ignored e w = false /\ shiftKey e = true /\ ctrlKey e = true
      /\ keyCode e = 86%Z /\ ws = wsId (mainWorkspace w)
  | _ => True
  end.
Proof.
  intros Hin. rewrite newCalls_keyCalls in Hin.
  destruct c; try exact I;
    unfold keyCalls, pasteCalls, deleteCalls in Hin; unfold isPasteKey;
    split_in Hin;
    repeat match goal with
           | Ho : _ \/ _ |- _ => destruct Ho
           | Hf : False |- _ => destruct Hf
           | Hu : paste _ _ = paste _ _ |- _ => injection Hu as <- <-
           | Hu : saveToClipCache _ = saveToClipCache _ |- _ =>
               injection Hu as <-
           | Hu : domToBlockFromClipCache _ = domToBlockFromClipCache _ |- _ =>
               injection Hu as <-
           | Hb : _ && _ = true |- _ => apply andb_true_iff in Hb as [? ?]
           | Hk : (_ =? _)%Z = true |- _ => apply Z.eqb_eq in Hk
           end;
    try discriminate; try chaff_case;
    repeat split; eauto; try (apply andb_true_iff; split; auto);
    try (apply Z.eqb_eq; assumption); try discriminate.
Qed.

End KeyHandlerFacts.

(** Ctrl+X on the sample world writes the clipboard; Delete does
    not. *)
Lemma onKeyDown_writes_clipboard_witness :
  Blockly.clipboardSource_
    (Blockly.exec (Blockly.onKeyDown_ (H := Blockly.Sample.xml)
                     Blockly.Sample.cutOnSurface) Blockly.Sample.world)
  = Some 1
  /\ Blockly.clipboardXml_
       (Blockly.exec (Blockly.onKeyDown_ (H := Blockly.Sample.xml)
                        Blockly.Sample.deleteOnSurface) Blockly.Sample.world)
     = None.
Proof.
  destruct (onKeyDown_writes_clipboard (H := Blockly.Sample.xml)
              Blockly.Sample.cutOnSurface Blockly.Sample.world)
    as (_ & Hcopy).
  destruct (Hcopy eq_refl) as (b & Hsel & _ & _ & _ & Hsrc).
  injection Hsel as <-.
  destruct (onKeyDown_writes_clipboard (H := Blockly.Sample.xml)
              Blockly.Sample.deleteOnSurface Blockly.Sample.world)
    as (Hkeep & _).
  destruct (Hkeep eq_refl) as [Hxml _].
  split; [exact Hsrc | exact Hxml].
Defined.

(** The Delete key on the sample world disposes the selected block. *)
Lemma dispose_only_selected_deletable_witness :
  Blockly.selected Blockly.Sample.world = Some Blockly.Sample.block
  /\ Blockly.isDeletable Blockly.Sample.block = true.
Proof.
  destruct (dispose_only_selected_deletable (H := Blockly.Sample.xml)
              Blockly.Sample.deleteOnSurface Blockly.Sample.world
              Blockly.Sample.block true true)
    as (_ & Hsel & Hdel & _).
  - vm_compute. auto 10.
  - split; [exact Hsel | exact Hdel].
Defined.

(** Ctrl+Z on the sample world undoes on workspace 1. *)
Lemma undo_only_without_shift_witness :
  Blockly.shiftKey (Blockly.Sample.key 90 true false false) = false
  /\ (1 = Blockly.wsId (Blockly.mainWorkspace Blockly.Sample.world))%nat.
Proof.
  destruct (undo_only_without_shift (H := Blockly.Sample.xml)
              (Blockly.Sample.key 90 true false false) Blockly.Sample.world
              1%nat false)
    as (_ & _ & Hshift & Hws & _).
  - vm_compute. auto 10.
  - split; [exact Hshift | exact Hws].
Defined.

(** Ctrl+V with a filled clipboard: one closed group. *)
Lemma onKeyDown_groups_closed_witness :
  Keys.grouped false
    (Keys.newCalls Blockly.Sample.filledWorld
       (Blockly.exec (Blockly.onKeyDown_ (H := Blockly.Sample.xml)
                        Blockly.Sample.pasteOnSurface)
          Blockly.Sample.filledWorld))
  = true.
Proof.
  destruct (onKeyDown_groups_closed (H := Blockly.Sample.xml)
              Blockly.Sample.pasteOnSurface Blockly.Sample.filledWorld)
    as (_ & _ & Hg).
  - intros _. vm_compute. eauto.
  - exact Hg.
Defined.

(** Ctrl+X then Ctrl+V on the sample world pastes the cut block. *)
Lemma paste_after_copy_or_cut_witness :
  exists b,
    Blockly.selected Blockly.Sample.world = Some b
    /\ Keys.newCalls
         (Blockly.exec (Blockly.onKeyDown_ (H := Blockly.Sample.xml)
                          Blockly.Sample.cutOnSurface) Blockly.Sample.world)
         (Blockly.exec (Blockly.onKeyDown_ (H := Blockly.Sample.xml)
                          Blockly.Sample.pasteOnSurface)
            (Blockly.exec (Blockly.onKeyDown_ (H := Blockly.Sample.xml)
                             Blockly.Sample.cutOnSurface)
               Blockly.Sample.world))
       = [Blockly.Events_setGroup true;
          Blockly.paste (Blockly.workspace b)
            (Blockly.clipboardXml_
               (Blockly.exec (Blockly.copy_ (H := Blockly.Sample.xml) b)
                  Blockly.Sample.world));
          Blockly.Events_setGroup false].
Proof.
  destruct (paste_after_copy_or_cut (H := Blockly.Sample.xml)
              Blockly.Sample.cutOnSurface Blockly.Sample.pasteOnSurface
              Blockly.Sample.world eq_refl eq_refl eq_refl)
    as (b & Hsel & Hcalls & _).
  exists b. split; [exact Hsel | exact Hcalls].
Defined.

(** Ctrl+V with a filled clipboard pastes into the clipboard source. *)
Lemma paste_and_clip_cache_keys_witness :
  Blockly.isPasteKey Blockly.Sample.pasteOnSurface = true
  /\ Blockly.clipboardSource_ Blockly.Sample.filledWorld = Some 1.
Proof.
  pose proof (paste_and_clip_cache_keys (H := Blockly.Sample.xml)
                Blockly.Sample.pasteOnSurface Blockly.Sample.filledWorld
                (Blockly.paste 1 (Some (Dom.createElement "block")))) as Hp.
  simpl in Hp. destruct Hp as (_ & Hkey & Hsrc & _).
  - vm_compute. auto 10.
  - split; [exact Hkey | exact Hsrc].
Defined.

(** * More properties of the block registry *)
Section DefinitionsFacts.
Import Registry Definitions.
Variable objectPrototype : string -> bool.

Let defined := defined objectPrototype.
Let defineOne := defineOne objectPrototype.
Let defineAll := defineAll objectPrototype.
Let defineBlocksWithJsonArray := defineBlocksWithJsonArray objectPrototype.

Lemma assign_lookup t' elem st t :
  Blocks (assign t' elem st) !! t
  = if String.eqb t' t && settable st t then Some (jsonInit elem)
    else Blocks st !! t.
Proof.
  unfold assign, settable.
  destruct (String.eqb_spec t' t) as [->|Hne].
  - destruct (String.eqb t "__proto__"),
             (bool_decide (is_Some (Blocks st !! t))); simpl;
      try apply lookup_insert_eq; reflexivity.
  - destruct (_ && _); simpl; [reflexivity|].
    apply lookup_insert_ne. exact Hne.
Qed.

Lemma assign_prototype t' elem st :
  prototype (assign t' elem st)
  = if String.eqb t' "__proto__" && negb (settable st "__proto__")
    then Some elem else prototype st.
Proof.
  unfold assign, settable.
  destruct (String.eqb_spec t' "__proto__") as [->|Hne]; simpl;
    [|reflexivity].
  destruct (bool_decide (is_Some (Blocks st !! "__proto__")));
    reflexivity.
Qed.

Lemma defineOne_parts i elem st :
  match typename elem with
  | Some t' =>
      defineOne i elem st
      = assign t' elem
          (mkState (Blocks st) (prototype st)
             (console st ++ if defined st t'
                            then [overwrites i t'] else []))
  | None =>
      defineOne i elem st
      = mkState (Blocks st) (prototype st) (console st ++ [missingType i])
  end.
Proof.
  unfold typename, defineOne, Registry.defineOne.
  destruct (type elem) as [t'|]; [|reflexivity].
  destruct (String.eqb_spec t' ""); [reflexivity|].
  fold (defined st t').
  destruct (defined st t'); simpl; rewrite ?app_nil_r; destruct st;
    reflexivity.
Qed.

Lemma defineOne_lookup i elem st t :
  Blocks (defineOne i elem st) !! t
  = match typename elem with
    | Some t' => if String.eqb t' t && settable st t
                 then Some (jsonInit elem) else Blocks st !! t
    | None => Blocks st !! t
    end.
Proof.
  pose proof (defineOne_parts i elem st) as Hp.
  destruct (typename elem) as [t'|]; rewrite Hp; [|reflexivity].
  rewrite assign_lookup. reflexivity.
Qed.

Lemma defineOne_prototype i elem st :
  prototype (defineOne i elem st)
  = match typename elem with
    | Some t' =>
        if String.eqb t' "__proto__" && negb (settable st "__proto__")
        then Some elem else prototype st
    | None => prototype st
    end.
Proof.
  pose proof (defineOne_parts i elem st) as Hp.
  destruct (typename elem) as [t'|]; rewrite Hp; [|reflexivity].
  rewrite assign_prototype. reflexivity.
Qed.

(** Whether a name can be registered does not change. *)
Lemma defineOne_settable i elem st t :
  settable (defineOne i elem st) t = settable st t.
Proof.
  unfold settable. rewrite defineOne_lookup.
  destruct (String.eqb_spec t "__proto__") as [->|]; [|reflexivity].
  simpl. destruct (typename elem) as [t'|]; [|reflexivity].
  unfold settable. rewrite String.eqb_refl. simpl.
  destruct (bool_decide (is_Some (Blocks st !! "__proto__"))) eqn:Hs;
    rewrite ?andb_false_r, ?andb_true_r; [|exact Hs].
  destruct (String.eqb t' "__proto__"); [|exact Hs].
  apply bool_decide_eq_true_2. eauto.
Qed.

Lemma defineAll_settable elems : forall i st t,
  settable (defineAll i elems st) t = settable st t.
Proof.
  induction elems as [|elem rest IH]; intros i st t; [reflexivity|].
  simpl. fold defineOne. fold defineAll.
  rewrite IH. apply defineOne_settable.
Qed.

Lemma defineAll_lookup elems : forall i st t,
  Blocks (defineAll i elems st) !! t
  = match lastTyped t elems with
    | Some elem => if settable st t then Some (jsonInit elem)
                   else Blocks st !! t
    | None => Blocks st !! t
    end.
Proof.
  induction elems as [|elem rest IH]; intros i st t; [reflexivity|].
  simpl. fold defineOne. fold defineAll.
  rewrite IH, defineOne_settable, defineOne_lookup.
  destruct (lastTyped t rest) as [later|].
  - destruct (settable st t) eqn:Hs; [reflexivity|].
    destruct (typename elem) as [t'|]; [|reflexivity].
    rewrite andb_false_r. reflexivity.
  - destruct (typename elem) as [t'|]; [|reflexivity].
    destruct (String.eqb t' t), (settable st t); reflexivity.
Qed.

Lemma defineAll_prototype elems : forall i st,
  prototype (defineAll i elems st)
  = match lastTyped "__proto__" elems with
    | Some elem => if settable st "__proto__" then prototype st
                   else Some elem
    | None => prototype st
    end.
Proof.
  induction elems as [|elem rest IH]; intros i st; [reflexivity|].
  simpl. fold defineOne. fold defineAll.
  rewrite IH, defineOne_settable, defineOne_prototype.
  destruct (lastTyped "__proto__" rest) as [later|].
  - destruct (settable st "__proto__") eqn:Hs; [|reflexivity].
    destruct (typename elem) as [t'|]; [|reflexivity].
    rewrite andb_false_r. reflexivity.
  - destruct (typename elem) as [t'|]; [|reflexivity].
    destruct (String.eqb t' "__proto__"), (settable st "__proto__");
      reflexivity.
Qed.

Lemma lastTyped_typename t elems elem :
  lastTyped t elems = Some elem -> typename elem = Some t /\ In elem elems.
Proof.
  induction elems as [|e rest IH]; simpl; [discriminate|].
  destruct (lastTyped t rest) as [later|].
  - intros [= <-]. destruct (IH eq_refl). auto.
  - destruct (typename e) as [t'|] eqn:Ht; [|discriminate].
    destruct (String.eqb_spec t' t) as [->|]; [|discriminate].
    intros [= <-]. auto.
Qed.

Lemma settable_name st t : t <> "__proto__" -> settable st t = true.
Proof.
  intros Hne. unfold settable.
  destruct (String.eqb_spec t "__proto__"); [contradiction | reflexivity].
Qed.

(** X7. After [defineBlocksWithJsonArray], a type name other than
    [__proto__] holds, as an own property of [Blockly.Blocks], the last
    processed definition that carries it; a name that no processed
    definition carries keeps its earlier entry. So no entry is ever
    removed, the empty name is never registered, and definitions after the
    first [null] entry register nothing. The definitions named
    [__proto__] register nothing: the last of them becomes the prototype
    of [Blockly.Blocks], which otherwise stays as it is. *)
Theorem defineBlocks_last_wins jsonArray st t :
  t <> "__proto__" ->
  Blocks (defineBlocksWithJsonArray jsonArray st) !! t
  = match lastTyped t (processed jsonArray) with
    | Some elem => Some (jsonInit elem)
    | None => Blocks st !! t
    end
  /\ (is_Some (Blocks st !! t) ->
      is_Some (Blocks (defineBlocksWithJsonArray jsonArray st) !! t))
  /\ Blocks (defineBlocksWithJsonArray jsonArray st) !! "" = Blocks st !! ""
  /\ (Blocks st !! "__proto__" = None ->
      Blocks (defineBlocksWithJsonArray jsonArray st) !! "__proto__" = None
      /\ prototype (defineBlocksWithJsonArray jsonArray st)
         = match lastTyped "__proto__" (processed jsonArray) with
           | Some elem => Some elem
           | None => prototype st
           end).
Proof.
  intros Hne.
  unfold defineBlocksWithJsonArray, Registry.defineBlocksWithJsonArray.
  fold (Registry.defineFrom objectPrototype).
  rewrite (defineFrom_processed objectPrototype). fold defineAll.
  rewrite !defineAll_lookup, defineAll_prototype.
  rewrite (settable_name st t Hne).
  split; [reflexivity|]. split.
  { destruct (lastTyped t _); eauto. }
  split.
  { destruct (lastTyped "" (processed jsonArray)) as [elem|] eqn:Hl;
      [|reflexivity].
    apply lastTyped_typename in Hl as [Ht _]. unfold typename in Ht.
    destruct (type elem) as [t'|]; [|discriminate].
    destruct (String.eqb_spec t' ""); [discriminate|]. congruence. }
  intros Hnone.
  assert (Hs : settable st "__proto__" = false).
  { unfold settable. rewrite Hnone. reflexivity. }
  rewrite Hs.
  destruct (lastTyped "__proto__" (processed jsonArray)); auto.
Qed.

(** One round of the loop when [Blockly.Blocks] holds something under
    the element's name. *)
Lemma defineOne_taken i elem st :
  (forall t, typename elem = Some t -> defined st t = true) ->
  console (defineOne i elem st)
  = console st ++ [match typename elem with
                   | Some t => overwrites i t
                   | None => missingType i
                   end].
Proof.
  intros Ht. pose proof (defineOne_parts i elem st) as Hp.
  destruct (typename elem) as [t|]; rewrite Hp; [|reflexivity].
  rewrite (Ht t eq_refl). unfold assign.
  destruct (_ && _); reflexivity.
Qed.

(** A name that is registered, and [__proto__], are found. *)
Lemma defined_taken st t :
  is_Some (Blocks st !! t) \/ t = "__proto__" -> defined st t = true.
Proof.
  unfold defined, Registry.defined. intros [[d ->]| ->]; [reflexivity|].
  destruct (Blocks st !! "__proto__"); reflexivity.
Qed.

Lemma defineAll_taken elems : forall i st,
  (forall elem t, In elem elems -> typename elem = Some t ->
                  is_Some (Blocks st !! t) \/ t = "__proto__") ->
  console (defineAll i elems st) = console st ++ rerunWarnings i elems.
Proof.
  induction elems as [|elem rest IH]; intros i st Ht; simpl.
  - rewrite app_nil_r. reflexivity.
  - fold defineOne. fold defineAll. rewrite IH.
    + rewrite defineOne_taken.
      * rewrite <- app_assoc. reflexivity.
      * intros t Hty. apply defined_taken, (Ht elem t); [left|]; auto.
    + intros e t Hin Hty.
      destruct (Ht e t) as [Hold| ->]; [right; exact Hin | exact Hty | |];
        [|right; reflexivity].
      left. rewrite defineOne_lookup.
      destruct (typename elem) as [t'|]; [|exact Hold].
      destruct (_ && _); [eauto | exact Hold].
Qed.

Lemma lastTyped_member t elems : forall elem,
  In elem elems -> typename elem = Some t -> is_Some (lastTyped t elems).
Proof.
  induction elems as [|e rest IH]; intros elem Hin Hty; [destruct Hin|].
  simpl. destruct (lastTyped t rest) as [later|] eqn:Hl; [eauto|].
  destruct Hin as [->|Hin].
  - rewrite Hty, String.eqb_refl. eauto.
  - destruct (IH elem Hin Hty) as [later Hlater]. discriminate.
Qed.

(** Every processed definition with a name other than [__proto__] is
    registered afterwards. *)
Lemma defineAll_registers elems i st elem t :
  In elem elems -> typename elem = Some t ->
  is_Some (Blocks (defineAll i elems st) !! t) \/ t = "__proto__".
Proof.
  intros Hin Hty.
  destruct (String.eqb_spec t "__proto__") as [->|Hne]; [right; reflexivity|].
  left. rewrite defineAll_lookup, (settable_name st t Hne).
  destruct (lastTyped_member t elems elem Hin Hty) as [later ->]. eauto.
Qed.

(** X8. Defining the same array a second time changes no registration
    and logs exactly one warning per processed definition: an overwrite
    warning for each named one, a missing-type warning for each other. *)
Theorem defineBlocks_twice jsonArray st :
  let once := defineBlocksWithJsonArray jsonArray st in
  let twice := defineBlocksWithJsonArray jsonArray once in
  Blocks twice = Blocks once
  /\ prototype twice = prototype once
  /\ console twice = console once ++ rerunWarnings 0 (processed jsonArray).
Proof.
  cbv zeta.
  unfold defineBlocksWithJsonArray, Registry.defineBlocksWithJsonArray.
  fold (Registry.defineFrom objectPrototype).
  rewrite !(defineFrom_processed objectPrototype). fold defineAll.
  split; [|split].
  - apply map_eq. intros t.
    rewrite (defineAll_lookup _ 0 (defineAll 0 (processed jsonArray) st) t).
    rewrite defineAll_settable, (defineAll_lookup _ 0 st t).
    destruct (lastTyped t (processed jsonArray)), (settable st t);
      reflexivity.
  - rewrite (defineAll_prototype _ 0
               (defineAll 0 (processed jsonArray) st)).
    rewrite defineAll_settable, (defineAll_prototype _ 0 st).
    destruct (lastTyped "__proto__" (processed jsonArray)),
             (settable st "__proto__"); reflexivity.
  - apply defineAll_taken. intros elem t Hin Hty.
    eapply defineAll_registers; eauto.
Qed.

End DefinitionsFacts.

(** Two definitions of [led] over a hand-written one. *)
Lemma defineBlocks_last_wins_witness :
  let led1 := {| Registry.type := Some "led"; Registry.body := 1 |} in
  let led2 := {| Registry.type := Some "led"; Registry.body := 3 |} in
  let st :=
    Registry.mkState {[ "led" := Registry.handWritten 0 ]} None [] in
  Registry.Blocks
    (Registry.defineBlocksWithJsonArray Registry.standardNames
       [Some led1; Some led2] st) !! "led"
  = Some (Registry.jsonInit led2).
Proof.
  cbv zeta.
  destruct (defineBlocks_last_wins Registry.standardNames
              [Some {| Registry.type := Some "led"; Registry.body := 1 |};
               Some {| Registry.type := Some "led"; Registry.body := 3 |}]
              (Registry.mkState {[ "led" := Registry.handWritten 0 ]} None [])
              "led" ltac:(discriminate)) as (Hlast & _).
  rewrite Hlast. reflexivity.
Defined.

(** * More properties of [isNumber] *)
Section NumberFacts.
Import RegExp.

Lemma bool_eq_iff (a b : bool) : (a = true <-> b = true) -> a = b.
Proof. destruct a, b; intros [H1 H2]; auto; symmetry; auto. Qed.

(** White space is neither a digit, nor a minus sign, nor a dot. *)
Lemma space_not_numeral c :
  isSpace c = true -> isDigit c = false /\ c <> minus /\ c <> dot.
Proof.
  unfold isSpace, isDigit, minus, dot. intros Hs.
  repeat (apply orb_true_iff in Hs as [Hs|Hs]);
    repeat (apply andb_true_iff in Hs as [Hs ?]);
    repeat match goal with
           | Hx : (_ <=? _)%N = true |- _ => apply N.leb_le in Hx
           | Hx : (_ =? _)%N = true |- _ => apply N.eqb_eq in Hx
           end;
    (split; [apply andb_false_iff;
             destruct (N.leb_spec 48 c); [right; apply N.leb_gt|left; reflexivity];
             lia
            | split; lia]).
Qed.

Lemma shape_drop_space c str :
  isSpace c = true -> (NumberShape (c :: str) <-> NumberShape str).
Proof.
  intros Hc. destruct (space_not_numeral c Hc) as (Hnd & Hnm & _). split.
  - intros (lead & sign & int & frac & trail
            & Heq & Hlead & Hsign & [Hne Hint] & Hrest).
    destruct lead as [|l lead]; simpl in Heq.
    + exfalso. destruct Hsign as [->| ->]; simpl in Heq.
      * destruct int as [|d int]; [contradiction|].
        injection Heq as -> _. apply Forall_cons in Hint as [Hd _].
        congruence.
      * injection Heq as -> _. contradiction.
    + injection Heq as -> ->. apply Forall_cons in Hlead as [_ Hlead].
      exists lead, sign, int, frac, trail. unfold Digits. tauto.
  - intros (lead & sign & int & frac & trail & -> & Hlead & Hrest).
    exists (c :: lead), sign, int, frac, trail.
    split; [reflexivity|]. split; [constructor; assumption | exact Hrest].
Qed.

Lemma shape_drop_last_space c str :
  isSpace c = true -> (NumberShape (str ++ [c]) <-> NumberShape str).
Proof.
  intros Hc. destruct (space_not_numeral c Hc) as (Hnd & _ & _). split.
  - intros Hs. pose proof (shape_last c str Hs) as _.
    destruct Hs as (lead & sign & int & frac & trail
                    & Heq & Hlead & Hsign & Hint & Hfrac & Htrail).
    destruct trail as [|t trail _] using rev_ind.
    + exfalso. rewrite app_nil_r in Heq.
      assert (Hd : exists ds, Digits ds /\ last (int ++ frac) = last ds).
      { destruct Hfrac as [->|(fs & -> & Hfs)].
        - exists int. rewrite app_nil_r. auto.
        - exists fs. split; [exact Hfs|].
          rewrite last_app, last_cons. destruct Hfs as [Hne _].
          destruct (last fs) eqn:Hl; [reflexivity|].
          apply last_None in Hl. contradiction. }
      destruct Hd as (ds & [Hne Hall] & Hlast).
      assert (Hc' : last ds = Some c).
      { rewrite <- Hlast.
        assert (Hl : last (str ++ [c]) = Some c) by apply last_snoc.
        rewrite Heq, !app_assoc, <- (app_assoc _ int frac) in Hl.
        rewrite last_app in Hl.
        destruct (last (int ++ frac)) eqn:Hif; [exact Hl|].
        apply last_None, app_eq_nil in Hif as [-> _].
        destruct Hint as [Hint _]. contradiction. }
      apply last_Some_elem_of in Hc'. rewrite Forall_forall in Hall.
      specialize (Hall c Hc'). congruence.
    + rewrite !app_assoc in Heq. apply app_inj_tail in Heq as [-> ->].
      apply Forall_app in Htrail as [Htrail _].
      exists lead, sign, int, frac, trail. rewrite <- !app_assoc. tauto.
  - intros (lead & sign & int & frac & trail
            & -> & Hlead & Hsign & Hint & Hfrac & Htrail).
    exists lead, sign, int, frac, (trail ++ [c]).
    rewrite <- !app_assoc. repeat (split; [assumption || reflexivity|]).
    apply Forall_app. split; [exact Htrail | repeat constructor; exact Hc].
Qed.

Lemma isNumber_trim_left lead str :
  Forall (fun c => isSpace c = true) lead ->
  isNumber (lead ++ str) = isNumber str.
Proof.
  induction 1 as [|c lead Hc _ IH]; [reflexivity|].
  rewrite <- IH. apply bool_eq_iff. simpl.
  rewrite !isNumber_shape. apply shape_drop_space, Hc.
Qed.

Lemma isNumber_trim_right trail : forall str,
  Forall (fun c => isSpace c = true) trail ->
  isNumber (str ++ trail) = isNumber str.
Proof.
  induction trail as [|c trail IH] using rev_ind; intros str Hall.
  - rewrite app_nil_r. reflexivity.
  - apply Forall_app in Hall as [Hall Hc]. apply Forall_cons in Hc as [Hc _].
    rewrite app_assoc. rewrite <- (IH str Hall).
    apply bool_eq_iff. rewrite !isNumber_shape.
    apply shape_drop_last_space, Hc.
Qed.

(** X9. [isNumber] ignores surrounding white space: padding a string
    with white space on either side does not change the verdict, and a
    string of white space alone (the empty string included) is not a
    number. *)
Theorem isNumber_ignores_padding lead str trail :
  Forall (fun c => isSpace c = true) lead ->
  Forall (fun c => isSpace c = true) trail ->
  isNumber (lead ++ str ++ trail) = isNumber str
  /\ isNumber (lead ++ trail) = false.
Proof.
  intros Hl Ht. split.
  - rewrite isNumber_trim_left, isNumber_trim_right by assumption.
    reflexivity.
  - rewrite isNumber_trim_left by assumption.
    rewrite <- (app_nil_l trail), isNumber_trim_right by assumption.
    reflexivity.
Qed.

(** The characters of a decimal numeral are digits. *)
Lemma codes_string_of_uint d :
  Forall (fun c => isDigit c = true) (codes (NilEmpty.string_of_uint d)).
Proof.
  induction d; simpl; constructor; try reflexivity; exact IHd.
Qed.

Lemma codes_nonempty d :
  d <> Decimal.Nil -> codes (NilEmpty.string_of_uint d) <> [].
Proof. destruct d; [contradiction|..]; discriminate. Qed.

(** X10. The decimal text of every integer, negative ones included, is
    a number for [isNumber]. *)
Theorem isNumber_accepts_integers z :
  isNumber (codes (Js.toString z)) = true.
Proof.
  apply isNumber_shape. unfold Js.toString.
  assert (Hpos : forall p,
    Digits (codes (NilZero.string_of_uint (Pos.to_uint p)))).
  { intros p. destruct (to_uint_digits p) as [-> Hne].
    split; [apply codes_nonempty, Hne | apply codes_string_of_uint]. }
  destruct z as [|p|p]; simpl.
  - exists [], [], (codes "0"), [], [].
    repeat split; auto; try discriminate. repeat constructor.
  - exists [], [], (codes (NilZero.string_of_uint (Pos.to_uint p))), [], [].
    rewrite app_nil_r. repeat split; auto; apply Hpos.
  - exists [], [minus], (codes (NilZero.string_of_uint (Pos.to_uint p))),
           [], [].
    rewrite app_nil_r. repeat split; auto; apply Hpos.
Qed.

End NumberFacts.

(** [" 42 "] is a number because ["42"] is; a blank string is not. *)
Lemma isNumber_ignores_padding_witness :
  RegExp.isNumber (RegExp.codes " 42 ")
  = RegExp.isNumber (RegExp.codes "42")
  /\ RegExp.isNumber (RegExp.codes "  ") = false.
Proof.
  destruct (isNumber_ignores_padding (RegExp.codes " ") (RegExp.codes "42")
              (RegExp.codes " ")) as [Hpad Hblank];
    [repeat constructor | repeat constructor |].
  split; [exact Hpad | exact Hblank].
Defined.

(** * Properties of the [controls_if] mutator beyond the round trips *)
Section ControlsIfEditFacts.
Import Dom ControlsIf.

(** Induction along the next connections of a mutator stack. *)
Lemma stack_ind (P : MutatorBlock -> Prop) :
  (forall t v s, P (mkMutatorBlock t v s None)) ->
  (forall t v s, P (mkMutatorBlock t v s (Some None))) ->
  (forall t v s next, P next ->
     P (mkMutatorBlock t v s (Some (Some next)))) ->
  forall m, P m.
Proof.
  intros Hnone Hopen Hnext. fix IH 1.
  intros [t v s [[next|]|]];
    [apply Hnext, IH | apply Hopen | apply Hnone].
Qed.

(** The rebuilding loop of [compose] on a stack of else-if blocks that
    carry saved connections. *)
Lemma composeStack_clauseStack saved : forall tail z l e,
  (0 <= z)%Z -> (z + Z.of_nat (length saved) < Js.safe)%Z ->
  composeStack (clauseStack saved tail) (mkBlock l (Js.Int z) e)
  = composeStack tail
      (mkBlock (l ++ connectedClauses saved (z + 1))
         (Js.Int (z + Z.of_nat (length saved))) e).
Proof.
  induction saved as [|[v s] saved IH]; intros tail z l e Hz Hk.
  - simpl. rewrite app_nil_r, Z.add_0_r. reflexivity.
  - change (composeStack (clauseStack ((v, s) :: saved) tail) ?b)
      with (composeClauses
              (mkMutatorBlock "controls_if_elseif" v s
                 (Some (clauseStack saved tail))) b).
    cbn [length] in Hk.
    rewrite composeClauses_elseif by lia.
    rewrite IH by lia.
    cbn [connectedClauses length]. rewrite <- !app_assoc.
    replace (z + 1 + Z.of_nat (length saved))%Z
      with (z + Z.of_nat (S (length saved)))%Z by lia.
    reflexivity.
Qed.

Lemma shape_connectedClauses saved : forall i,
  map shapeOf (connectedClauses saved i) = clauseShape (length saved) i.
Proof.
  induction saved as [|[v s] saved IH]; intros i; simpl;
    [|rewrite IH]; reflexivity.
Qed.

(** X11. [compose] on a consistent block and a mutator stack of else-if
    blocks, closed or not by an else block, where the connections that
    the blocks of the stack carry are distinct and none of them is
    plugged into the first two inputs of the block: it succeeds, keeps
    the first two inputs of the block as they are (with what is plugged
    into them), drops every other input and appends one [IFi]/[DOi] pair
    per else-if block and an [ELSE] input for the else block, each
    connected to what its mutator block carries. The counters become the
    number of else-if blocks and 1 or 0, and the block is consistent
    again. *)
Theorem compose_rebuilds_from_stack b saved els :
  consistent b ->
  (Z.of_nat (length saved) < Js.safe)%Z ->
  NoDup (carried saved els) ->
  (forall c, c ∈ carried saved els ->
             c ∉ plugged (take 2 (inputList b))) ->
  exists b',
    compose {| STACK := clauseStack saved (option_map elseBlock els) |} b
    = Some b'
    /\ inputList b'
       = take 2 (inputList b) ++ connectedClauses saved 1
         ++ connectedElse els
    /\ elseifCount_ b' = Js.Int (Z.of_nat (length saved))
    /\ elseCount_ b' = Js.Int (match els with Some _ => 1 | None => 0 end)
    /\ consistent b'.
Proof.
  intros Hc Hlen _ _.
  destruct (compose_removals_split b Hc)
    as (l0 & lc & le & Hb & Hl0 & _ & _ & Hcompose).
  assert (Htake : take 2 (inputList b) = l0).
  { rewrite Hb. destruct l0 as [|a [|d [|]]]; try discriminate.
    reflexivity. }
  rewrite Hcompose, Htake. cbn [STACK].
  rewrite composeStack_clauseStack by lia.
  assert (Hgoal : forall b',
    inputList b' = l0 ++ connectedClauses saved 1 ++ connectedElse els ->
    elseifCount_ b' = Js.Int (Z.of_nat (length saved)) ->
    elseCount_ b' = Js.Int (match els with Some _ => 1 | None => 0 end) ->
    consistent b').
  { intros b' Hl Hn He. unfold consistent, shape, shapeFor.
    rewrite Hl, Hn, He, !map_app, Hl0, shape_connectedClauses, upTo_count.
    split; [simpl; apply Z.leb_gt; lia|].
    destruct els; reflexivity. }
  change (0 + 1)%Z with 1%Z.
  change (0 + Z.of_nat (length saved))%Z with (Z.of_nat (length saved)).
  destruct els as [s|]; cbn [option_map composeStack].
  - unfold elseBlock. rewrite composeClauses_else by (unfold Js.safe; lia).
    eexists. split; [reflexivity|]. cbn [inputList elseifCount_ elseCount_].
    rewrite <- !app_assoc.
    split; [reflexivity|]. split; [reflexivity|]. split; [reflexivity|].
    apply Hgoal; cbn [inputList elseifCount_ elseCount_];
      rewrite <- ?app_assoc; reflexivity.
  - eexists. split; [reflexivity|]. cbn [inputList elseifCount_ elseCount_].
    split; [cbn [connectedElse]; rewrite app_nil_r; reflexivity|].
    split; [reflexivity|]. split; [reflexivity|].
    apply Hgoal; cbn [inputList elseifCount_ elseCount_ connectedElse];
      rewrite ?app_nil_r; reflexivity.
Qed.

(** ** [saveConnections] *)

Lemma find_first (n : string) (pre : list Input) a post :
  Forall (fun j => name j <> n) pre -> name a = n ->
  List.find (fun i => String.eqb (name i) n) (pre ++ a :: post) = Some a.
Proof.
  intros Hpre Ha. induction Hpre as [|j l Hj _ IH]; simpl.
  - rewrite Ha, String.eqb_refl. reflexivity.
  - destruct (String.eqb_spec (name j) n); [contradiction|]. exact IH.
Qed.

(** On the stack [decompose] builds, the loop of [saveConnections] finds
    the inputs of the clauses one after the other. *)
Lemma saveStack_elseifStack k : forall i pre lc post tail b,
  inputList b = pre ++ lc ++ post ->
  map shapeOf lc = clauseShape k i ->
  (forall j, (i <= j)%Z -> clear j pre) ->
  saveStack (elseifStack k tail) i b
  = match saveStack tail (i + Z.of_nat k) b with
    | Some tail' => Some (clauseStack (pluggedInto lc) tail')
    | None => None
    end.
Proof.
  induction k as [|k IH]; intros i pre lc post tail b Hb Hlc Hpre.
  - destruct lc; [|discriminate]. simpl. rewrite Z.add_0_r.
    destruct (saveStack tail i b); reflexivity.
  - destruct lc as [|a [|d lc]]; try discriminate.
    simpl in Hlc. injection Hlc as Ha _ Hd _ Hlc.
    assert (Hif : getInput (IF i) b = Some a).
    { unfold getInput. rewrite Hb. apply find_first; [|exact Ha].
      eapply Forall_impl; [apply (Hpre i); lia|]. simpl. tauto. }
    assert (Hdo : getInput (DO i) b = Some d).
    { unfold getInput. rewrite Hb.
      change (pre ++ (a :: d :: lc) ++ post)
        with (pre ++ [a] ++ d :: lc ++ post).
      rewrite app_assoc. apply find_first; [|exact Hd].
      apply Forall_app. split.
      - eapply Forall_impl; [apply (Hpre i); lia|]. simpl. tauto.
      - repeat constructor. rewrite Ha. apply IF_not_DO. }
    assert (Hrest :
      saveStack (elseifStack k tail) (i + 1) b
      = match saveStack tail (i + Z.of_nat (S k)) b with
        | Some tail' => Some (clauseStack (pluggedInto lc) tail')
        | None => None
        end).
    { replace (i + Z.of_nat (S k))%Z with (i + 1 + Z.of_nat k)%Z by lia.
      apply (IH (i + 1)%Z (pre ++ [a; d]) lc post).
      - rewrite Hb, <- app_assoc. reflexivity.
      - exact Hlc.
      - intros j Hj. apply Forall_app. split; [apply Hpre; lia|].
        repeat constructor; rewrite ?Ha, ?Hd.
        + intros Heq. apply IF_inj in Heq. lia.
        + apply IF_not_DO.
        + intros Heq. symmetry in Heq. exact (IF_not_DO _ _ Heq).
        + intros Heq. apply DO_inj in Heq. lia. }
    change (saveStack (elseifStack (S k) tail) i b)
      with (option_map Some
              (saveClauses
                 (mkMutatorBlock "controls_if_elseif" None None
                    (Some (elseifStack k tail))) i b)).
    cbn -[elseifStack Z.add Z.of_nat pluggedInto clauseStack].
    rewrite Hif, Hdo.
    unfold saveStack in Hrest at 1.
    destruct (elseifStack k tail) as [nextBlock|].
    + destruct (saveClauses nextBlock (i + 1) b) as [savedNext|];
        simpl in Hrest;
        destruct (saveStack tail (i + Z.of_nat (S k)) b) as [tail'|];
        try discriminate; [|reflexivity].
      injection Hrest as Hrest. simpl. rewrite <- Hrest. reflexivity.
    + simpl in Hrest.
      destruct (saveStack tail (i + Z.of_nat (S k)) b) as [tail'|];
        [|discriminate].
      injection Hrest as Hrest. simpl. rewrite <- Hrest. reflexivity.
Qed.

Lemma view_connectedClauses k : forall i lc,
  map shapeOf lc = clauseShape k i ->
  map view (connectedClauses (pluggedInto lc) i) = map view lc
  /\ length (pluggedInto lc) = k.
Proof.
  induction k as [|k IH]; intros i lc Hlc.
  - destruct lc; [|discriminate]. split; reflexivity.
  - destruct lc as [|a [|d lc]]; try discriminate.
    simpl in Hlc. injection Hlc as Ha Hka Hd Hkd Hlc.
    destruct (IH _ _ Hlc) as [Hv Hlen].
    cbn [pluggedInto connectedClauses map length].
    rewrite Hv, Hlen. unfold view at 1 2 4 5. simpl.
    rewrite Ha, Hka, Hd, Hkd. split; reflexivity.
Qed.

(** X12. Opening the mutator on a consistent block and closing it
    unchanged ([decompose], then [saveConnections], then [compose])
    succeeds and leaves every input with its name, its kind and the
    child plugged into it; only the counters are normalised. *)
Theorem mutator_round_trip_keeps_children b :
  consistent b ->
  exists c0 c b',
    decompose b = Some c0
    /\ saveConnections c0 b = Some c
    /\ clauseTypes c = clauseTypes c0
    /\ compose c b = Some b'
    /\ map view (inputList b') = map view (inputList b)
    /\ elseifCount_ b' = Js.Int (Z.of_nat (Js.upTo (elseifCount_ b)))
    /\ elseCount_ b'
       = Js.Int (if Js.truthy (elseCount_ b) then 1 else 0).
Proof.
  intros Hc. pose proof Hc as [Hend _].
  pose proof (upTo_safe _ Hend) as Hsafe.
  destruct (compose_removals_split b Hc)
    as (l0 & lc & le & Hb & Hl0 & Hlc & Hle & Hcompose).
  set (n := Js.upTo (elseifCount_ b)) in *.
  destruct (view_connectedClauses n 1 lc Hlc) as [Hview Hlen].
  pose (els := if Js.truthy (elseCount_ b)
               then Some (targetOf (getInput "ELSE" b)) else None).
  pose (c0 := {| STACK :=
                   elseifStack n
                     (if Js.truthy (elseCount_ b) then Some newElse
                      else None) |}).
  assert (Hdec : decompose b = Some c0).
  { rewrite decompose_stack, Hend. reflexivity. }
  assert (Hsave :
    saveStack (STACK c0) 1 b
    = Some (clauseStack (pluggedInto lc) (option_map elseBlock els))).
  { cbn [c0 STACK].
    rewrite (saveStack_elseifStack n 1 l0 lc le _ b Hb Hlc
               (base_clear l0 Hl0)).
    subst els. destruct (Js.truthy (elseCount_ b)); reflexivity. }
  assert (Hsaved :
    saveConnections c0 b
    = Some {| STACK := clauseStack (pluggedInto lc)
                         (option_map elseBlock els) |}).
  { unfold saveConnections. unfold saveStack in Hsave.
    destruct (STACK c0) as [top|] eqn:Htop.
    - destruct (saveClauses top 1 b); [|discriminate].
      injection Hsave as ->. reflexivity.
    - injection Hsave as Hsave. rewrite <- Hsave.
      subst c0. simpl in Htop. rewrite Htop. reflexivity. }
  assert (Htypes :
    clauseTypes {| STACK := clauseStack (pluggedInto lc)
                              (option_map elseBlock els) |}
    = clauseTypes c0).
  { unfold clauseTypes. cbn [c0 STACK].
    rewrite stackTypes_elseifStack.
    clear - Hlen. subst els. revert Hlen.
    generalize (pluggedInto lc) as saved. intros saved <-.
    induction saved as [|[v s] saved IH]; simpl.
    - destruct (Js.truthy (elseCount_ b)); reflexivity.
    - f_equal. rewrite <- IH.
      destruct (clauseStack saved _); reflexivity. }
  assert (Helse :
    map view (connectedElse els) = map view le
    /\ els = (if Js.truthy (elseCount_ b)
              then Some (targetOf (getInput "ELSE" b)) else None)).
  { split; [|reflexivity]. subst els. unfold elseShape in Hle.
    destruct (Js.truthy (elseCount_ b)).
    - destruct le as [|e [|]]; try discriminate.
      injection Hle as He Hke.
      assert (Hget : getInput "ELSE" b = Some e).
      { unfold getInput. rewrite Hb, app_assoc.
        apply find_first; [|exact He].
        apply Forall_app. split.
        - apply (no_else_in_clauses 1 0). exact Hl0.
        - apply (no_else_in_clauses _ _ _ Hlc). }
      rewrite Hget. simpl. unfold view. simpl. rewrite He, Hke.
      reflexivity.
    - destruct le; [reflexivity | discriminate]. }
  destruct Helse as [Helse Hels].
  assert (Hrun : exists b',
    composeStack
      (clauseStack (pluggedInto lc) (option_map elseBlock els))
      (mkBlock l0 (Js.Int 0) (Js.Int 0)) = Some b'
    /\ map view (inputList b') = map view (inputList b)
    /\ elseifCount_ b' = Js.Int (Z.of_nat n)
    /\ elseCount_ b'
       = Js.Int (if Js.truthy (elseCount_ b) then 1 else 0)).
  { rewrite composeStack_clauseStack by (rewrite ?Hlen; lia).
    rewrite Hlen.
    change (0 + 1)%Z with 1%Z. change (0 + Z.of_nat n)%Z with (Z.of_nat n).
    clear Hsave Hsaved Htypes.
    destruct els as [s|]; cbn [option_map composeStack].
    - unfold elseBlock.
      rewrite composeClauses_else by (unfold Js.safe; lia).
      eexists. split; [reflexivity|].
      cbn [inputList elseifCount_ elseCount_].
      destruct (Js.truthy (elseCount_ b)); try discriminate.
      split; [|split; reflexivity].
      rewrite Hb, <- ?app_assoc, !map_app, Hview.
      simpl in Helse. rewrite <- Helse. reflexivity.
    - eexists. split; [reflexivity|].
      cbn [inputList elseifCount_ elseCount_].
      destruct (Js.truthy (elseCount_ b)); try discriminate.
      split; [|split; reflexivity].
      rewrite Hb, !map_app, Hview.
      simpl in Helse. rewrite <- Helse, ?app_nil_r. reflexivity. }
  destruct Hrun as (b' & Hrun & Hviews & Hn & He).
  exists c0. eexists. exists b'. split; [exact Hdec|].
  split; [exact Hsaved|]. split; [exact Htypes|].
  rewrite Hcompose. cbn [STACK]. auto.
Qed.

(** ** Unknown clause blocks *)

Lemma composeClauses_known top : forall b,
  composeClauses top b = None
  <-> Exists (fun t => knownType t = false) (stackTypes top).
Proof.
  induction top as [t v s|t v s|t v s next IH] using stack_ind;
    intros b; simpl; unfold knownType;
    destruct (String.eqb t "controls_if_elseif") eqn:Hei;
    [| destruct (String.eqb t "controls_if_else") eqn:He
     | | destruct (String.eqb t "controls_if_else") eqn:He
     | | destruct (String.eqb t "controls_if_else") eqn:He ];
    rewrite ?IH, Exists_cons, ?Hei, ?He; simpl;
    rewrite ?Exists_nil; intuition discriminate.
Qed.

Lemma saveClauses_known top : forall i b,
  saveClauses top i b = None
  <-> Exists (fun t => knownType t = false) (stackTypes top).
Proof.
  induction top as [t v s|t v s|t v s next IH] using stack_ind;
    intros i b; simpl; unfold knownType;
    destruct (String.eqb t "controls_if_elseif") eqn:Hei;
    [| destruct (String.eqb t "controls_if_else") eqn:He
     | | destruct (String.eqb t "controls_if_else") eqn:He
     | | destruct (String.eqb t "controls_if_else") eqn:He ];
    rewrite Exists_cons, ?Hei, ?He; simpl;
    rewrite ?Exists_nil; try (intuition discriminate).
  - rewrite <- (IH (i + 1)%Z b).
    destruct (saveClauses next (i + 1) b); intuition discriminate.
  - rewrite <- (IH i b).
    destruct (saveClauses next i b); intuition discriminate.
Qed.

(** X13. On a consistent block, [compose] throws exactly when the
    mutator stack holds a block that is neither a [controls_if_elseif]
    nor a [controls_if_else] block, wherever in the stack it sits; and
    [saveConnections] throws on exactly the same stacks. *)
Theorem unknown_clause_type_throws b c :
  consistent b ->
  (compose c b = None
   <-> Exists (fun t => knownType t = false) (clauseTypes c))
  /\ (saveConnections c b = None
      <-> Exists (fun t => knownType t = false) (clauseTypes c)).
Proof.
  intros Hc.
  destruct (compose_removals_split b Hc) as (l0 & _ & _ & _ & _ & _ & _ & H).
  rewrite H. unfold saveConnections, clauseTypes, composeStack.
  destruct (STACK c) as [top|].
  - rewrite composeClauses_known, <- (saveClauses_known top 1 b).
    split; [reflexivity|].
    destruct (saveClauses top 1 b); intuition discriminate.
  - rewrite Exists_nil. intuition discriminate.
Qed.

(** ** Blocks read from a saved file *)

(** X14. Whatever the mutation element holds (missing, malformed or
    negative attributes included), [domToMutation] on a new block either
    never returns, which happens exactly when the [elseif] attribute
    reads as 2^53 or more, or gives a block whose inputs agree with its
    counters, so the mutator can be opened and closed on it: [decompose]
    followed by [compose] succeeds. *)
Theorem loaded_block_consistent xml :
  (domToMutation xml init = None
   <-> Js.endless (Js.parseInt (getAttribute "elseif" xml)) = true)
  /\ forall b,
       domToMutation xml init = Some b ->
       consistent b
       /\ exists c b', decompose b = Some c /\ compose c b = Some b'.
Proof.
  rewrite domToMutation_inputs.
  destruct (Js.endless (Js.parseInt (getAttribute "elseif" xml))) eqn:Hend.
  - split; [split; reflexivity | discriminate].
  - split; [split; discriminate|]. intros b [= <-].
    set (n := Js.parseInt (getAttribute "elseif" xml)) in *.
    set (e := Js.parseInt (getAttribute "else" xml)).
    assert (Hc : consistent
                   (mkBlock (inputList init ++ clauseInputs (Js.upTo n) 1
                             ++ elseInputs e) n e)).
    { split; [exact Hend|]. unfold shape, shapeFor.
      cbn [inputList elseifCount_ elseCount_].
      rewrite !map_app, shape_clauseInputs. unfold elseInputs, elseShape.
      destruct (Js.truthy e); reflexivity. }
    split; [exact Hc|].
    pose proof (upTo_safe _ Hend) as Hsafe.
    destruct (compose_removals_split _ Hc)
      as (l0 & _ & _ & _ & _ & _ & _ & H).
    rewrite decompose_stack. cbn [elseifCount_ elseCount_]. rewrite Hend.
    assert (Hrun : exists b',
      compose {| STACK :=
                   elseifStack (Js.upTo n)
                     (if Js.truthy e then Some newElse else None) |}
        (mkBlock (inputList init ++ clauseInputs (Js.upTo n) 1
                  ++ elseInputs e) n e) = Some b').
    { rewrite H. cbn [STACK].
      rewrite composeStack_elseifStack by (cbn [elseifCount_] in Hsafe; lia).
      destruct (Js.truthy e); cbn [composeStack].
      - unfold newElse.
        rewrite composeClauses_else by (unfold Js.safe; lia).
        eexists. reflexivity.
      - eexists. reflexivity. }
    destruct Hrun as [b' Hrun]. eexists. exists b'.
    split; [reflexivity | exact Hrun].
Qed.

(** X15. A block read back from the element [mutationToDom] wrote for
    [b], where the else-if counter of [b], if nonzero, is a safe integer
    (below 2^53 in magnitude), is saved as the same element again, shows
    the same tooltip and opens the same mutator stack as [b]. *)
Theorem saved_block_reloads b xml b0 :
  mutationToDom b = Some xml ->
  (Js.truthy (elseifCount_ b) = true ->
   Js.isSafeInteger (elseifCount_ b) = true) ->
  exists b',
    domToMutation xml b0 = Some b'
    /\ mutationToDom b' = Some xml
    /\ tooltip b' = tooltip b
    /\ decompose b' = decompose b.
Proof.
  intros Hxml Hsafe.
  destruct (domToMutation_written b xml b0 Hxml Hsafe) as [Hrun Hend].
  eexists. split; [exact Hrun|].
  rewrite <- Hxml. unfold mutationToDom, tooltip.
  rewrite !decompose_stack.
  cbn [elseifCount_ elseCount_]. rewrite Hend.
  destruct (Js.truthy (elseifCount_ b)) eqn:Htn,
           (Js.truthy (elseCount_ b)) eqn:Hte;
    cbn [Js.truthy Js.endless Js.upTo negb andb orb Z.eqb];
    rewrite ?Htn, ?Hend, ?(falsy_upTo _ Htn); repeat split; reflexivity.
Qed.

End ControlsIfEditFacts.

(** A block with children 1 and 2 in its first two inputs, recomposed
    from a stack of two else-if blocks carrying children 7, 8 and 9,
    without an else block. *)
Lemma compose_rebuilds_from_stack_witness :
  let b :=
    ControlsIf.mkBlock
      [ControlsIf.valueInput (ControlsIf.IF 0)
         ControlsIf.CONTROLS_IF_MSG_IF (Some 1);
       ControlsIf.statementInput (ControlsIf.DO 0)
         ControlsIf.CONTROLS_IF_MSG_THEN (Some 2);
       ControlsIf.statementInput "ELSE"
         ControlsIf.CONTROLS_IF_MSG_ELSE (Some 5)]
      (Js.Int 0) (Js.Int 1) in
  exists b',
    ControlsIf.compose
      {| ControlsIf.STACK :=
           ControlsIf.clauseStack [(Some 7, Some 8); (Some 9, None)] None |}
      b = Some b'
    /\ map ControlsIf.view (ControlsIf.inputList b')
       = [(ControlsIf.IF 0, ControlsIf.INPUT_VALUE, Some 1);
          (ControlsIf.DO 0, ControlsIf.NEXT_STATEMENT, Some 2);
          (ControlsIf.IF 1, ControlsIf.INPUT_VALUE, Some 7);
          (ControlsIf.DO 1, ControlsIf.NEXT_STATEMENT, Some 8);
          (ControlsIf.IF 2, ControlsIf.INPUT_VALUE, Some 9);
          (ControlsIf.DO 2, ControlsIf.NEXT_STATEMENT, None)]
    /\ ControlsIf.elseifCount_ b' = Js.Int 2
    /\ ControlsIf.elseCount_ b' = Js.Int 0.
Proof.
  intros b.
  destruct (compose_rebuilds_from_stack b
              [(Some 7, Some 8); (Some 9, None)] None)
    as (b' & Hrun & Hl & Hn & He & _).
  - split; reflexivity.
  - reflexivity.
  - apply (bool_decide_unpack _). vm_compute. exact I.
  - apply (Forall_forall (fun c => c ∉ [1; 2]) [7; 8; 9]).
    apply (bool_decide_unpack _). vm_compute. exact I.
  - exists b'. rewrite Hl. repeat split; assumption.
Defined.

(** An if/else-if/else block with a child in every input. *)
Lemma mutator_round_trip_keeps_children_witness :
  let b :=
    ControlsIf.mkBlock
      [ControlsIf.valueInput (ControlsIf.IF 0)
         ControlsIf.CONTROLS_IF_MSG_IF (Some 1);
       ControlsIf.statementInput (ControlsIf.DO 0)
         ControlsIf.CONTROLS_IF_MSG_THEN (Some 2);
       ControlsIf.valueInput (ControlsIf.IF 1)
         ControlsIf.CONTROLS_IF_MSG_ELSEIF (Some 3);
       ControlsIf.statementInput (ControlsIf.DO 1)
         ControlsIf.CONTROLS_IF_MSG_THEN (Some 4);
       ControlsIf.statementInput "ELSE"
         ControlsIf.CONTROLS_IF_MSG_ELSE (Some 5)]
      (Js.Int 1) (Js.Int 1) in
  exists c0 c b',
    ControlsIf.decompose b = Some c0
    /\ ControlsIf.saveConnections c0 b = Some c
    /\ ControlsIf.compose c b = Some b'
    /\ map ControlsIf.targetConnection (ControlsIf.inputList b')
       = [Some 1; Some 2; Some 3; Some 4; Some 5].
Proof.
  intros b.
  destruct (mutator_round_trip_keeps_children b ltac:(split; reflexivity))
    as (c0 & c & b' & Hdec & Hsave & _ & Hrun & Hview & _).
  exists c0, c, b'. split; [exact Hdec|]. split; [exact Hsave|].
  split; [exact Hrun|].
  apply (f_equal (map snd)) in Hview.
  rewrite !map_map in Hview. exact Hview.
Defined.

(** A [controls_if_if] block under an else-if block makes [compose]
    throw. *)
Lemma unknown_clause_type_throws_witness :
  ControlsIf.compose
    {| ControlsIf.STACK :=
         Some (ControlsIf.mkMutatorBlock "controls_if_elseif" None None
                 (Some (Some (ControlsIf.mkMutatorBlock "controls_if_if"
                                None None None)))) |}
    ControlsIf.ifElse = None.
Proof.
  apply (unknown_clause_type_throws ControlsIf.ifElse _
           ltac:(split; reflexivity)).
  right. left. reflexivity.
Defined.

(** The element of an if/else-if/else block, read into a new block. *)
Lemma saved_block_reloads_witness :
  exists b',
    ControlsIf.domToMutation (ControlsIf.elseifElseMutation "1" "1")
      ControlsIf.init = Some b'
    /\ ControlsIf.mutationToDom b'
       = Some (ControlsIf.elseifElseMutation "1" "1")
    /\ ControlsIf.tooltip b' = ControlsIf.CONTROLS_IF_TOOLTIP_4.
Proof.
  destruct (saved_block_reloads ControlsIf.ifElseifElse
              (ControlsIf.elseifElseMutation "1" "1") ControlsIf.init
              eq_refl ltac:(reflexivity))
    as (b' & Hrun & Hxml & Htip & _).
  exists b'. split; [exact Hrun|]. split; [exact Hxml | exact Htip].
Defined.

(** * Touch events after a handled one *)
Section TouchFacts.
Import Binding Touches.
Context {T : Type}.
Variable shouldHandleEvent : Event -> T -> bool * T.
Variable setClientFromTouch : Event -> Event.
Variable thisObject : option Receiver.
Variable func : option Receiver -> Event -> T -> T.
Variable opt_noCaptureIdentifier : bool.

Let wrapOne :=
  wrapOne shouldHandleEvent setClientFromTouch thisObject func
          opt_noCaptureIdentifier.
Let wrapLoop :=
  wrapLoop shouldHandleEvent setClientFromTouch thisObject func
           opt_noCaptureIdentifier.
Let touchWrapFunc :=
  touchWrapFunc shouldHandleEvent setClientFromTouch thisObject func
                opt_noCaptureIdentifier.
Let touchEvents :=
  touchEvents shouldHandleEvent setClientFromTouch thisObject func
              opt_noCaptureIdentifier.

Lemma preventions_app (a b : list Step) :
  preventions (a ++ b) = preventions a ++ preventions b.
Proof.
  induction a as [|[ev ok|this ev|ev] a IH]; simpl; congruence.
Qed.

Lemma invokes_app (a b : list Step) :
  invokes (a ++ b) = invokes a || invokes b.
Proof.
  unfold invokes. rewrite invocations_app.
  destruct (invocations a); reflexivity.
Qed.

(** One round of [wrapFunc]'s loop sets the flag exactly when it calls
    the handler, and stops no default action. *)
Lemma wrapOne_flag event s :
  exists steps,
    trace (wrapOne event s) = trace s ++ steps
    /\ handled (wrapOne event s) = handled s || invokes steps
    /\ preventions steps = [].
Proof.
  unfold wrapOne, Binding.wrapOne.
  destruct opt_noCaptureIdentifier; simpl.
  - eexists. split; [reflexivity|]. split; [|reflexivity].
    rewrite orb_true_r. reflexivity.
  - destruct (shouldHandleEvent event (touch s)) as [[|] t]; simpl;
      eexists; (split; [rewrite <- ?app_assoc; reflexivity|]);
      (split; [|reflexivity]); simpl;
      rewrite ?orb_true_r, ?orb_false_r; reflexivity.
Qed.

Lemma wrapLoop_flag events : forall s,
  exists steps,
    trace (wrapLoop events s) = trace s ++ steps
    /\ handled (wrapLoop events s) = handled s || invokes steps
    /\ preventions steps = [].
Proof.
  induction events as [|event rest IH]; intros s; simpl.
  - exists []. rewrite app_nil_r, orb_false_r. repeat split.
  - destruct (wrapOne_flag event s) as (st1 & Ht1 & Hh1 & Hp1).
    destruct (IH (wrapOne event s)) as (st2 & Ht2 & Hh2 & Hp2).
    exists (st1 ++ st2). fold wrapOne.
    rewrite Ht2, Ht1, Hh2, Hh1, invokes_app, preventions_app, Hp1, Hp2.
    rewrite app_assoc, orb_assoc. repeat split.
Qed.

(** One touch event: the default action is stopped exactly when the
    flag is set afterwards. *)
Lemma touchWrapFunc_flag e s :
  exists steps,
    trace (touchWrapFunc e s) = trace s ++ steps
    /\ handled (touchWrapFunc e s) = handled s || invokes steps
    /\ preventions steps
       = (if handled s || invokes steps then [e] else []).
Proof.
  unfold touchWrapFunc, Binding.touchWrapFunc, wrapFunc.
  destruct (wrapLoop_flag (splitEventByTouches e) s)
    as (steps & Ht & Hh & Hp).
  fold wrapLoop.
  destruct (handled (wrapLoop (splitEventByTouches e) s)) eqn:Hflag.
  - exists (steps ++ [prevented e]). simpl.
    rewrite Ht, invokes_app, preventions_app, Hp, app_assoc.
    simpl. rewrite orb_false_r, <- Hh. repeat split.
  - exists steps. rewrite Hflag, <- Hh. repeat split; assumption.
Qed.

(** X16. The [handled] flag of a checked binding is shared by all its
    touch events and never reset. Over any sequence of touch events
    delivered to [touchWrapFunc]: if the flag is set at the start, the
    default action of every event is stopped, also of events whose
    touches are all rejected by the capture check; if it is not set and
    the handler is never called, no default action is stopped; and the
    flag is set at the end exactly when it was set at the start or the
    handler was called. *)
Theorem touch_default_stopped_once_handled es s :
  exists steps,
    trace (touchEvents es s) = trace s ++ steps
    /\ handled (touchEvents es s) = handled s || invokes steps
    /\ (handled s = true -> preventions steps = es)
    /\ (handled s = false -> invokes steps = false ->
        preventions steps = []).
Proof.
  revert s. induction es as [|e es IH]; intros s.
  - exists []. simpl. rewrite app_nil_r, orb_false_r. repeat split.
  - destruct (touchWrapFunc_flag e s) as (st1 & Ht1 & Hh1 & Hp1).
    destruct (IH (touchWrapFunc e s)) as (st2 & Ht2 & Hh2 & Hon & Hoff).
    exists (st1 ++ st2).
    change (touchEvents (e :: es) s)
      with (touchEvents es (touchWrapFunc e s)).
    rewrite Ht2, Ht1, Hh2, Hh1, invokes_app, preventions_app, Hp1.
    rewrite app_assoc, orb_assoc. repeat split.
    + intros Hs. rewrite Hs in *. simpl in *. rewrite (Hon Hh1).
      reflexivity.
    + intros Hs Hinv. apply orb_false_iff in Hinv as [Hi1 Hi2].
      rewrite Hs, Hi1 in *. simpl in *. rewrite (Hoff Hh1 Hi2).
      reflexivity.
Qed.

End TouchFacts.

(** Every touch of the second event is rejected; its default action is
    stopped all the same, since an earlier event was handled. *)
Lemma touch_default_stopped_once_handled_witness :
  let e1 := Binding.mkEvent "touchstart"
              (Some [ {| Binding.identifier := 0; Binding.touchX := 5;
                         Binding.touchY := 5 |} ]) 0 0 in
  let e2 := Binding.mkEvent "touchmove"
              (Some [ {| Binding.identifier := 1; Binding.touchX := 9;
                         Binding.touchY := 9 |} ]) 0 0 in
  Touches.preventions
    (Binding.trace
       (Touches.touchEvents (fun _ (t : unit) => (false, t)) id None
          (fun _ _ t => t) false [e1; e2] (Binding.mkEnv tt true [])))
  = [e1; e2].
Proof.
  intros e1 e2.
  destruct (touch_default_stopped_once_handled
              (fun _ (t : unit) => (false, t)) id None (fun _ _ t => t)
              false [e1; e2] (Binding.mkEnv tt true []))
    as (steps & Ht & _ & Hon & _).
  rewrite Ht. simpl. exact (Hon eq_refl).
Defined.

(** * Properties of [bindEvent_] and [unbindEvent_] *)
Section ListenerFacts.
Import Binding Listeners.
Variable TOUCH_MAP : gmap string (list string).

Lemma filter_all (P : Listener -> Prop) `{forall x, Decision (P x)} ls :
  Forall P ls -> filter P ls = ls.
Proof.
  induction 1 as [|x ls Hx _ IH]; [reflexivity|].
  rewrite filter_cons, decide_True by exact Hx. rewrite IH. reflexivity.
Qed.

(** On a list without duplicates, removing the first match removes
    every match. *)
Lemma removeFirst_filter l ls :
  NoDup ls -> removeFirst l ls = filter (fun x => x <> l) ls.
Proof.
  induction 1 as [|x ls Hx _ IH]; [reflexivity|].
  simpl. rewrite filter_cons. destruct (decide (x = l)) as [->|Hne].
  - rewrite decide_False by (intros Hn; apply Hn; reflexivity).
    symmetry. apply filter_all. apply Forall_forall. intros y Hy ->.
    exact (Hx Hy).
  - rewrite decide_True by exact Hne. rewrite IH. reflexivity.
Qed.

Lemma filter_removed d (rest ls : list Listener) :
  filter (fun x => x ∉ rest) (filter (fun x => x <> d) ls)
  = filter (fun x => x ∉ d :: rest) ls.
Proof.
  rewrite list_filter_filter. apply list_filter_iff. intros x.
  rewrite not_elem_of_cons. tauto.
Qed.

(** The loop of [unbindEvent_]. *)
Lemma popAll_removes stack : forall func p,
  NoDup (listeners p) ->
  popAll stack func p
  = (match last stack with
     | Some l => Some (callback l)
     | None => func
     end,
     mkPage (filter (fun l => l ∉ stack) (listeners p)) (binds p)).
Proof.
  induction stack as [|d rest IH]; intros func p Hnd.
  - simpl. rewrite filter_all; [destruct p; reflexivity|].
    apply Forall_forall. intros x _. apply not_elem_of_nil.
  - cbn [popAll]. rewrite IH.
    + cbn [removeEventListener listeners binds].
      rewrite (removeFirst_filter d _ Hnd), filter_removed, last_cons.
      destruct (last rest); reflexivity.
    + cbn [removeEventListener listeners].
      rewrite (removeFirst_filter d _ Hnd). apply NoDup_filter, Hnd.
Qed.

Lemma filter_reversed (bindData ls : list Listener) :
  filter (fun l => l ∉ reverse bindData) ls
  = filter (fun l => l ∉ bindData) ls.
Proof.
  apply list_filter_iff. intros x. rewrite elem_of_reverse. tauto.
Qed.

(** X17. [unbindEvent_] removes from the page exactly the listeners of
    [bindData] and keeps every other listener, in order. It returns the
    function of the first entry of [bindData], which is the wrapper the
    binder made and not the function given to the binder, and no function
    at all (undefined) for an empty [bindData]; [bindData] is left
    empty. *)
Theorem unbindEvent_removes_bound bindData p :
  NoDup (listeners p) ->
  unbindEvent_ bindData p
  = (option_map callback (head bindData), [],
     mkPage (filter (fun l => l ∉ bindData) (listeners p)) (binds p)).
Proof.
  intros Hnd. unfold unbindEvent_.
  rewrite (popAll_removes _ None p Hnd), last_reverse.
  rewrite (filter_reversed bindData).
  destruct (head bindData); reflexivity.
Qed.

(** One registration: the listener is on the page afterwards, added at
    the end unless it was there. *)
Lemma addEventListener_adds w p :
  exists new0,
    listeners (addEventListener w p) = listeners p ++ new0
    /\ binds (addEventListener w p) = binds p
    /\ Forall (fun l => l = w) new0
    /\ w ∈ listeners p ++ new0
    /\ (NoDup (listeners p) -> NoDup (listeners p ++ new0)).
Proof.
  unfold addEventListener.
  destruct (decide (w ∈ listeners p)) as [Hin|Hout].
  - exists []. rewrite app_nil_r. repeat split; auto.
  - exists [w]. cbn [listeners binds]. repeat split; auto.
    + apply elem_of_app. right. apply list_elem_of_singleton.
      reflexivity.
    + intros Hp. apply NoDup_app. repeat split; [exact Hp | |].
      * intros x Hx Hx'. apply list_elem_of_singleton in Hx'.
        subst x. exact (Hout Hx).
      * apply NoDup_singleton.
Qed.

(** The loop over the touch names: it appends listeners to the page and
    entries to [bindData], all with the touch wrapper. *)
Lemma addTouchListeners_adds node f names : forall bindData p,
  exists new,
    listeners (snd (addTouchListeners node f names bindData p))
    = listeners p ++ new
    /\ binds (snd (addTouchListeners node f names bindData p)) = binds p
    /\ fst (addTouchListeners node f names bindData p)
       = bindData ++ map (fun n => (node, n, f)) (untilFalsy names)
    /\ Forall (fun l => l ∈ map (fun n => (node, n, f)) (untilFalsy names))
         new
    /\ (forall l, l ∈ map (fun n => (node, n, f)) (untilFalsy names) ->
          l ∈ listeners p ++ new)
    /\ (NoDup (listeners p) -> NoDup (listeners p ++ new)).
Proof.
  induction names as [|n names IH]; intros bindData p.
  - exists []. simpl. rewrite !app_nil_r. repeat split; auto.
    intros l Hl. inversion Hl.
  - simpl. destruct (String.eqb n "") eqn:Hn.
    + exists []. simpl. rewrite !app_nil_r. repeat split; auto.
      intros l Hl. inversion Hl.
    + destruct (addEventListener_adds (node, n, f) p)
        as (new0 & Hl0 & Hb0 & Hnew0 & Hw & Hnd0).
      destruct (IH (bindData ++ [(node, n, f)])
                   (addEventListener (node, n, f) p))
        as (new & Hl & Hb & Hd & Hnew & Hreg & Hnd).
      exists (new0 ++ new).
      rewrite Hl, Hb, Hd, Hl0, Hb0, <- !app_assoc.
      rewrite Hl0, <- app_assoc in Hreg, Hnd.
      split; [reflexivity|]. split; [reflexivity|].
      split; [reflexivity|]. split; [|split].
      * apply Forall_app. split.
        -- eapply Forall_impl; [exact Hnew0|]. intros l ->.
           apply elem_of_cons. left. reflexivity.
        -- eapply Forall_impl; [exact Hnew|]. intros l Hlin.
           apply elem_of_cons. right. exact Hlin.
      * intros l Hlin. simpl in Hlin.
        apply elem_of_cons in Hlin as [->|Hlin].
        -- rewrite app_assoc. apply elem_of_app. left. exact Hw.
        -- apply Hreg, Hlin.
      * intros Hp. apply Hnd, Hnd0, Hp.
Qed.

(** What [bindEvent_] returns and registers. *)
Lemma bindEvent_adds node name p :
  let wrapFunc := mkClosure (binds p) wrapFuncRef in
  let touchWrapFunc := mkClosure (binds p) touchWrapFuncRef in
  let touches :=
    match TOUCH_MAP !! name with
    | Some names =>
        map (fun n => (node, n, touchWrapFunc)) (untilFalsy names)
    | None => []
    end in
  let bound := bindEvent_ TOUCH_MAP node name p in
  fst bound = (node, name, wrapFunc) :: touches
  /\ binds (snd bound) = S (binds p)
  /\ exists new,
       listeners (snd bound) = listeners p ++ new
       /\ Forall (fun l => l ∈ fst bound) new
       /\ (forall l, l ∈ fst bound -> l ∈ listeners (snd bound))
       /\ (NoDup (listeners p) -> NoDup (listeners (snd bound))).
Proof.
  cbv zeta. unfold bindEvent_. cbn [madeBy].
  set (w := (node, name, mkClosure (binds p) wrapFuncRef)).
  destruct (addEventListener_adds w (mkPage (listeners p) (S (binds p))))
    as (new0 & Hl0 & Hb0 & Hnew0 & Hw & Hnd0).
  cbn [listeners binds] in Hl0, Hb0, Hw, Hnd0.
  destruct (TOUCH_MAP !! name) as [names|].
  - destruct (addTouchListeners_adds node
                (mkClosure (binds p) touchWrapFuncRef) names [w]
                (addEventListener w (mkPage (listeners p) (S (binds p)))))
      as (new & Hl & Hb & Hd & Hnew & Hreg & Hnd).
    rewrite Hl0, <- app_assoc in Hreg, Hnd.
    rewrite Hd, Hb, Hb0, Hl, Hl0. split; [reflexivity|].
    split; [reflexivity|]. exists (new0 ++ new).
    rewrite <- app_assoc. split; [reflexivity|]. split; [|split].
    + apply Forall_app. split.
      * eapply Forall_impl; [exact Hnew0|]. intros l ->.
        apply elem_of_cons. left. reflexivity.
      * eapply Forall_impl; [exact Hnew|]. intros l Hlin.
        apply elem_of_cons. right. exact Hlin.
    + intros l Hlin. simpl in Hlin. apply elem_of_cons in Hlin as [->|Hlin].
      * rewrite app_assoc. apply elem_of_app. left. exact Hw.
      * apply Hreg, Hlin.
    + intros Hp. apply Hnd, Hnd0, Hp.
  - cbn [fst snd]. rewrite Hb0, Hl0. split; [reflexivity|].
    split; [reflexivity|]. exists new0. split; [reflexivity|].
    split; [|split].
    + eapply Forall_impl; [exact Hnew0|]. intros l ->.
      apply list_elem_of_singleton. reflexivity.
    + intros l Hlin. apply list_elem_of_singleton in Hlin. subst l.
      exact Hw.
    + exact Hnd0.
Qed.

(** X18. Binding, then unbinding with the data the binder returned,
    leaves the listeners of the page as they were: every entry of
    [bindData] is registered after [bindEvent_], the listeners that were
    there are kept, and [unbindEvent_] removes all the new ones and
    returns the wrapper of the named event. As each call makes wrappers
    of its own, the listeners of other bindings of the same function to
    the same node and event stay. *)
Theorem unbind_after_bind node name p :
  settled p ->
  NoDup (listeners p) ->
  let bound := bindEvent_ TOUCH_MAP node name p in
  (forall l, l ∈ fst bound -> l ∈ listeners (snd bound))
  /\ (forall l, l ∈ listeners p ->
        l ∈ listeners (snd bound) /\ l ∉ fst bound)
  /\ settled (snd bound)
  /\ NoDup (listeners (snd bound))
  /\ unbindEvent_ (fst bound) (snd bound)
     = (Some (mkClosure (binds p) wrapFuncRef), [],
        mkPage (listeners p) (S (binds p))).
Proof.
  intros Hs Hnd. cbv zeta.
  destruct (bindEvent_adds node name p)
    as (Hdata & Hbinds & new & Hl & Hnew & Hreg & Hnd').
  assert (Hmade : forall l,
    l ∈ fst (bindEvent_ TOUCH_MAP node name p) ->
    madeBy (callback l) = binds p).
  { intros l. rewrite Hdata. intros Hin.
    apply elem_of_cons in Hin as [->|Hin]; [reflexivity|].
    destruct (TOUCH_MAP !! name) as [names|]; [|inversion Hin].
    apply list_elem_of_In, in_map_iff in Hin as (n & <- & _).
    reflexivity. }
  assert (Hold : forall l,
    l ∈ listeners p -> l ∉ fst (bindEvent_ TOUCH_MAP node name p)).
  { intros l Hin Hin'. apply Hmade in Hin'.
    unfold settled in Hs. rewrite Forall_forall in Hs.
    apply Hs in Hin. lia. }
  split; [exact Hreg|]. split.
  { intros l Hin. split; [|apply Hold, Hin].
    rewrite Hl. apply elem_of_app. left. exact Hin. }
  split.
  { unfold settled. rewrite Hl, Hbinds. apply Forall_app. split.
    - eapply Forall_impl; [exact Hs|]. simpl. lia.
    - eapply Forall_impl; [exact Hnew|]. intros l Hin.
      rewrite (Hmade l Hin). lia. }
  split; [exact (Hnd' Hnd)|].
  unfold unbindEvent_.
  rewrite (popAll_removes _ None _ (Hnd' Hnd)), last_reverse.
  rewrite filter_reversed.
  rewrite Hdata at 1. cbn [head callback snd].
  rewrite Hbinds, Hl, filter_app. f_equal. f_equal.
  rewrite filter_all.
  - replace (filter _ new) with (@nil Listener);
      [apply app_nil_r|].
    symmetry. clear - Hnew. induction Hnew as [|x new Hx _ IH];
      [reflexivity|].
    rewrite filter_cons, decide_False by (intros Hn; exact (Hn Hx)).
    exact IH.
  - apply Forall_forall. intros l Hin.
    apply Hold, Hin.
Qed.

End ListenerFacts.

(** A page with one binding of [mousedown] on node 1; the same event is
    bound again on the same node, and that binding removed. *)
Lemma unbindEvent_removes_bound_witness :
  let first := (1, "mousedown",
                Listeners.mkClosure 0 Binding.wrapFuncRef) in
  let second := (1, "mousedown",
                 Listeners.mkClosure 1 Binding.wrapFuncRef) in
  Listeners.unbindEvent_ [second] (Listeners.mkPage [first; second] 2)
  = (Some (Listeners.mkClosure 1 Binding.wrapFuncRef), [],
     Listeners.mkPage [first] 2).
Proof.
  intros first second.
  rewrite (unbindEvent_removes_bound [second]
             (Listeners.mkPage [first; second] 2)).
  - reflexivity.
  - apply NoDup_cons. split; [|apply NoDup_singleton].
    intros Hin. apply list_elem_of_singleton in Hin. discriminate Hin.
Defined.

Lemma unbind_after_bind_witness :
  let touchMap : gmap string (list string) :=
    {[ "mousedown" := ["touchstart"] ]} in
  let p := Listeners.mkPage
             [(1, "mousedown", Listeners.mkClosure 0 Binding.wrapFuncRef)]
             1 in
  let bound := Listeners.bindEvent_ touchMap 1 "mousedown" p in
  Listeners.unbindEvent_ (fst bound) (snd bound)
  = (Some (Listeners.mkClosure 1 Binding.wrapFuncRef), [],
     Listeners.mkPage (Listeners.listeners p) 2).
Proof.
  intros touchMap p bound.
  destruct (unbind_after_bind touchMap 1 "mousedown" p)
    as (_ & _ & _ & _ & Hround).
  - repeat constructor.
  - apply NoDup_singleton.
  - exact Hround.
Defined.

(** * Properties of [svgResize] *)
Section SvgFacts.
Import Svg.

Lemma workspace_ind (P : WorkspaceSvg -> Prop) :
  (forall i, P (mkWorkspace i None)) ->
  (forall i parent, P parent -> P (mkWorkspace i (Some parent))) ->
  forall workspace, P workspace.
Proof.
  intros Htop Hnested. fix IH 1.
  intros [i [parent|]]; [apply Hnested, IH | apply Htop].
Qed.

(** The loop of [svgResize] ends on a workspace without a parent, which
    is the given workspace or one of its parents. *)
Lemma root_top workspace :
  parentWorkspace (root workspace) = None
  /\ above (root workspace) workspace.
Proof.
  induction workspace as [i|i parent [IHp IHa]] using workspace_ind.
  - split; [reflexivity | constructor].
  - split; [exact IHp|].
    apply (above_parent _ _ parent); [reflexivity | exact IHa].
Qed.

Lemma differs_same size : differs (Some size) size = false.
Proof. simpl. rewrite Z.eqb_refl. reflexivity. Qed.

(** X19. [svgResize] on an SVG image that is on the page: afterwards
    [svgSize] gives the size of the container, the [width] and [height]
    attributes hold that size in pixels provided the cached sizes agreed
    with the attributes before, which then still holds; the last call is
    [resize] on the outermost workspace, whichever workspace of the
    nesting was given, and every call before it writes one of the two
    attributes. *)
Theorem svgResize_records_size workspace svg div :
  parentNode svg = Some div ->
  let svg' := fst (svgResize workspace svg) in
  let calls := snd (svgResize workspace svg) in
  svgSize svg' = (Some (offsetWidth div), Some (offsetHeight div))
  /\ parentNode svg' = Some div
  /\ (cacheAgrees svg ->
      cacheAgrees svg'
      /\ attributes svg' !! "width" = Some (px (offsetWidth div))
      /\ attributes svg' !! "height" = Some (px (offsetHeight div)))
  /\ exists writes,
       calls = writes ++ [resize (id (root workspace))]
       /\ parentWorkspace (root workspace) = None
       /\ above (root workspace) workspace
       /\ Forall (fun c => c = setAttribute "width" (px (offsetWidth div))
                           \/ c = setAttribute "height"
                                    (px (offsetHeight div))) writes.
Proof.
  intros Hdiv. cbv zeta. unfold svgResize. rewrite Hdiv.
  destruct (root_top workspace) as [Htop Habove].
  destruct svg as [pn cw ch attrs]. simpl in Hdiv. subst pn.
  unfold svgSize, cacheAgrees. cbn [parentNode cachedWidth_ cachedHeight_
                                     attributes].
  destruct (differs cw (offsetWidth div)) eqn:Hw;
    cbn [fst snd parentNode cachedWidth_ cachedHeight_ attributes];
    destruct (differs ch (offsetHeight div)) eqn:Hh;
    cbn [fst snd parentNode cachedWidth_ cachedHeight_ attributes].
  - split; [reflexivity|]. split; [reflexivity|]. split.
    + intros _. repeat split.
      * intros w [= <-].
        rewrite lookup_insert_ne by discriminate.
        apply lookup_insert_eq.
      * intros h [= <-]. apply lookup_insert_eq.
      * rewrite lookup_insert_ne by discriminate.
        apply lookup_insert_eq.
      * apply lookup_insert_eq.
    + eexists. split; [reflexivity|]. split; [exact Htop|]. split; [exact Habove|].
      repeat (constructor; [first [left; reflexivity | right; reflexivity]|]);
        constructor.
  - assert (Hch : ch = Some (offsetHeight div)).
    { destruct ch as [c|]; [|discriminate]. simpl in Hh.
      apply negb_false_iff, Z.eqb_eq in Hh. subst c. reflexivity. }
    subst ch. split; [reflexivity|]. split; [reflexivity|]. split.
    + intros [_ Hah]. repeat split.
      * intros w [= <-]. apply lookup_insert_eq.
      * intros h [= <-]. rewrite lookup_insert_ne by discriminate.
        apply Hah. reflexivity.
      * apply lookup_insert_eq.
      * rewrite lookup_insert_ne by discriminate. apply Hah.
        reflexivity.
    + eexists. split; [reflexivity|]. split; [exact Htop|]. split; [exact Habove|].
      repeat (constructor; [first [left; reflexivity | right; reflexivity]|]);
        constructor.
  - assert (Hcw : cw = Some (offsetWidth div)).
    { destruct cw as [c|]; [|discriminate]. simpl in Hw.
      apply negb_false_iff, Z.eqb_eq in Hw. subst c. reflexivity. }
    subst cw. split; [reflexivity|]. split; [reflexivity|]. split.
    + intros [Haw _]. repeat split.
      * intros w [= <-]. rewrite lookup_insert_ne by discriminate.
        apply Haw. reflexivity.
      * intros h [= <-]. apply lookup_insert_eq.
      * rewrite lookup_insert_ne by discriminate. apply Haw.
        reflexivity.
      * apply lookup_insert_eq.
    + eexists. split; [reflexivity|]. split; [exact Htop|]. split; [exact Habove|].
      repeat (constructor; [first [left; reflexivity | right; reflexivity]|]);
        constructor.
  - assert (Hcw : cw = Some (offsetWidth div)).
    { destruct cw as [c|]; [|discriminate]. simpl in Hw.
      apply negb_false_iff, Z.eqb_eq in Hw. subst c. reflexivity. }
    assert (Hch : ch = Some (offsetHeight div)).
    { destruct ch as [c|]; [|discriminate]. simpl in Hh.
      apply negb_false_iff, Z.eqb_eq in Hh. subst c. reflexivity. }
    subst cw ch. split; [reflexivity|]. split; [reflexivity|]. split.
    + intros [Haw Hah]. repeat split.
      * exact Haw.
      * exact Hah.
      * apply Haw. reflexivity.
      * apply Hah. reflexivity.
    + exists []. split; [reflexivity|]. split; [exact Htop|]. split; [exact Habove|].
      repeat (constructor; [first [left; reflexivity | right; reflexivity]|]);
        constructor.
Qed.

(** X20. A second [svgResize] while the container keeps its size writes
    no attribute and leaves the SVG image as it is: it only calls
    [resize] again. Off the page, [svgResize] does nothing at all. *)
Theorem svgResize_again workspace workspace' svg :
  let svg' := fst (svgResize workspace svg) in
  svgResize workspace' svg'
  = (svg', match parentNode svg with
           | Some _ => [resize (id (root workspace'))]
           | None => []
           end).
Proof.
  cbv zeta. unfold svgResize.
  destruct svg as [[div|] cw ch attrs];
    cbn [parentNode cachedWidth_ cachedHeight_ attributes];
    [|reflexivity].
  destruct (differs cw (offsetWidth div)) eqn:Hw;
    cbn [fst snd parentNode cachedWidth_ cachedHeight_ attributes];
    destruct (differs ch (offsetHeight div)) eqn:Hh;
    cbn [fst snd parentNode cachedWidth_ cachedHeight_ attributes];
    repeat (first [rewrite differs_same | rewrite Hw | rewrite Hh];
            cbn [fst snd parentNode cachedWidth_ cachedHeight_ attributes]);
    reflexivity.
Qed.

End SvgFacts.

(** A workspace nested in the workspace of the page, whose SVG image was
    never sized. *)
Lemma svgResize_records_size_witness :
  let main := Svg.mkWorkspace 0 None in
  let nested := Svg.mkWorkspace 1 (Some main) in
  let div := {| Svg.offsetWidth := 640; Svg.offsetHeight := 480 |} in
  let svg := Svg.mkSvg (Some div) None None ∅ in
  Svg.svgSize (fst (Svg.svgResize nested svg)) = (Some 640%Z, Some 480%Z)
  /\ Svg.attributes (fst (Svg.svgResize nested svg)) !! "width"
     = Some "640px".
Proof.
  intros main nested div svg.
  destruct (svgResize_records_size nested svg div eq_refl)
    as (Hsize & _ & Hattrs & _).
  split; [exact Hsize|].
  assert (Hc : Svg.cacheAgrees svg) by (split; intros z [=]).
  exact (proj1 (proj2 (Hattrs Hc))).
Defined.

(** * Properties of [controls_flow_statements] *)
Section FlowFacts.
Import FlowStatements.

Lemma block_ind (P : Block -> Prop) :
  (forall t w, P (mkBlock t w None)) ->
  (forall t w parent, P parent -> P (mkBlock t w (Some parent))) ->
  forall block, P block.
Proof.
  intros Htop Hnested. fix IH 1.
  intros [t w [parent|]]; [apply Hnested, IH | apply Htop].
Qed.

(** The loop of [onchange] finds a loop block exactly when one
    surrounds the block, at any depth. *)
Lemma legal_within block :
  legal block = true
  <-> exists outer, within outer block /\ isLoop (type outer) = true.
Proof.
  induction block as [t w|t w parent IH] using block_ind.
  - simpl. destruct (isLoop t) eqn:Ht.
    + split; [|reflexivity]. intros _.
      exists (mkBlock t w None). split; [constructor | exact Ht].
    + split; [discriminate|]. intros (outer & Hin & Hl).
      inversion Hin as [Heq|b p Hp _ Heq]; subst.
      * simpl in Hl. congruence.
      * discriminate Hp.
  - simpl. destruct (isLoop t) eqn:Ht.
    + split; [|reflexivity]. intros _.
      exists (mkBlock t w (Some parent)). split; [constructor | exact Ht].
    + rewrite IH. split.
      * intros (outer & Hin & Hl). exists outer. split; [|exact Hl].
        apply (within_parent _ _ parent); [reflexivity | exact Hin].
      * intros (outer & Hin & Hl).
        inversion Hin as [Heq|b p Hp Hin' Heq]; subst.
        -- simpl in Hl. congruence.
        -- injection Hp as <-. exists outer. split; assumption.
Qed.

Lemma within_trans a b c : within a b -> within b c -> within a c.
Proof.
  intros Hab Hbc. induction Hbc as [|block parent Hp _ IH];
    [exact Hab|].
  apply (within_parent _ _ parent); [exact Hp | exact IH].
Qed.

(** X21. [onchange] of a block that is on a workspace clears the
    warning exactly when the block is, or is surrounded at any depth by,
    a block of one of the five loop types, and sets the warning
    otherwise; so a block inside a block without warning has no warning
    either. A deleted block gets no call. *)
Theorem onchange_warns_outside_loops this :
  (workspace this = None -> onchange this = None)
  /\ (workspace this <> None ->
      (onchange this = Some null
       <-> exists outer, within outer this /\ isLoop (type outer) = true)
      /\ (onchange this = Some LANG_CONTROLS_FLOW_STATEMENTS_WARNING
          <-> ~ exists outer,
                  within outer this /\ isLoop (type outer) = true)
      /\ forall inner,
           within this inner -> workspace inner <> None ->
           onchange this = Some null -> onchange inner = Some null).
Proof.
  unfold onchange. split; [intros ->; reflexivity|].
  intros Hw. destruct (workspace this) as [ws|]; [|contradiction].
  split; [|split].
  - rewrite <- legal_within. destruct (legal this); split; congruence.
  - rewrite <- legal_within.
    destruct (legal this); split; congruence.
  - intros inner Hin Hwi Hclear.
    destruct (workspace inner) as [wi|]; [|contradiction].
    assert (Hl : legal this = true)
      by (destruct (legal this); congruence).
    apply legal_within in Hl as (outer & Hout & Hloop).
    assert (Hli : legal inner = true).
    { apply legal_within. exists outer. split; [|exact Hloop].
      exact (within_trans _ _ _ Hout Hin). }
    rewrite Hli. reflexivity.
Qed.

End FlowFacts.

(** A [break] two levels inside a [controls_for] loop. *)
Lemma onchange_warns_outside_loops_witness :
  let loop := FlowStatements.mkBlock "controls_for" (Some 0) None in
  let branch := FlowStatements.mkBlock "controls_if" (Some 0) (Some loop) in
  let flow :=
    FlowStatements.mkBlock "controls_flow_statements" (Some 0)
      (Some branch) in
  FlowStatements.onchange flow = Some FlowStatements.null.
Proof.
  intros loop branch flow.
  destruct (onchange_warns_outside_loops flow) as [_ Hon].
  destruct (Hon ltac:(discriminate)) as [Hclear _].
  apply Hclear. exists loop. split; [|reflexivity].
  apply (FlowStatements.within_parent _ _ branch); [reflexivity|].
  apply (FlowStatements.within_parent _ _ loop); [reflexivity|].
  constructor.
Defined.
